(** * ExamShield: detection and alerting engine

    A shallow embedding of the decision logic of the ExamShield controller
    (respberry_pi/main.py, rf_receiver.py, thermal_detection.py, utils.py,
    alert_system.py) together with the properties its design document states
    about it.

    Conventions of the embedding.
    - Python floats are idealised as real numbers ([R]); Python ints are [Z]
      (or [nat] for indices and lengths).  The two places where the program
      leaves rational arithmetic ([10 ** x] and [math.sqrt]) are [Rpower 10]
      and [sqrt].  Rounding, overflow and the special values of binary64 are
      outside this part of the model.
    - The alert decision compares a computed mean with a threshold that the
      scores themselves sit on, so there the rounding decides.  That part of
      main.py (the decision, the alert request, the update that leads to
      them) is embedded a second time over binary64, in [Binary64], and the
      properties about how the decision falls are stated on that embedding.
    - [time.time()] is an input: every function that reads the clock takes
      the reading [now] as an argument.
    - Python dicts used as maps are [gmap]s keyed by [string]; the dict-typed
      records of the program are Rocq records with the dict keys as fields.
    - An exception that the program catches is an [option]/sum result in the
      place where it is raised and the handler's behaviour where it is caught.
    - Logging and file output are not modelled. *)

From Stdlib Require Import ZArith Reals Lra Lia Ascii.
From Stdlib Require Floats.
From stdpp Require Import base option list gmap strings pretty sorting.

#[global] Instance Rle_decision (x y : R) : Decision (x <= y)%R := Rle_dec x y.
#[global] Instance Rlt_decision (x y : R) : Decision (x < y)%R := Rlt_dec x y.
#[global] Instance Rge_decision (x y : R) : Decision (x >= y)%R := Rge_dec x y.
#[global] Instance Rgt_decision (x y : R) : Decision (x > y)%R := Rgt_dec x y.
#[global] Instance R_eq_decision : EqDecision R := Req_dec_T.
#[global] Instance nat_ge_decision (x y : nat) : Decision (x >= y)%nat :=
  decide (y <= x)%nat.
#[global] Instance nat_gt_decision (x y : nat) : Decision (x > y)%nat :=
  decide (y < x)%nat.
#[global] Instance Z_gt_decision (x y : Z) : Decision (x > y)%Z := Z_gt_dec x y.
#[global] Instance Z_ge_decision (x y : Z) : Decision (x >= y)%Z := Z_ge_dec x y.

(** Splits on every decision of the goal and its hypotheses and closes the
    arithmetic side conditions. *)
Ltac rdecide :=
  repeat (case_bool_decide || case_decide); try reflexivity; try lra; try lia.

(** ** Python builtins used by the program *)

Module Py.

Local Open Scope R_scope.

(** [l[start:]] for an integer [start]: a negative start counts from the
    end, and the bounds are clamped.  Note that [l[-0:]] is [l[0:]], the
    whole list. *)
Definition slice_from {A} (start : Z) (l : list A) : list A :=
  let len := Z.of_nat (length l) in
  let lo := if decide (start < 0)%Z then Z.max 0 (start + len) else start in
  drop (Z.to_nat lo) l.

(** [l[i:j]] for non-negative [i] and [j]. *)
Definition slice {A} (i j : nat) (l : list A) : list A :=
  take (j - i) (drop i l).

(** [sum(l)]: a left fold starting from 0. *)
Definition sum (l : list R) : R := foldl Rplus 0 l.

(** [a / b] on numbers: raises ZeroDivisionError ([None]) when [b] is 0. *)
Definition div (a b : R) : option R :=
  if decide (b = 0) then None else Some (a / b).

(** [max(a, b)] and [min(a, b)]: the first argument unless the second is
    strictly larger (smaller). *)
Definition max (a b : R) : R := if decide (b > a) then b else a.
Definition min (a b : R) : R := if decide (b < a) then b else a.

(** [int(x)] on a float: truncation towards zero. *)
Definition int_of_float (x : R) : Z :=
  if decide (0 <= x) then Int_part x else (- Int_part (- x))%Z.

(** [s.split(sep)] for a one-character separator: never the empty list. *)
Fixpoint split (sep : ascii) (s : string) : list string :=
  match s with
  | EmptyString => [EmptyString]
  | String c s' =>
      if Ascii.eqb c sep then EmptyString :: split sep s'
      else match split sep s' with
           | [] => [String c EmptyString]
           | w :: ws => String c w :: ws
           end
  end.

(** [sep.join(l)]. *)
Definition join (sep : string) (l : list string) : string := String.concat sep l.

(** [s.startswith(p)]. *)
Definition startswith (s p : string) : bool := String.prefix p s.

(** Characters [str.strip] and [int] treat as white space (ASCII range). *)
Definition is_space (c : ascii) : bool :=
  let n := nat_of_ascii c in
  ((9 <=? n) && (n <=? 13) || (28 <=? n) && (n <=? 32))%nat.

Definition digit_val (c : ascii) : option Z :=
  let n := nat_of_ascii c in
  if ((48 <=? n) && (n <=? 57))%nat then Some (Z.of_nat (n - 48)) else None.

Fixpoint lstrip (s : string) : string :=
  match s with
  | String c s' => if is_space c then lstrip s' else s
  | EmptyString => EmptyString
  end.

Definition strip (s : string) : string :=
  String.rev (lstrip (String.rev (lstrip s))).

(** The digits of a decimal literal: groups of digits separated by single
    underscores.  [prev] tells whether the previous character was a digit. *)
Fixpoint int_digits (acc : Z) (prev : bool) (s : string) : option Z :=
  match s with
  | EmptyString => if prev then Some acc else None
  | String c s' =>
      match digit_val c with
      | Some d => int_digits (10 * acc + d) true s'
      | None =>
          if Ascii.eqb c "_" then
            if prev then int_digits acc false s' else None
          else None
      end
  end.

(** [int(s)] on a string, base 10: optional surrounding white space, an
    optional sign, then the digits.  [None] is ValueError.  Only ASCII
    digits and white space are covered. *)
Definition int (s : string) : option Z :=
  match strip s with
  | String "-" s' => Z.opp <$> int_digits 0 false s'
  | String "+" s' => int_digits 0 false s'
  | s' => int_digits 0 false s'
  end.

End Py.

(** ** thermal_detection.py *)

Module ThermalDetection.

Local Open Scope R_scope.

(** The detection parameters [__init__] reads from the configuration. *)
Record Config := {
  temp_threshold : R;
  hotspot_min_size : R;
  hotspot_max_size : R
}.

(** What the loop of [detect_hotspots] reads off one contour through
    OpenCV: [cv2.contourArea], the moments [m00], [m10], [m01] of
    [cv2.moments], and the mean temperature [cv2.mean(frame, mask)[0]] over
    the filled contour. *)
Record Contour := {
  contourArea : R;
  m00 : R;
  m10 : R;
  m01 : R;
  mean_temp : R
}.

(** A captured frame.  The image pipeline of [detect_hotspots] (normalise,
    blur, threshold at [temp_threshold], close, open, [cv2.findContours]) is
    OpenCV's; [contours] is the list it returns for the frame at the
    configured threshold, in its order. *)
Record Frame_data := {
  contours : list Contour;
  frame_id : nat;
  timestamp : R
}.

Record Hotspot := {
  position : Z * Z;
  area : R;
  avg_temp : R;
  confidence : R;
  hotspot_frame_id : nat;
  hotspot_timestamp : R
}.

(** The body of the loop for a contour that passed the two guards. *)
Definition hotspot_of_contour (fd : Frame_data) (contour : Contour) : Hotspot :=
  let area := contourArea contour in
  let cx := Py.int_of_float (m10 contour / m00 contour) in
  let cy := Py.int_of_float (m01 contour / m00 contour) in
  let avg_temp := mean_temp contour in
  let temp_confidence := Py.min ((avg_temp - 25) / 15) 1 in
  let size_confidence := 1 - Rabs (area - 10) / 10 in
  let confidence := (temp_confidence + size_confidence) / 2 in
  {| position := (cx, cy);
     area := area;
     avg_temp := avg_temp;
     confidence := Py.max 0.1 confidence;
     hotspot_frame_id := frame_id fd;
     hotspot_timestamp := timestamp fd |}.

(** The size filter of the loop. *)
Definition size_ok (cfg : Config) (contour : Contour) : Prop :=
  hotspot_min_size cfg <= contourArea contour /\
  contourArea contour <= hotspot_max_size cfg.

#[global] Instance size_ok_dec cfg contour : Decision (size_ok cfg contour).
Proof. unfold size_ok. apply _. Defined.

(** [hotspots.sort(key=confidence, reverse=True)]: a stable sort by
    descending confidence. *)
Fixpoint insert_by_confidence (h : Hotspot) (l : list Hotspot) : list Hotspot :=
  match l with
  | [] => [h]
  | x :: l' =>
      if decide (confidence x >= confidence h) then x :: insert_by_confidence h l'
      else h :: x :: l'
  end.

Definition sort_by_confidence (l : list Hotspot) : list Hotspot :=
  foldl (fun acc h => insert_by_confidence h acc) [] l.

(** [detect_hotspots(frame_data)].  [frame_data] is the frame passed in or,
    when none is passed, what [get_latest_frame] hands out; [None] when
    there is no frame. *)
Definition detect_hotspots (cfg : Config) (frame_data : option Frame_data)
  : list Hotspot :=
  match frame_data with
  | None => []
  | Some fd =>
      let hotspots :=
        omap (fun contour =>
                if decide (size_ok cfg contour) then
                  if decide (m00 contour <> 0) then
                    Some (hotspot_of_contour fd contour)
                  else None
                else None)
             (contours fd) in
      sort_by_confidence hotspots
  end.

(** The frame queue [Queue(maxsize=10)] as the list of its frames, oldest
    first. *)
Definition queue_maxsize : nat := 10.

(** The queue step of [_capture_frames]: put the frame when the queue is
    not full, otherwise take the oldest frame out and put it. *)
Definition capture_enqueue (frame_data : Frame_data)
    (frame_queue : list Frame_data) : list Frame_data :=
  if decide (length frame_queue < queue_maxsize)%nat
  then frame_queue ++ [frame_data]
  else drop 1 frame_queue ++ [frame_data].

(** [get_latest_frame()]: [get_nowait] on the queue, [None] when it is
    empty. *)
Definition get_latest_frame (frame_queue : list Frame_data)
  : option Frame_data * list Frame_data :=
  match frame_queue with
  | [] => (None, [])
  | frame_data :: rest => (Some frame_data, rest)
  end.

(** [detect_hotspots()] without a frame: it takes one from the queue. *)
Definition detect_hotspots_queued (cfg : Config) (frame_queue : list Frame_data)
  : list Hotspot * list Frame_data :=
  let r := get_latest_frame frame_queue in
  (detect_hotspots cfg r.1, r.2).

(** [_update_recent_frames(frame)] on [recent_frames]. *)
Definition max_recent_frames : nat := 10.

Definition _update_recent_frames {Frame} (frame : Frame)
    (recent_frames : list Frame) : list Frame :=
  let appended := recent_frames ++ [frame] in
  if decide (length appended > max_recent_frames)%nat
  then drop 1 appended
  else appended.

End ThermalDetection.

(** ** utils.py *)

Module Utils.

Local Open Scope R_scope.

(** [trilaterate(distances, positions)]. *)
Definition trilaterate (distances : list R) (positions : list (R * R))
  : option (R * R) :=
  if bool_decide (length distances < 3)%nat || bool_decide (length positions < 3)%nat
  then None
  else
    match positions, distances with
    | (x1, y1) :: (x2, y2) :: (x3, y3) :: _, r1 :: r2 :: r3 :: _ =>
        let A := 2 * (x2 - x1) in
        let B := 2 * (y2 - y1) in
        let C := r1^2 - r2^2 - x1^2 + x2^2 - y1^2 + y2^2 in
        let D := 2 * (x3 - x2) in
        let E := 2 * (y3 - y2) in
        let F := r2^2 - r3^2 - x2^2 + x3^2 - y2^2 + y3^2 in
        x ← Py.div (C * E - F * B) (E * A - B * D);
        y ← Py.div (A * F - D * C) (A * E - B * D);
        Some (x, y)
    | _, _ => None
    end.

Record Correlation := {
  rf_position : R * R;
  thermal_position : Z * Z;
  correlation_distance : R;
  hotspot_area : R;
  confidence : R
}.

(** The body of the inner loop of [correlate_rf_thermal]: the correlations
    one (RF position, hotspot) pair adds, or [None] when the division
    raises. *)
Definition correlate_pair (rf_pos : R * R) (threshold : R)
    (hotspot : ThermalDetection.Hotspot) : option (list Correlation) :=
  let thermal_pos := ThermalDetection.position hotspot in
  let distance :=
    sqrt ((rf_pos.1 - IZR thermal_pos.1)^2 + (rf_pos.2 - IZR thermal_pos.2)^2) in
  if decide (distance <= threshold) then
    q ← Py.div distance threshold;
    Some [ {| rf_position := rf_pos;
              thermal_position := thermal_pos;
              correlation_distance := distance;
              hotspot_area := ThermalDetection.area hotspot;
              confidence := 1 - q |} ]
  else Some [].

(** [correlate_rf_thermal(rf_positions, thermal_hotspots, threshold)]:
    every RF position that is not [None] against every hotspot, in loop
    order.  [None] when a ZeroDivisionError leaves the function. *)
Definition correlate_rf_thermal (rf_positions : list (option (R * R)))
    (thermal_hotspots : list ThermalDetection.Hotspot) (threshold : R)
  : option (list Correlation) :=
  mjoin <$>
    mapM (fun rf =>
            match rf with
            | None => Some []
            | Some rf_pos =>
                mjoin <$> mapM (correlate_pair rf_pos threshold) thermal_hotspots
            end)
         rf_positions.

(** [convert_servo_angle(x, y, image_width, image_height, servo_range_x,
    servo_range_y)]; [None] when a width is 0 and the division raises. *)
Definition convert_servo_angle (x y image_width image_height : R)
    (servo_range_x servo_range_y : Z) : option (Z * Z) :=
  qx ← Py.div x image_width;
  let angle_x := Py.int_of_float (qx * IZR servo_range_x) in
  qy ← Py.div y image_height;
  let angle_y := Py.int_of_float (qy * IZR servo_range_y) in
  let angle_x := Z.max 0 (Z.min angle_x servo_range_x) in
  let angle_y := Z.max 0 (Z.min angle_y servo_range_y) in
  Some (angle_x, angle_y).

End Utils.

(** ** rf_receiver.py *)

Module RFReceiver.

Local Open Scope R_scope.

(** The [detection_data] dict a scanner line is parsed into. *)
Record Detection_data := {
  esp32_id : nat;
  mac_address : string;
  rssi : Z;
  device_type : string;
  timestamp : R;
  position : R * R
}.

(** An entry of [detected_devices]. *)
Record Device := {
  first_seen : R;
  last_seen : R;
  detections : list Detection_data;
  estimated_position : option (R * R)
}.

(** An entry of the list [get_estimated_positions] returns. *)
Record Position_data := {
  pos_mac_address : string;
  pos_position : R * R;
  pos_confidence : R
}.

Definition esp32_positions : list (R * R) :=
  [(0, 0); (100, 0); (0, 100); (100, 100)].

(** What the [try] block of [_parse_esp32_data] does with a line: it puts a
    detection on the queue, falls through a guard without doing anything, or
    raises (IndexError, ValueError), which the handler logs. *)
Inductive Parse_result :=
  | Enqueued (detection_data : Detection_data)
  | Ignored
  | Raised.

Definition parse_line (esp32_id : nat) (data_line : string) (now : R)
  : Parse_result :=
  if Py.startswith data_line "DEVICE:" then
    let parts := Py.split ":" data_line in
    if decide (length parts >= 4)%nat then
      let mac_address := Py.join ":" (Py.slice 1 7 parts) in
      match parts !! 7%nat with
      | None => Raised
      | Some field =>
          match Py.int field with
          | None => Raised
          | Some rssi =>
              (* parts[8] if len(parts) > 8 else "Unknown" *)
              let device_type := default "Unknown" (parts !! 8%nat) in
              match esp32_positions !! esp32_id with
              | None => Raised
              | Some position =>
                  Enqueued {| esp32_id := esp32_id;
                              mac_address := mac_address;
                              rssi := rssi;
                              device_type := device_type;
                              timestamp := now;
                              position := position |}
              end
          end
      end
    else Ignored
  else Ignored.

(** [_parse_esp32_data(esp32_id, data_line)] on the queue of parsed
    detections. *)
Definition _parse_esp32_data (esp32_id : nat) (data_line : string) (now : R)
    (data_queue : list Detection_data) : list Detection_data :=
  match parse_line esp32_id data_line now with
  | Enqueued detection_data => data_queue ++ [detection_data]
  | Ignored => data_queue
  | Raised => data_queue
  end.

(** [_rssi_to_distance(rssi)]. *)
Definition _rssi_to_distance (rssi : Z) : R :=
  if decide (rssi = 0)%Z then -1
  else
    let n := 2 in
    let A := -30 in
    let distance := Rpower 10 ((A - IZR rssi) / (10 * n)) in
    Py.max distance 0.1.

(** The first loop of [_estimate_device_position]: per scanner, the
    detection with the strongest signal (the earliest one among equals). *)
Definition strongest_per_esp32 (recent_detections : list Detection_data)
  : gmap nat Detection_data :=
  foldl (fun esp32_rssi detection =>
           match esp32_rssi !! esp32_id detection with
           | None => <[esp32_id detection := detection]> esp32_rssi
           | Some held =>
               if decide (rssi detection > rssi held)%Z
               then <[esp32_id detection := detection]> esp32_rssi
               else esp32_rssi
           end)
        ∅ recent_detections.

(** [_estimate_device_position(mac_address)]. *)
Definition _estimate_device_position (mac : string)
    (detected_devices : gmap string Device) : gmap string Device :=
  match detected_devices !! mac with
  | None => detected_devices
  | Some device =>
      let esp32_rssi := strongest_per_esp32 (detections device) in
      if decide (size esp32_rssi >= 3)%nat then
        let chosen :=
          omap (fun id => esp32_rssi !! id)
               (merge_sort Nat.le (elements (dom esp32_rssi))) in
        let positions := position <$> chosen in
        let distances := (fun d => _rssi_to_distance (rssi d)) <$> chosen in
        match Utils.trilaterate distances positions with
        | Some estimated_pos =>
            <[mac := {| first_seen := first_seen device;
                        last_seen := last_seen device;
                        detections := detections device;
                        estimated_position := Some estimated_pos |}]>
              detected_devices
        | None => detected_devices
        end
      else detected_devices
  end.

(** [_update_device_tracking(detection)]. *)
Definition _update_device_tracking (detection : Detection_data)
    (detected_devices : gmap string Device) : gmap string Device :=
  let mac := mac_address detection in
  let device :=
    default {| first_seen := timestamp detection;
               last_seen := timestamp detection;
               detections := [];
               estimated_position := None |}
            (detected_devices !! mac) in
  let cutoff_time := timestamp detection - 30 in
  let device :=
    {| first_seen := first_seen device;
       last_seen := timestamp detection;
       detections :=
         filter (fun d => timestamp d > cutoff_time)
                (detections device ++ [detection]);
       estimated_position := estimated_position device |} in
  _estimate_device_position mac (<[mac := device]> detected_devices).

(** [get_detected_devices()]. *)
Definition get_detected_devices (current_time : R)
    (detected_devices : gmap string Device) : gmap string Device :=
  filter (fun entry : string * Device => current_time - last_seen entry.2 <= 10)
         detected_devices.

(** [_calculate_position_confidence(device)]. *)
Definition _calculate_position_confidence (device : Device) : R :=
  match detections device with
  | [] => 0
  | _ =>
      let unique_esp32s :=
        size (list_to_set (esp32_id <$> detections device) : gset nat) in
      let base_confidence := Py.min (INR unique_esp32s / 4) 1 in
      let avg_rssi :=
        IZR (foldl Z.add 0%Z (rssi <$> detections device))
        / INR (length (detections device)) in
      let rssi_factor := Py.max 0.1 (Py.min 1 ((avg_rssi + 100) / 50)) in
      base_confidence * rssi_factor
  end.

(** [get_estimated_positions()].  The entries come in the order of the
    table's keys, where Python goes by insertion order; nothing below
    depends on the order. *)
Definition get_estimated_positions (current_time : R)
    (detected_devices : gmap string Device) : list Position_data :=
  omap (fun entry : string * Device =>
          match estimated_position entry.2 with
          | Some p =>
              Some {| pos_mac_address := entry.1;
                      pos_position := p;
                      pos_confidence := _calculate_position_confidence entry.2 |}
          | None => None
          end)
       (map_to_list (get_detected_devices current_time detected_devices)).

(** One round of [_read_esp32_data] on a line read from the port: strip it,
    and parse it when something is left. *)
Definition _read_esp32_data (esp32_id : nat) (raw_line : string) (now : R)
    (data_queue : list Detection_data) : list Detection_data :=
  let line := Py.strip raw_line in
  match line with
  | EmptyString => data_queue
  | _ => _parse_esp32_data esp32_id line now data_queue
  end.

(** One round of [_process_data]: take the oldest detection off the queue,
    if there is one, and record it. *)
Definition _process_data (data_queue : list Detection_data)
    (detected_devices : gmap string Device)
  : list Detection_data * gmap string Device :=
  match data_queue with
  | [] => (data_queue, detected_devices)
  | detection :: rest => (rest, _update_device_tracking detection detected_devices)
  end.

End RFReceiver.

(** ** alert_system.py *)

Module AlertSystem.

Local Open Scope R_scope.

Inductive Level := LOW | HIGH.

(** The state of the GPIO driver as the dispatcher uses it: the channels set
    up as outputs ([GPIO.setup], undone by [GPIO.cleanup]) with the level
    last written to each.  [GPIO.output] raises on a channel that is not set
    up. *)
Abbreviation GPIO := (gmap nat Level).

Definition GPIO_output (pin : nat) (level : Level) (gpio : GPIO) : option GPIO :=
  match gpio !! pin with
  | Some _ => Some (<[pin := level]> gpio)
  | None => None
  end.

(** An [alert_data] dict. *)
Record Alert_data := {
  target_position : option (R * R);
  alert_type : string;
  duration : R;
  timestamp : R
}.

(** The fields of [AlertSystem] the dispatcher reads and writes. *)
Record State := {
  laser_pin : nat;
  buzzer_pin : nat;
  led_pin : nat;
  alert_active : bool;
  current_target : option (R * R);
  running : bool;
  alert_queue : list Alert_data;
  current_x_angle : R;
  current_y_angle : R
}.

Definition set_queue (q : list Alert_data) (s : State) : State :=
  {| laser_pin := laser_pin s; buzzer_pin := buzzer_pin s; led_pin := led_pin s;
     alert_active := alert_active s; current_target := current_target s;
     running := running s; alert_queue := q;
     current_x_angle := current_x_angle s; current_y_angle := current_y_angle s |}.

Definition set_active (b : bool) (target : option (R * R)) (s : State) : State :=
  {| laser_pin := laser_pin s; buzzer_pin := buzzer_pin s; led_pin := led_pin s;
     alert_active := b; current_target := target;
     running := running s; alert_queue := alert_queue s;
     current_x_angle := current_x_angle s; current_y_angle := current_y_angle s |}.

(** [trigger_alert(target_position, alert_type, duration)] with the duration
    given. *)
Definition trigger_alert (target : option (R * R)) (alert_type : string)
    (duration now : R) (s : State) : State :=
  set_queue (alert_queue s ++ [ {| target_position := target;
                                   alert_type := alert_type;
                                   duration := duration;
                                   timestamp := now |} ]) s.



(** The two servo PWM objects: [None] until [initialize] creates them, then
    the duty cycles commanded so far, oldest first.  [ChangeDutyCycle] on
    [None] raises. *)
Record Servos := {
  servo_x : option (list R);
  servo_y : option (list R)
}.

(** A run of servo commands: the servos afterwards, and whether the run
    completed ([true]) or raised ([false]). *)
Definition Run := Servos -> bool * Servos.

Definition then_run (first second : Run) : Run :=
  fun servos =>
    let r := first servos in
    if r.1 then second r.2 else (false, r.2).

Definition done_run : Run := fun servos => (true, servos).

Definition ChangeDutyCycle_x (duty : R) : Run :=
  fun servos =>
    match servo_x servos with
    | Some sent => (true, {| servo_x := Some (sent ++ [duty]);
                             servo_y := servo_y servos |})
    | None => (false, servos)
    end.

Definition ChangeDutyCycle_y (duty : R) : Run :=
  fun servos =>
    match servo_y servos with
    | Some sent => (true, {| servo_x := servo_x servos;
                             servo_y := Some (sent ++ [duty]) |})
    | None => (false, servos)
    end.

Definition servo_min_duty : R := 2.5.
Definition servo_max_duty : R := 12.5.
Definition servo_center_duty : R := 7.5.

(** [_angle_to_duty_cycle(angle)]. *)
Definition _angle_to_duty_cycle (angle : R) : R :=
  servo_min_duty + (angle / 180) * (servo_max_duty - servo_min_duty).

(** Step [i] of [_smooth_servo_move]. *)
Definition smooth_step (start_x start_y target_x target_y : R) (i : nat) : Run :=
  let steps := 10%nat in
  let progress := INR i / INR steps in
  let current_x := start_x + (target_x - start_x) * progress in
  let current_y := start_y + (target_y - start_y) * progress in
  then_run (ChangeDutyCycle_x (_angle_to_duty_cycle current_x))
           (ChangeDutyCycle_y (_angle_to_duty_cycle current_y)).

(** [_smooth_servo_move(target_x, target_y)]: [for i in range(steps + 1)]. *)
Definition _smooth_servo_move (target_x target_y : R) (s : State) : Run :=
  let steps := 10%nat in
  let start_x := current_x_angle s in
  let start_y := current_y_angle s in
  foldr (fun i rest => then_run (smooth_step start_x start_y target_x target_y i) rest)
        done_run (seq 0 (steps + 1)).

Definition set_angles (x_angle y_angle : R) (s : State) : State :=
  {| laser_pin := laser_pin s; buzzer_pin := buzzer_pin s; led_pin := led_pin s;
     alert_active := alert_active s; current_target := current_target s;
     running := running s; alert_queue := alert_queue s;
     current_x_angle := x_angle; current_y_angle := y_angle |}.

(** [move_servo(x_angle, y_angle)]: the angles are stored only when the
    [try] block gets to its end. *)
Definition move_servo (x_angle y_angle : R) (s : State) (servos : Servos)
  : State * Servos :=
  let x_duty := _angle_to_duty_cycle x_angle in
  let y_duty := _angle_to_duty_cycle y_angle in
  let r :=
    (if decide (Rabs (x_angle - current_x_angle s) > 30
                \/ Rabs (y_angle - current_y_angle s) > 30)
     then _smooth_servo_move x_angle y_angle s
     else then_run (ChangeDutyCycle_x x_duty) (ChangeDutyCycle_y y_duty))
      servos in
  if r.1 then (set_angles x_angle y_angle s, r.2) else (s, r.2).

(** The angles [point_laser_at_position] computes for a position. *)
Definition laser_angles (position : R * R) (image_width image_height : R)
  : option (Z * Z) :=
  qx ← Py.div position.1 image_width;
  let angle_x := Py.int_of_float (qx * 180) in
  qy ← Py.div position.2 image_height;
  let angle_y := Py.int_of_float (qy * 180) in
  Some (Z.max 0 (Z.min angle_x 180), Z.max 0 (Z.min angle_y 180)).

(** [point_laser_at_position(position, image_width, image_height)]. *)
Definition point_laser_at_position (position : R * R)
    (image_width image_height : R) (s : State) (servos : Servos)
  : State * Servos :=
  match laser_angles position image_width image_height with
  | Some angles => move_servo (IZR angles.1) (IZR angles.2) s servos
  | None => (s, servos)
  end.

(** A run of [GPIO.output] calls in program order: it stops at the first
    call that raises, and tells whether it got to the end. *)
Fixpoint GPIO_outputs (writes : list (nat * Level)) (gpio : GPIO) : bool * GPIO :=
  match writes with
  | [] => (true, gpio)
  | (pin, level) :: rest =>
      match GPIO_output pin level gpio with
      | Some gpio' => GPIO_outputs rest gpio'
      | None => (false, gpio)
      end
  end.

(** The body of the loop of [_device_detected_alert]. *)
Definition device_detected_cycle (s : State) : list (nat * Level) :=
  [ (laser_pin s, HIGH); (led_pin s, HIGH);
    (buzzer_pin s, HIGH); (buzzer_pin s, LOW);
    (laser_pin s, LOW); (led_pin s, LOW) ].

(** The body of [for _ in range(5)] in [_high_confidence_alert]. *)
Definition high_confidence_flash (s : State) : list (nat * Level) :=
  [ (laser_pin s, HIGH); (led_pin s, HIGH); (buzzer_pin s, HIGH);
    (laser_pin s, LOW); (led_pin s, LOW); (buzzer_pin s, LOW) ].

(** The writes of the three alert patterns.  The loops
    [while time.time() < end_time and self.running] are governed by the
    clock: [cycles] is the number of times it lets the body run. *)
Definition _device_detected_alert (cycles : nat) (s : State) : list (nat * Level) :=
  if running s then mjoin (replicate cycles (device_detected_cycle s)) else [].

Definition _high_confidence_alert (cycles : nat) (s : State) : list (nat * Level) :=
  if running s
  then mjoin (replicate cycles (mjoin (replicate 5 (high_confidence_flash s))))
  else [].

Definition _test_alert (s : State) : list (nat * Level) :=
  [ (laser_pin s, HIGH); (led_pin s, HIGH); (buzzer_pin s, HIGH);
    (laser_pin s, LOW); (led_pin s, LOW); (buzzer_pin s, LOW) ].

(** The pattern [_execute_alert] runs for an alert type; none for a type it
    does not know. *)
Definition alert_pattern (alert_type : string) (cycles : nat) (s : State)
  : list (nat * Level) :=
  if decide (alert_type = "device_detected") then _device_detected_alert cycles s
  else if decide (alert_type = "high_confidence")
       then _high_confidence_alert cycles s
  else if decide (alert_type = "test_alert") then _test_alert s
  else [].

(** [_execute_alert(alert_data)].  [point_laser_at_position] handles its own
    exceptions; a [GPIO.output] that raises ends the [try] block, and the
    handler resets [alert_active] only. *)
Definition _execute_alert (alert_data : Alert_data) (cycles : nat)
    (s : State) (servos : Servos) (gpio : GPIO) : State * Servos * GPIO :=
  let target_pos := target_position alert_data in
  let s := set_active true target_pos s in
  let pointed :=
    match target_pos with
    | Some position => point_laser_at_position position 32 24 s servos
    | None => (s, servos)
    end in
  let s := pointed.1 in
  let r := GPIO_outputs (alert_pattern (alert_type alert_data) cycles s) gpio in
  if r.1 then (set_active false None s, pointed.2, r.2)
  else (set_active false (current_target s) s, pointed.2, r.2).

(** One round of the loop of [_process_alerts]: the oldest request, if
    there is one, leaves the queue and is executed. *)
Definition _process_alerts (cycles : nat) (s : State) (servos : Servos)
    (gpio : GPIO) : State * Servos * GPIO :=
  if running s then
    match alert_queue s with
    | [] => (s, servos, gpio)
    | alert_data :: rest =>
        _execute_alert alert_data cycles (set_queue rest s) servos gpio
    end
  else (s, servos, gpio).

End AlertSystem.

(** ** main.py *)

Module Main.

Local Open Scope R_scope.

(** The detection and alert parameters read from the configuration. *)
Record Config := {
  correlation_threshold : R;
  confidence_threshold : R;
  min_detection_time : R;
  alert_duration : R
}.

(** An entry of [active_detections]. *)
Record Detection := {
  first_detected : R;
  last_updated : R;
  positions : list (R * R);
  detection_type : string;
  confidence_scores : list R;
  alert_triggered : bool
}.

(** The part of [ExamShieldSystem] the detection tick works on. *)
Record System := {
  active_detections : gmap string Detection;
  alert_system : AlertSystem.State
}.

(** The record the three handlers create for an unknown device id. *)
Definition new_detection (now : R) (detection_type : string) : Detection :=
  {| first_detected := now;
     last_updated := now;
     positions := [];
     detection_type := detection_type;
     confidence_scores := [];
     alert_triggered := false |}.

(** A hotspot's integer pixel position as a point. *)
Definition point (p : Z * Z) : R * R := (IZR p.1, IZR p.2).

(** [should_trigger_alert(detection)], with the mean and the comparisons
    over the reals.  [Binary64.should_trigger_alert] is the same code over
    binary64; the two differ where rounding decides, and what depends on the
    outcome of the decision is stated on the latter. *)
Definition should_trigger_alert (cfg : Config) (now : R) (detection : Detection)
  : bool :=
  if alert_triggered detection then false
  else
    let detection_duration := now - first_detected detection in
    if decide (detection_duration < min_detection_time cfg) then false
    else if decide (length (confidence_scores detection) < 3)%nat then false
    else
      let avg_confidence :=
        Py.sum (Py.slice_from (-3) (confidence_scores detection)) / 3 in
      bool_decide (avg_confidence >= confidence_threshold cfg).

(** [trigger_device_alert(device_id, detection)] on the record and the alert
    dispatcher. *)
Definition trigger_device_alert (cfg : Config) (now : R) (detection : Detection)
    (alerts : AlertSystem.State) : Detection * AlertSystem.State :=
  match last (positions detection) with
  | None => (detection, alerts)
  | Some latest_position =>
      let avg_confidence :=
        Py.sum (Py.slice_from (-3) (confidence_scores detection)) / 3 in
      let alert_type : string :=
        if decide (avg_confidence > 0.8) then "high_confidence"
        else "device_detected" in
      ({| first_detected := first_detected detection;
          last_updated := last_updated detection;
          positions := positions detection;
          detection_type := detection_type detection;
          confidence_scores := confidence_scores detection;
          alert_triggered := true |},
       AlertSystem.trigger_alert (Some latest_position) alert_type
         (alert_duration cfg) now alerts)
  end.

(** The end of each handler: the updated record is the entry of
    [active_detections] (the program mutates the entry in place), and the
    alert check runs on it. *)
Definition check_alert (cfg : Config) (now : R) (device_id : string)
    (detection : Detection) (sys : System) : System :=
  if should_trigger_alert cfg now detection then
    let r := trigger_device_alert cfg now detection (alert_system sys) in
    {| active_detections := <[device_id := r.1]> (active_detections sys);
       alert_system := r.2 |}
  else
    {| active_detections := <[device_id := detection]> (active_detections sys);
       alert_system := alert_system sys |}.

(** The comprehension of [handle_correlation] under the comment "Keep only
    recent positions": position [i] of [n] stays when
    [last_updated - (n - i) <= 30]. *)
Definition recent_positions (last_updated : R) (positions : list (R * R))
  : list (R * R) :=
  (filter (fun ip : nat * (R * R) =>
             last_updated - INR (length positions - ip.1) <= 30)
          (imap pair positions)).*2.

(** [handle_correlation(correlation, rf_positions, thermal_hotspots)]. *)
Definition handle_correlation (cfg : Config) (now : R)
    (correlation : Utils.Correlation)
    (rf_positions : list RFReceiver.Position_data) (sys : System) : System :=
  let rf_pos := Utils.rf_position correlation in
  let thermal_pos := Utils.thermal_position correlation in
  let confidence := Utils.confidence correlation in
  let rf_device :=
    head (filter (fun pos_data => RFReceiver.pos_position pos_data = rf_pos)
                 rf_positions) in
  match rf_device with
  | None => sys
  | Some rf_device =>
      if decide (confidence >= confidence_threshold cfg) then
        let device_id := RFReceiver.pos_mac_address rf_device in
        let detection :=
          default (new_detection now "rf_thermal_correlation")
                  (active_detections sys !! device_id) in
        let appended := positions detection ++ [point thermal_pos] in
        let scores := confidence_scores detection ++ [confidence] in
        let kept := recent_positions now appended in
        let detection :=
          {| first_detected := first_detected detection;
             last_updated := now;
             positions := kept;
             detection_type := detection_type detection;
             confidence_scores := Py.slice_from (- Z.of_nat (length kept)) scores;
             alert_triggered := alert_triggered detection |} in
        check_alert cfg now device_id detection sys
      else sys
  end.

(** The update the RF-only and thermal-only handlers share: create the
    record when the id is new, stamp it, append the position and the
    confidence, check for an alert. *)
Definition record_evidence (cfg : Config) (now : R) (kind : string)
    (device_id : string) (position : R * R) (confidence : R) (sys : System)
  : System :=
  let detection :=
    default (new_detection now kind) (active_detections sys !! device_id) in
  let detection :=
    {| first_detected := first_detected detection;
       last_updated := now;
       positions := positions detection ++ [position];
       detection_type := detection_type detection;
       confidence_scores := confidence_scores detection ++ [confidence];
       alert_triggered := alert_triggered detection |} in
  check_alert cfg now device_id detection sys.

(** The confidence the RF-only and the thermal-only handler give to a
    detection. *)
Definition rf_only_confidence (pos_data : RFReceiver.Position_data) : R :=
  RFReceiver.pos_confidence pos_data * 0.7.

Definition thermal_only_confidence (hotspot : ThermalDetection.Hotspot) : R :=
  ThermalDetection.confidence hotspot * 0.6.

(** [handle_rf_only_detections(rf_positions, correlations)]. *)
Definition handle_rf_only_detections (cfg : Config) (now : R)
    (rf_positions : list RFReceiver.Position_data)
    (correlations : list Utils.Correlation) (sys : System) : System :=
  let correlated_rf_positions := Utils.rf_position <$> correlations in
  foldl (fun sys pos_data =>
           if decide (RFReceiver.pos_position pos_data ∉ correlated_rf_positions)
           then
             let device_id := RFReceiver.pos_mac_address pos_data in
             let position := RFReceiver.pos_position pos_data in
             let confidence := rf_only_confidence pos_data in
             if decide (confidence >= confidence_threshold cfg) then
               record_evidence cfg now "rf_only" device_id position confidence sys
             else sys
           else sys)
        sys rf_positions.

(** The pseudo device id of a thermal-only detection:
    [f"thermal_{x}_{y}"]. *)
Definition thermal_device_id (p : Z * Z) : string :=
  "thermal_" +:+ pretty p.1 +:+ "_" +:+ pretty p.2.

(** [handle_thermal_only_detections(thermal_hotspots, correlations)]. *)
Definition handle_thermal_only_detections (cfg : Config) (now : R)
    (thermal_hotspots : list ThermalDetection.Hotspot)
    (correlations : list Utils.Correlation) (sys : System) : System :=
  let correlated_thermal_positions := Utils.thermal_position <$> correlations in
  foldl (fun sys hotspot =>
           if decide (ThermalDetection.position hotspot
                        ∉ correlated_thermal_positions)
           then
             let device_id := thermal_device_id (ThermalDetection.position hotspot) in
             let position := point (ThermalDetection.position hotspot) in
             let confidence := thermal_only_confidence hotspot in
             if decide (confidence >= confidence_threshold cfg) then
               record_evidence cfg now "thermal_only" device_id position
                 confidence sys
             else sys
           else sys)
        sys thermal_hotspots.

(** [cleanup_old_detections()] on [active_detections]: first the list of
    expired ids, then one [del] per id. *)
Definition expired_detections (current_time : R)
    (active : gmap string Detection) : list string :=
  let timeout := 30 in
  omap (fun entry : string * Detection =>
          if decide (current_time - last_updated entry.2 > timeout)
          then Some entry.1 else None)
       (map_to_list active).

Definition cleanup_old_detections (current_time : R)
    (active : gmap string Detection) : gmap string Detection :=
  foldl (fun active device_id => delete device_id active)
        active (expired_detections current_time active).

(** [process_detections()]: one detection tick.  [detected_devices] is the
    RF receiver's table and [frame] the latest thermal frame at the time of
    the tick.  An exception inside the tick is logged and ends it. *)
Definition process_detections (cfg : Config) (thermal_cfg : ThermalDetection.Config)
    (now : R) (detected_devices : gmap string RFReceiver.Device)
    (frame : option ThermalDetection.Frame_data) (sys : System) : System :=
  let rf_positions := RFReceiver.get_estimated_positions now detected_devices in
  let thermal_hotspots := ThermalDetection.detect_hotspots thermal_cfg frame in
  match rf_positions, thermal_hotspots with
  | [], [] => sys
  | _, _ =>
      let rf_pos_list := (fun pos_data => Some (RFReceiver.pos_position pos_data))
                           <$> rf_positions in
      match Utils.correlate_rf_thermal rf_pos_list thermal_hotspots
              (correlation_threshold cfg) with
      | None => sys
      | Some correlations =>
          let sys := foldl (fun sys correlation =>
                              handle_correlation cfg now correlation rf_positions sys)
                           sys correlations in
          let sys := handle_rf_only_detections cfg now rf_positions correlations sys in
          let sys := handle_thermal_only_detections cfg now thermal_hotspots
                       correlations sys in
          {| active_detections :=
               cleanup_old_detections now (active_detections sys);
             alert_system := alert_system sys |}
      end
  end.

End Main.

(** ** main.py: the alert decision in binary64 *)

Module Binary64.

#[local] Set Warnings "-inexact-float".

Import PrimFloat.

Local Open Scope float_scope.

(** [sum(l)] on a list of floats: the additions from left to right,
    starting from the int 0. *)
Definition sum (l : list float) : float := foldl add 0 l.

(** A position: the pair of floats of an RF estimate or the pair of ints of
    a hotspot's pixel. *)
Inductive Position :=
  | Point (x y : float)
  | Pixel (x y : Z).

(** The parameters the decision and the alert request read. *)
Record Config := {
  confidence_threshold : float;
  min_detection_time : float;
  alert_duration : float
}.

(** An entry of [active_detections]. *)
Record Detection := {
  first_detected : float;
  last_updated : float;
  positions : list Position;
  detection_type : string;
  confidence_scores : list float;
  alert_triggered : bool
}.

(** An [alert_data] dict as [trigger_alert] queues it. *)
Record Alert_data := {
  target_position : Position;
  alert_type : string;
  duration : float;
  timestamp : float
}.

Definition new_detection (now : float) (detection_type : string) : Detection :=
  {| first_detected := now;
     last_updated := now;
     positions := [];
     detection_type := detection_type;
     confidence_scores := [];
     alert_triggered := false |}.

(** [sum(detection['confidence_scores'][-3:]) / 3]. *)
Definition avg_confidence (detection : Detection) : float :=
  sum (Py.slice_from (-3) (confidence_scores detection)) / 3.

(** [should_trigger_alert(detection)]. *)
Definition should_trigger_alert (cfg : Config) (now : float)
    (detection : Detection) : bool :=
  if alert_triggered detection then false
  else
    let detection_duration := now - first_detected detection in
    if ltb detection_duration (min_detection_time cfg) then false
    else if decide (length (confidence_scores detection) < 3)%nat then false
    else leb (confidence_threshold cfg) (avg_confidence detection).

(** [trigger_device_alert(device_id, detection)] on the record and the alert
    queue: [alert_system.trigger_alert] puts the request at its end. *)
Definition trigger_device_alert (cfg : Config) (now : float)
    (detection : Detection) (alert_queue : list Alert_data)
  : Detection * list Alert_data :=
  match last (positions detection) with
  | None => (detection, alert_queue)
  | Some latest_position =>
      let alert_type : string :=
        if ltb 0.8 (avg_confidence detection) then "high_confidence"
        else "device_detected" in
      ({| first_detected := first_detected detection;
          last_updated := last_updated detection;
          positions := positions detection;
          detection_type := detection_type detection;
          confidence_scores := confidence_scores detection;
          alert_triggered := true |},
       alert_queue ++ [ {| target_position := latest_position;
                           alert_type := alert_type;
                           duration := alert_duration cfg;
                           timestamp := now |} ])
  end.

(** The update the RF-only and thermal-only handlers make for a detection
    that passed their threshold test: create the record when the id is new,
    stamp it, append the position and the confidence, and raise the alert
    when [should_trigger_alert] says so. *)
Definition record_evidence (cfg : Config) (now : float) (kind : string)
    (device_id : string) (position : Position) (confidence : float)
    (active_detections : gmap string Detection) (alert_queue : list Alert_data)
  : gmap string Detection * list Alert_data :=
  let detection :=
    default (new_detection now kind) (active_detections !! device_id) in
  let detection :=
    {| first_detected := first_detected detection;
       last_updated := now;
       positions := positions detection ++ [position];
       detection_type := detection_type detection;
       confidence_scores := confidence_scores detection ++ [confidence];
       alert_triggered := alert_triggered detection |} in
  if should_trigger_alert cfg now detection then
    let r := trigger_device_alert cfg now detection alert_queue in
    (<[device_id := r.1]> active_detections, r.2)
  else (<[device_id := detection]> active_detections, alert_queue).

End Binary64.

(** ** Notions of the design document *)

Module Spec.

Local Open Scope R_scope.

(** The position window and the confidence window of a record have the same
    length. *)
Definition windows_parallel (d : Main.Detection) : Prop :=
  length (Main.positions d) = length (Main.confidence_scores d).

Definition all_parallel (sys : Main.System) : Prop :=
  forall device_id d,
    Main.active_detections sys !! device_id = Some d -> windows_parallel d.

(** A value is a confidence: it lies in the closed interval from 0 to 1. *)
Definition unit_interval (x : R) : Prop := 0 <= x <= 1.

(** [clamp(x, lo, hi)]. *)
Definition clamp (x lo hi : R) : R := Rmax lo (Rmin x hi).

(** The hotspot confidence as the design document words it: the average of
    the clamped temperature term and the clamped size term. *)
Definition hotspot_confidence (avgTemp area : R) : R :=
  (clamp ((avgTemp - 25) / 15) 0 1 + clamp (1 - Rabs (area - 10) / 10) 0 1) / 2.

(** The scanner lines the parser takes: they begin with the tag, have at
    least eight colon-separated fields, the eighth of which reads as an
    integer, and come from a scanner with a known position. *)
Definition accepted (esp32_id : nat) (data_line : string) : Prop :=
  Py.startswith data_line "DEVICE:" = true /\
  exists field,
    Py.split ":" data_line !! 7%nat = Some field /\
    is_Some (Py.int field) /\
    (esp32_id < length RFReceiver.esp32_positions)%nat.

(** The distance [correlate_rf_thermal] computes for a pair. *)
Definition pair_distance (rf_pos : R * R) (hotspot : ThermalDetection.Hotspot) : R :=
  sqrt ((rf_pos.1 - IZR (ThermalDetection.position hotspot).1) ^ 2
        + (rf_pos.2 - IZR (ThermalDetection.position hotspot).2) ^ 2).

(** The correlation it records for a pair. *)
Definition pair_correlation (rf_pos : R * R) (threshold : R)
    (hotspot : ThermalDetection.Hotspot) : Utils.Correlation :=
  {| Utils.rf_position := rf_pos;
     Utils.thermal_position := ThermalDetection.position hotspot;
     Utils.correlation_distance := pair_distance rf_pos hotspot;
     Utils.hotspot_area := ThermalDetection.area hotspot;
     Utils.confidence := 1 - pair_distance rf_pos hotspot / threshold |}.

(** An alert request as the detection tick at time [now] words it. *)
Definition queued_by_tick (cfg : Main.Config) (now : R)
    (alert_data : AlertSystem.Alert_data) : Prop :=
  is_Some (AlertSystem.target_position alert_data) /\
  (AlertSystem.alert_type alert_data = "high_confidence"
   \/ AlertSystem.alert_type alert_data = "device_detected") /\
  AlertSystem.duration alert_data = Main.alert_duration cfg /\
  AlertSystem.timestamp alert_data = now.

(** A record [d'] continues a record [d]: it began at the same time, is of
    the same kind, and is marked as alerted if [d] is. *)
Definition continues (d d' : Main.Detection) : Prop :=
  Main.first_detected d' = Main.first_detected d /\
  Main.detection_type d' = Main.detection_type d /\
  (Main.alert_triggered d = true -> Main.alert_triggered d' = true).

(** The alert dispatcher [alerts'] is [alerts] with the requests [more]
    added at the end of its queue. *)
Definition queue_extended (more : list AlertSystem.Alert_data)
    (alerts alerts' : AlertSystem.State) : Prop :=
  alerts' = AlertSystem.set_queue (AlertSystem.alert_queue alerts ++ more) alerts.

(** A state of the engine follows another one within the tick at time
    [now]: every record is continued, and the alert dispatcher only got
    requests of the tick added to its queue. *)
Definition follows (cfg : Main.Config) (now : R) (sys sys' : Main.System) : Prop :=
  (forall device_id d,
     Main.active_detections sys !! device_id = Some d ->
     exists d',
       Main.active_detections sys' !! device_id = Some d' /\
       continues d d') /\
  exists more,
    queue_extended more (Main.alert_system sys) (Main.alert_system sys') /\
    Forall (queued_by_tick cfg now) more.

(** The clock reading is beyond every position window of the table. *)
Definition beyond_windows (now : R) (sys : Main.System) : Prop :=
  forall device_id d,
    Main.active_detections sys !! device_id = Some d ->
    now - INR (length (Main.positions d) + 1) > 30.



(** Every record marked as alerted in [sys'] was so in [sys]. *)
Definition marks_from (sys sys' : Main.System) : Prop :=
  forall device_id d',
    Main.active_detections sys' !! device_id = Some d' ->
    Main.alert_triggered d' = true ->
    exists d,
      Main.active_detections sys !! device_id = Some d /\
      Main.alert_triggered d = true.

End Spec.

(** ** Concrete inputs used in the examples *)

Module Scenario.

Local Open Scope R_scope.

Definition cfg : Main.Config :=
  {| Main.correlation_threshold := 50;
     Main.confidence_threshold := 0.7;
     Main.min_detection_time := 3;
     Main.alert_duration := 5 |}.

Definition idle_alerts : AlertSystem.State :=
  {| AlertSystem.laser_pin := 11;
     AlertSystem.buzzer_pin := 13;
     AlertSystem.led_pin := 15;
     AlertSystem.alert_active := false;
     AlertSystem.current_target := None;
     AlertSystem.running := true;
     AlertSystem.alert_queue := [];
     AlertSystem.current_x_angle := 90;
     AlertSystem.current_y_angle := 90 |}.

Definition empty_system : Main.System :=
  {| Main.active_detections := ∅; Main.alert_system := idle_alerts |}.

(** Three confidence samples 0.72, 0.74, 0.78 collected since time 0. *)
Definition record_D : Main.Detection :=
  {| Main.first_detected := 0;
     Main.last_updated := 9;
     Main.positions := [(55, 50); (55, 50); (55, 50)];
     Main.detection_type := "rf_only";
     Main.confidence_scores := [0.72; 0.74; 0.78];
     Main.alert_triggered := false |}.

Definition mac : string := "AA:BB:CC:DD:EE:FF".

Definition thermal_cfg : ThermalDetection.Config :=
  {| ThermalDetection.temp_threshold := 30;
     ThermalDetection.hotspot_min_size := 3;
     ThermalDetection.hotspot_max_size := 20 |}.

(** A blob of ten pixels around pixel (16, 12) with a mean temperature of
    22 degrees: the warmest spot of a cool scene. *)
Definition cool_blob : ThermalDetection.Contour :=
  {| ThermalDetection.contourArea := 10;
     ThermalDetection.m00 := 10;
     ThermalDetection.m10 := 160;
     ThermalDetection.m01 := 120;
     ThermalDetection.mean_temp := 22 |}.

Definition cool_frame : ThermalDetection.Frame_data :=
  {| ThermalDetection.contours := [cool_blob];
     ThermalDetection.frame_id := 7;
     ThermalDetection.timestamp := 1000 |}.

(** A device heard once, at time 0, with a stored position estimate. *)
Definition heard_once : RFReceiver.Detection_data :=
  {| RFReceiver.esp32_id := 0;
     RFReceiver.mac_address := mac;
     RFReceiver.rssi := (-45)%Z;
     RFReceiver.device_type := "WiFi";
     RFReceiver.timestamp := 0;
     RFReceiver.position := (0, 0) |}.

Definition silent_device : RFReceiver.Device :=
  {| RFReceiver.first_seen := 0;
     RFReceiver.last_seen := 0;
     RFReceiver.detections := [heard_once];
     RFReceiver.estimated_position := Some (50, 50) |}.

(** An observation of the device by one scanner. *)
Definition heard_by (scanner : nat) (at_position : R * R) (strength : Z)
    (at_time : R) : RFReceiver.Detection_data :=
  {| RFReceiver.esp32_id := scanner;
     RFReceiver.mac_address := mac;
     RFReceiver.rssi := strength;
     RFReceiver.device_type := "WiFi";
     RFReceiver.timestamp := at_time;
     RFReceiver.position := at_position |}.

(** The device heard by scanners 0, 1 and 2 with one signal strength. *)
Definition heard_by_three (strength : Z) : RFReceiver.Device :=
  {| RFReceiver.first_seen := 1;
     RFReceiver.last_seen := 1;
     RFReceiver.detections :=
       [heard_by 0 (0, 0) strength 1; heard_by 1 (100, 0) strength 1;
        heard_by 2 (0, 100) strength 1];
     RFReceiver.estimated_position := None |}.

(** A blob of ten pixels around pixel (16, 12) with a mean temperature of
    35 degrees, in the frame captured at time 999. *)
Definition warm_blob : ThermalDetection.Contour :=
  {| ThermalDetection.contourArea := 10;
     ThermalDetection.m00 := 10;
     ThermalDetection.m10 := 160;
     ThermalDetection.m01 := 120;
     ThermalDetection.mean_temp := 35 |}.

Definition warm_frame : ThermalDetection.Frame_data :=
  {| ThermalDetection.contours := [warm_blob];
     ThermalDetection.frame_id := 8;
     ThermalDetection.timestamp := 999 |}.

(** The RF receiver's table at time 1000: one device, last heard at 999,
    with a position estimate of (20, 15). *)
Definition tracked_device : RFReceiver.Device :=
  {| RFReceiver.first_seen := 990;
     RFReceiver.last_seen := 999;
     RFReceiver.detections :=
       [heard_by 0 (0, 0) (-45) 997; heard_by 1 (100, 0) (-60) 998;
        heard_by 2 (0, 100) (-55) 999];
     RFReceiver.estimated_position := Some (20, 15) |}.

Definition tracked : gmap string RFReceiver.Device :=
  {[ mac := tracked_device ]}.


Definition outputs_high : AlertSystem.GPIO :=
  {[ 11%nat := AlertSystem.HIGH; 13%nat := AlertSystem.HIGH;
     15%nat := AlertSystem.HIGH ]}.

(** The device as [get_estimated_positions] reports it at (20, 15), and its
    correlation with a hotspot at pixel (16, 12), 5 apart, with confidence
    0.9. *)
Definition reported : RFReceiver.Position_data :=
  {| RFReceiver.pos_mac_address := mac;
     RFReceiver.pos_position := (20, 15);
     RFReceiver.pos_confidence := 0.9 |}.

Definition correlation : Utils.Correlation :=
  {| Utils.rf_position := (20, 15);
     Utils.thermal_position := (16, 12)%Z;
     Utils.correlation_distance := 5;
     Utils.hotspot_area := 10;
     Utils.confidence := 0.9 |}.

(** The record of that device at time 999: first detected at 990, two
    correlated samples of confidence 0.9 so far, no alert yet. *)
Definition correlated_twice : Main.Detection :=
  {| Main.first_detected := 990;
     Main.last_updated := 999;
     Main.positions := [(16, 12); (16, 12)];
     Main.detection_type := "rf_thermal_correlation";
     Main.confidence_scores := [0.9; 0.9];
     Main.alert_triggered := false |}.

End Scenario.

(** ** Concrete inputs in binary64 *)

Module Scenario64.

#[local] Set Warnings "-inexact-float".

Import PrimFloat.

Local Open Scope float_scope.

Definition cfg : Binary64.Config :=
  {| Binary64.confidence_threshold := 0.7;
     Binary64.min_detection_time := 3;
     Binary64.alert_duration := 5 |}.

(** Three confidence samples 0.72, 0.74, 0.78 collected since time 0. *)
Definition record_D : Binary64.Detection :=
  {| Binary64.first_detected := 0;
     Binary64.last_updated := 9;
     Binary64.positions :=
       [Binary64.Point 55 50; Binary64.Point 55 50; Binary64.Point 55 50];
     Binary64.detection_type := "rf_only";
     Binary64.confidence_scores := [0.72; 0.74; 0.78];
     Binary64.alert_triggered := false |}.



End Scenario64.

(** * Properties *)

Local Open Scope R_scope.

(** ** Facts about the builtins *)

Lemma py_max_Rmax a b : Py.max a b = Rmax a b.
Proof. unfold Py.max, Rmax. destruct (Rle_dec a b); rdecide. Qed.

Lemma py_min_Rmin a b : Py.min a b = Rmin a b.
Proof. unfold Py.min, Rmin. destruct (Rle_dec a b); rdecide. Qed.

Lemma py_max_l a b : a <= Py.max a b.
Proof. unfold Py.max. rdecide. Qed.

Lemma py_max_r a b : b <= Py.max a b.
Proof. unfold Py.max. rdecide. Qed.

Lemma py_max_lub a b c : a <= c -> b <= c -> Py.max a b <= c.
Proof. unfold Py.max. rdecide. Qed.

Lemma py_min_l a b : Py.min a b <= a.
Proof. unfold Py.min. rdecide. Qed.

Lemma py_min_r a b : Py.min a b <= b.
Proof. unfold Py.min. rdecide. Qed.

Lemma py_min_glb a b c : c <= a -> c <= b -> c <= Py.min a b.
Proof. unfold Py.min. rdecide. Qed.

Lemma py_max_mono a a' b : a <= a' -> Py.max a b <= Py.max a' b.
Proof. unfold Py.max. rdecide. Qed.

Lemma slice_from_neg {A} (n : nat) (l : list A) :
  (0 < n)%nat -> Py.slice_from (- Z.of_nat n) l = drop (length l - n) l.
Proof.
  intros Hn. unfold Py.slice_from. case_decide; [|lia].
  f_equal. lia.
Qed.

Lemma slice_from_neg_zero {A} (l : list A) : Py.slice_from (- 0) l = l.
Proof. reflexivity. Qed.

Lemma slice_from_last_three {A} (older : list A) (a b c : A) :
  Py.slice_from (-3) (older ++ [a; b; c]) = [a; b; c].
Proof.
  change (-3)%Z with (- Z.of_nat 3)%Z. rewrite slice_from_neg by lia.
  rewrite length_app. simpl length.
  replace (length older + 3 - 3)%nat with (length older) by lia.
  by rewrite drop_app_length.
Qed.


Lemma sum_three a b c : Py.sum [a; b; c] = a + b + c.
Proof. unfold Py.sum. simpl. lra. Qed.

(** ** The alert decision *)

Section AlertDecision.

#[local] Set Warnings "-inexact-float".

Import PrimFloat.

Local Open Scope float_scope.

Lemma binary64_sum_three (a b c : float) :
  Binary64.sum [a; b; c] = 0 + a + b + c.
Proof. reflexivity. Qed.





End AlertDecision.

(** ** The windows of a detection record *)

Section DetectionWindows.

Context (cfg : Main.Config) (now : R).

Lemma trigger_device_alert_windows d alerts :
  Main.positions (Main.trigger_device_alert cfg now d alerts).1 = Main.positions d /\
  Main.confidence_scores (Main.trigger_device_alert cfg now d alerts).1
    = Main.confidence_scores d /\
  Main.last_updated (Main.trigger_device_alert cfg now d alerts).1
    = Main.last_updated d.
Proof.
  unfold Main.trigger_device_alert.
  destruct (last (Main.positions d)); simpl; done.
Qed.

Lemma check_alert_lookup device_id d sys :
  exists d',
    Main.active_detections (Main.check_alert cfg now device_id d sys) !! device_id
      = Some d' /\
    Main.positions d' = Main.positions d /\
    Main.confidence_scores d' = Main.confidence_scores d /\
    Main.last_updated d' = Main.last_updated d.
Proof.
  unfold Main.check_alert.
  destruct (Main.should_trigger_alert cfg now d); simpl.
  - eexists. rewrite lookup_insert_eq. split; [done|].
    apply trigger_device_alert_windows.
  - exists d. by rewrite lookup_insert_eq.
Qed.

Lemma check_alert_lookup_ne device_id other d sys :
  device_id <> other ->
  Main.active_detections (Main.check_alert cfg now device_id d sys) !! other
    = Main.active_detections sys !! other.
Proof.
  intros Hne. unfold Main.check_alert.
  destruct (Main.should_trigger_alert cfg now d); simpl;
    by rewrite lookup_insert_ne.
Qed.

Lemma new_detection_parallel kind :
  Spec.windows_parallel (Main.new_detection now kind).
Proof. reflexivity. Qed.

(** The RF-only and the thermal-only update keep the windows parallel. *)
Lemma record_evidence_parallel kind device_id position confidence sys :
  Spec.all_parallel sys ->
  Spec.all_parallel
    (Main.record_evidence cfg now kind device_id position confidence sys).
Proof.
  intros Hsys other d Hd. unfold Main.record_evidence in Hd.
  destruct (decide (device_id = other)) as [<-|Hne].
  - match type of Hd with
    | context [Main.check_alert _ _ _ ?r _] =>
        destruct (check_alert_lookup device_id r sys)
          as (d' & Hd' & Hp & Hc & _)
    end.
    rewrite Hd' in Hd. injection Hd as <-.
    unfold Spec.windows_parallel. rewrite Hp, Hc. simpl.
    rewrite !length_app. simpl. f_equal.
    destruct (Main.active_detections sys !! device_id) as [d0|] eqn:Hd0; simpl.
    + by apply (Hsys device_id).
    + reflexivity.
  - rewrite check_alert_lookup_ne in Hd by done. by apply (Hsys other).
Qed.

Lemma handle_rf_only_detections_parallel rf_positions correlations sys :
  Spec.all_parallel sys ->
  Spec.all_parallel
    (Main.handle_rf_only_detections cfg now rf_positions correlations sys).
Proof.
  unfold Main.handle_rf_only_detections.
  revert sys. induction rf_positions as [|pos_data rest IH]; intros sys Hsys;
    [done|].
  simpl. apply IH. repeat case_decide; try done.
  by apply record_evidence_parallel.
Qed.

Lemma handle_thermal_only_detections_parallel hotspots correlations sys :
  Spec.all_parallel sys ->
  Spec.all_parallel
    (Main.handle_thermal_only_detections cfg now hotspots correlations sys).
Proof.
  unfold Main.handle_thermal_only_detections.
  revert sys. induction hotspots as [|hotspot rest IH]; intros sys Hsys;
    [done|].
  simpl. apply IH. repeat case_decide; try done.
  by apply record_evidence_parallel.
Qed.

(** With a clock reading above [30 + n], the comprehension of
    [handle_correlation] keeps none of [n] positions. *)
Lemma recent_positions_nil positions :
  now - INR (length positions) > 30 ->
  Main.recent_positions now positions = [].
Proof.
  intros Hnow. unfold Main.recent_positions.
  destruct (filter _ _) as [|ip kept] eqn:Hkept; [done|].
  assert (Hin : ip ∈ filter
            (fun ip : nat * (R * R) => now - INR (length positions - ip.1) <= 30)
            (imap pair positions)) by (rewrite Hkept; left).
  apply list_elem_of_filter in Hin as [Hle _].
  assert (INR (length positions - ip.1) <= INR (length positions))
    by (apply le_INR; lia).
  lra.
Qed.

(** The correlated update on such a clock: the positions are dropped and
    the confidence scores are all kept. *)
Lemma handle_correlation_windows correlation rf_positions rf_device sys :
  head (filter (fun pos_data =>
                  RFReceiver.pos_position pos_data = Utils.rf_position correlation)
               rf_positions) = Some rf_device ->
  Utils.confidence correlation >= Main.confidence_threshold cfg ->
  let device_id := RFReceiver.pos_mac_address rf_device in
  let before :=
    default (Main.new_detection now "rf_thermal_correlation")
            (Main.active_detections sys !! device_id) in
  now - INR (length (Main.positions before) + 1) > 30 ->
  exists d,
    Main.active_detections
      (Main.handle_correlation cfg now correlation rf_positions sys) !! device_id
      = Some d /\
    Main.positions d = [] /\
    Main.confidence_scores d
      = Main.confidence_scores before ++ [Utils.confidence correlation] /\
    Main.last_updated d = now.
Proof.
  intros Hdev Hconf device_id before Hnow.
  unfold Main.handle_correlation. rewrite Hdev.
  rewrite decide_True by done.
  fold device_id. fold before.
  rewrite recent_positions_nil
    by (rewrite length_app, Nat.add_comm; simpl length; rewrite Nat.add_comm; done).
  match goal with
  | |- context [Main.check_alert _ _ _ ?r _] =>
      destruct (check_alert_lookup device_id r sys) as (d' & Hd' & Hp & Hc & Hu)
  end.
  exists d'. split; [done|]. split; [done|]. split; [|done].
  rewrite Hc. simpl. apply slice_from_neg_zero.
Qed.

(** A handler for uncorrelated evidence does nothing when every position it
    is given is correlated. *)
Lemma handle_rf_only_detections_correlated rf_positions correlations sys :
  (forall pos_data,
     pos_data ∈ rf_positions ->
     RFReceiver.pos_position pos_data ∈ Utils.rf_position <$> correlations) ->
  Main.handle_rf_only_detections cfg now rf_positions correlations sys = sys.
Proof.
  unfold Main.handle_rf_only_detections.
  revert sys. induction rf_positions as [|pos_data rest IH]; intros sys Hall;
    [done|].
  simpl. rewrite decide_False by (intros Hnot; apply Hnot, Hall; left).
  apply IH. intros ? ?. apply Hall. by right.
Qed.

Lemma handle_thermal_only_detections_correlated hotspots correlations sys :
  (forall hotspot,
     hotspot ∈ hotspots ->
     ThermalDetection.position hotspot
       ∈ Utils.thermal_position <$> correlations) ->
  Main.handle_thermal_only_detections cfg now hotspots correlations sys = sys.
Proof.
  unfold Main.handle_thermal_only_detections.
  revert sys. induction hotspots as [|hotspot rest IH]; intros sys Hall;
    [done|].
  simpl. rewrite decide_False by (intros Hnot; apply Hnot, Hall; left).
  apply IH. intros ? ?. apply Hall. by right.
Qed.

End DetectionWindows.

(** ** RSSI to distance *)

Lemma rssi_to_distance_nonzero_eq (rssi : Z) :
  rssi <> 0%Z ->
  RFReceiver._rssi_to_distance rssi
    = Py.max (Rpower 10 ((-30 - IZR rssi) / (10 * 2))) 0.1.
Proof.
  intros Hnz. unfold RFReceiver._rssi_to_distance. by rewrite decide_False.
Qed.

(** At the reference strength of -30 dBm the estimate is one metre, and
    20 dB less is ten times as far. *)
Example rssi_to_distance_reference :
  RFReceiver._rssi_to_distance (-30) = 1 /\
  RFReceiver._rssi_to_distance (-50) = 10.
Proof.
  rewrite !rssi_to_distance_nonzero_eq by lia. split.
  - replace ((-30 - -30) / (10 * 2)) with 0 by lra.
    rewrite Rpower_O by lra. unfold Py.max. rdecide.
  - replace ((-30 - -50) / (10 * 2)) with 1 by lra.
    rewrite Rpower_1 by lra. unfold Py.max. rdecide.
Qed.

Lemma rssi_to_distance_floor (rssi : Z) :
  rssi <> 0%Z -> RFReceiver._rssi_to_distance rssi >= 0.1.
Proof.
  intros Hnz. rewrite rssi_to_distance_nonzero_eq by done.
  apply Rle_ge, py_max_r.
Qed.

Lemma rssi_to_distance_antitone (r1 r2 : Z) :
  r1 <> 0%Z -> r2 <> 0%Z -> (r1 < r2)%Z ->
  RFReceiver._rssi_to_distance r1 >= RFReceiver._rssi_to_distance r2.
Proof.
  intros H1 H2 Hlt.
  rewrite !rssi_to_distance_nonzero_eq by done.
  apply Rle_ge, py_max_mono, Rle_Rpower; [lra|].
  apply IZR_lt in Hlt. lra.
Qed.

(** C3 (as amended).  Over the non-zero RSSI values [_rssi_to_distance] is
    non-increasing and at least 0.1; at RSSI 0 it returns -1. *)
Theorem rssi_to_distance_monotone_nonzero :
  (forall r1 r2 : Z,
     r1 <> 0%Z -> r2 <> 0%Z -> (r1 < r2)%Z ->
     RFReceiver._rssi_to_distance r1 >= RFReceiver._rssi_to_distance r2) /\
  (forall rssi : Z,
     rssi <> 0%Z -> RFReceiver._rssi_to_distance rssi >= 0.1) /\
  RFReceiver._rssi_to_distance 0 = -1.
Proof.
  split; [|split].
  - apply rssi_to_distance_antitone.
  - apply rssi_to_distance_floor.
  - reflexivity.
Qed.

Lemma rssi_to_distance_monotone_example :
  RFReceiver._rssi_to_distance (-60) >= RFReceiver._rssi_to_distance (-40).
Proof.
  apply (proj1 rssi_to_distance_monotone_nonzero); lia.
Defined.

(** C3 as stated fails at RSSI 0: the value there is below 0.1 and below the
    value at the larger RSSI 1. *)
Lemma rssi_to_distance_zero_counterexample :
  (0 < 1)%Z /\
  ~ RFReceiver._rssi_to_distance 0 >= RFReceiver._rssi_to_distance 1 /\
  ~ RFReceiver._rssi_to_distance 0 >= 0.1.
Proof.
  split; [lia|].
  assert (H0 : RFReceiver._rssi_to_distance 0 = -1) by reflexivity.
  pose proof (rssi_to_distance_floor 1) as H1.
  rewrite H0. split; [|lra].
  intros Hge. assert (RFReceiver._rssi_to_distance 1 >= 0.1) by (apply H1; lia).
  lra.
Qed.

(** ** Trilateration *)

Lemma py_div_Some a b : b <> 0 -> Py.div a b = Some (a / b).
Proof. intros Hb. unfold Py.div. by rewrite decide_False. Qed.

Lemma py_div_None a b : Py.div a b = None <-> b = 0.
Proof. unfold Py.div. case_decide; naive_solver. Qed.

(** Fewer than three distances or positions give no estimate. *)
Lemma trilaterate_short distances positions :
  (length distances < 3)%nat \/ (length positions < 3)%nat ->
  Utils.trilaterate distances positions = None.
Proof.
  intros Hshort. unfold Utils.trilaterate.
  destruct Hshort.
  - by rewrite bool_decide_eq_true_2.
  - rewrite (bool_decide_eq_true_2 (length positions < 3)%nat) by done.
    by rewrite orb_true_r.
Qed.

(** C4.  On at least three scanner positions and distances [trilaterate]
    returns the closed-form solution of the linearised circle equations of
    the first three whenever the denominator [E*A - B*D] is not zero, and no
    estimate exactly when it is zero; for scanners at (0,0), (100,0),
    (0,100) and three distances of 70.7 the estimate is (50,50). *)
Theorem trilaterate_closed_form :
  (forall (x1 y1 x2 y2 x3 y3 r1 r2 r3 : R) (ps : list (R * R)) (rs : list R),
     let A := 2 * (x2 - x1) in
     let B := 2 * (y2 - y1) in
     let C := r1^2 - r2^2 - x1^2 + x2^2 - y1^2 + y2^2 in
     let D := 2 * (x3 - x2) in
     let E := 2 * (y3 - y2) in
     let F := r2^2 - r3^2 - x2^2 + x3^2 - y2^2 + y3^2 in
     let estimate :=
       Utils.trilaterate (r1 :: r2 :: r3 :: rs)
         ((x1, y1) :: (x2, y2) :: (x3, y3) :: ps) in
     (E * A - B * D <> 0 ->
      estimate = Some ((C * E - F * B) / (E * A - B * D),
                       (A * F - D * C) / (A * E - B * D))) /\
     (estimate = None <-> E * A - B * D = 0)) /\
  Utils.trilaterate [70.7; 70.7; 70.7] [(0, 0); (100, 0); (0, 100)]
    = Some (50, 50).
Proof.
  split.
  - intros x1 y1 x2 y2 x3 y3 r1 r2 r3 ps rs A B C D E F estimate.
    assert (Hden : A * E - B * D = E * A - B * D) by lra.
    subst estimate. unfold Utils.trilaterate.
    rewrite !bool_decide_eq_false_2 by (simpl; lia). simpl orb. cbv iota.
    fold A B C D E F. split.
    + intros Hnz. rewrite !py_div_Some by (rewrite ?Hden; done). done.
    + destruct (decide (E * A - B * D = 0)) as [Hz|Hnz].
      * split; [done|]. intros _.
        by rewrite (proj2 (py_div_None _ _) Hz).
      * rewrite !py_div_Some by (rewrite ?Hden; done). simpl. naive_solver.
  - unfold Utils.trilaterate.
    rewrite !bool_decide_eq_false_2 by (simpl; lia). simpl orb. cbv iota.
    rewrite !py_div_Some by lra. simpl. f_equal. f_equal; field.
Qed.

(** ** Position estimates of the RF receiver *)

Lemma trilaterate_equidistant :
  Utils.trilaterate [60; 60; 60; 90] [(0, 0); (100, 0); (0, 100); (100, 100)]
  = Some (50, 50).
Proof.
  destruct (proj1 trilaterate_closed_form 0 0 100 0 0 100 60 60 60
              [(100, 100)] [90]) as [Hsolve _].
  rewrite Hsolve by lra. f_equal. f_equal; field.
Defined.

Lemma trilaterate_three_equidistant (r : R) :
  Utils.trilaterate [r; r; r] [(0, 0); (100, 0); (0, 100)] = Some (50, 50).
Proof.
  unfold Utils.trilaterate.
  rewrite !bool_decide_eq_false_2 by (simpl; lia). simpl orb. cbv iota.
  rewrite !py_div_Some by lra. simpl. f_equal. f_equal; field.
Qed.

(** A device heard equally strongly by the scanners at (0,0), (100,0) and
    (0,100) is placed at (50,50). *)
Example estimate_device_position_three_scanners (strength : Z) :
  exists device,
    RFReceiver._estimate_device_position Scenario.mac
      {[ Scenario.mac := Scenario.heard_by_three strength ]} !! Scenario.mac
      = Some device /\
    RFReceiver.estimated_position device = Some (50, 50).
Proof.
  unfold RFReceiver._estimate_device_position.
  rewrite lookup_singleton_eq.
  set (esp32_rssi := RFReceiver.strongest_per_esp32 _).
  assert (Hsize : size esp32_rssi = 3%nat) by reflexivity.
  assert (Hchosen :
      omap (fun id => esp32_rssi !! id)
           (merge_sort Nat.le (elements (dom esp32_rssi)))
      = RFReceiver.detections (Scenario.heard_by_three strength))
    by reflexivity.
  rewrite decide_True by (rewrite Hsize; lia).
  rewrite Hchosen. simpl fmap.
  change (RFReceiver.rssi (Scenario.heard_by _ _ strength _)) with strength.
  change (RFReceiver.position (Scenario.heard_by _ ?p _ _)) with p.
  rewrite trilaterate_three_equidistant.
  eexists. rewrite lookup_insert_eq. done.
Qed.

(** ** Thermal hotspots *)

Lemma insert_by_confidence_perm h l :
  ThermalDetection.insert_by_confidence h l ≡ₚ h :: l.
Proof.
  induction l as [|x l IH]; simpl; [done|].
  case_decide; [|done].
  rewrite IH. apply Permutation_swap.
Qed.

Lemma sort_by_confidence_perm l : ThermalDetection.sort_by_confidence l ≡ₚ l.
Proof.
  unfold ThermalDetection.sort_by_confidence.
  enough (Hgen : forall acc,
             foldl (fun acc h => ThermalDetection.insert_by_confidence h acc) acc l
               ≡ₚ l ++ acc)
    by (rewrite Hgen; by rewrite app_nil_r).
  induction l as [|h l IH]; intros acc; simpl; [done|].
  rewrite IH, insert_by_confidence_perm. by rewrite Permutation_middle.
Qed.

(** The hotspots reported for a frame are those of the contours that pass
    the size filter and the moment guard. *)
Lemma elem_of_detect_hotspots cfg fd h :
  h ∈ ThermalDetection.detect_hotspots cfg (Some fd) <->
  exists contour,
    contour ∈ ThermalDetection.contours fd /\
    ThermalDetection.size_ok cfg contour /\
    ThermalDetection.m00 contour <> 0 /\
    h = ThermalDetection.hotspot_of_contour fd contour.
Proof.
  unfold ThermalDetection.detect_hotspots.
  rewrite sort_by_confidence_perm, list_elem_of_omap.
  split.
  - intros (contour & Hin & Hsome). exists contour.
    repeat case_decide; naive_solver.
  - intros (contour & Hin & Hsize & Hm & ->). exists contour.
    split; [done|]. by rewrite !decide_True.
Qed.

Lemma detect_hotspots_no_frame cfg : ThermalDetection.detect_hotspots cfg None = [].
Proof. reflexivity. Qed.

Lemma hotspot_of_contour_confidence fd contour :
  ThermalDetection.confidence (ThermalDetection.hotspot_of_contour fd contour)
  = Rmax 0.1
      ((Rmin ((ThermalDetection.mean_temp contour - 25) / 15) 1
        + (1 - Rabs (ThermalDetection.contourArea contour - 10) / 10)) / 2).
Proof. simpl. by rewrite py_max_Rmax, py_min_Rmin. Qed.

Lemma clamp_id x lo hi : lo <= x <= hi -> Spec.clamp x lo hi = x.
Proof.
  intros [Hlo Hhi]. unfold Spec.clamp.
  rewrite Rmin_left by done. by rewrite Rmax_right.
Qed.

Lemma clamp_bounds x lo hi : lo <= hi -> lo <= Spec.clamp x lo hi <= hi.
Proof.
  intros Hle. unfold Spec.clamp. split.
  - apply Rmax_l.
  - apply Rmax_lub; [done|apply Rmin_r].
Qed.

Lemma hotspot_confidence_bounds fd contour :
  0.1 <= ThermalDetection.confidence (ThermalDetection.hotspot_of_contour fd contour)
      <= 1.
Proof.
  rewrite hotspot_of_contour_confidence. split; [apply Rmax_l|].
  apply Rmax_lub; [lra|].
  pose proof (Rmin_r ((ThermalDetection.mean_temp contour - 25) / 15) 1).
  pose proof (Rabs_pos (ThermalDetection.contourArea contour - 10)).
  lra.
Qed.

(** C5 (as amended).  The hotspots [detect_hotspots] reports are those of
    the blobs that pass the size filter (and have a non-zero moment), and
    the confidence of each is the larger of 0.1 and the average of the
    temperature term [min((avgTemp - 25) / 15, 1)] and the size term
    [1 - |area - 10| / 10].  It is the average of the two clamped terms of
    the design document when [avgTemp >= 25], [0 <= area <= 20] and that
    average is at least 0.1. *)
Theorem detect_hotspots_confidence (cfg : ThermalDetection.Config)
    (fd : ThermalDetection.Frame_data) :
  (forall contour,
     contour ∈ ThermalDetection.contours fd ->
     ThermalDetection.size_ok cfg contour ->
     ThermalDetection.m00 contour <> 0 ->
     ThermalDetection.hotspot_of_contour fd contour
       ∈ ThermalDetection.detect_hotspots cfg (Some fd)) /\
  (forall h,
     h ∈ ThermalDetection.detect_hotspots cfg (Some fd) ->
     exists contour,
       contour ∈ ThermalDetection.contours fd /\
       ThermalDetection.size_ok cfg contour /\
       h = ThermalDetection.hotspot_of_contour fd contour /\
       let avgTemp := ThermalDetection.mean_temp contour in
       let area := ThermalDetection.contourArea contour in
       ThermalDetection.avg_temp h = avgTemp /\
       ThermalDetection.area h = area /\
       ThermalDetection.confidence h
         = Rmax 0.1 ((Rmin ((avgTemp - 25) / 15) 1
                      + (1 - Rabs (area - 10) / 10)) / 2) /\
       (25 <= avgTemp -> 0 <= area <= 20 ->
        0.1 <= Spec.hotspot_confidence avgTemp area ->
        ThermalDetection.confidence h = Spec.hotspot_confidence avgTemp area)).
Proof.
  split.
  - intros contour Hin Hsize Hm. apply elem_of_detect_hotspots. eauto.
  - intros h (contour & Hin & Hsize & Hm & ->)%elem_of_detect_hotspots.
    exists contour. repeat (split; [done|]).
    split; [apply hotspot_of_contour_confidence|].
    intros Htemp Harea Hfloor. rewrite hotspot_of_contour_confidence.
    unfold Spec.hotspot_confidence in *.
    set (t := (ThermalDetection.mean_temp contour - 25) / 15) in *.
    set (a := 1 - Rabs (ThermalDetection.contourArea contour - 10) / 10) in *.
    assert (Ht : 0 <= t) by (unfold t; lra).
    assert (Ha : 0 <= a <= 1).
    { unfold a. pose proof (Rabs_pos (ThermalDetection.contourArea contour - 10)).
      assert (Rabs (ThermalDetection.contourArea contour - 10) <= 10)
        by (apply Rabs_le; lra).
      lra. }
    rewrite (clamp_id a) in * by done.
    assert (Hclamp : Spec.clamp t 0 1 = Rmin t 1).
    { unfold Spec.clamp. apply Rmax_right. apply Rmin_glb; lra. }
    rewrite Hclamp in *. by apply Rmax_right.
Qed.

Lemma detect_hotspots_confidence_example :
  ThermalDetection.hotspot_of_contour Scenario.cool_frame Scenario.cool_blob
    ∈ ThermalDetection.detect_hotspots Scenario.thermal_cfg
        (Some Scenario.cool_frame).
Proof.
  apply (proj1 (detect_hotspots_confidence Scenario.thermal_cfg Scenario.cool_frame)).
  - left.
  - unfold ThermalDetection.size_ok. simpl. lra.
  - simpl. lra.
Defined.

(** C5 as stated fails on a blob of mean temperature 22 and area 10: it
    passes the size filter and is reported with confidence 0.4, while the
    average of the clamped terms is 0.5. *)
Lemma hotspot_confidence_counterexample :
  exists h,
    h ∈ ThermalDetection.detect_hotspots Scenario.thermal_cfg
          (Some Scenario.cool_frame) /\
    ThermalDetection.avg_temp h = 22 /\
    ThermalDetection.area h = 10 /\
    ThermalDetection.confidence h = 0.4 /\
    Spec.hotspot_confidence 22 10 = 0.5.
Proof.
  exists (ThermalDetection.hotspot_of_contour Scenario.cool_frame Scenario.cool_blob).
  split.
  { apply elem_of_detect_hotspots. exists Scenario.cool_blob.
    split; [left|]. split; [unfold ThermalDetection.size_ok; simpl; lra|].
    split; [simpl; lra|done]. }
  split; [done|]. split; [done|].
  assert (Habs : Rabs (10 - 10) = 0) by (rewrite Rminus_diag; apply Rabs_R0).
  split.
  - rewrite hotspot_of_contour_confidence. simpl. rewrite Habs.
    rewrite Rmin_left by lra. rewrite Rmax_right by lra. lra.
  - unfold Spec.hotspot_confidence, Spec.clamp. rewrite Habs.
    rewrite (Rmin_left ((22 - 25) / 15)) by lra.
    rewrite (Rmax_left 0 ((22 - 25) / 15)) by lra.
    rewrite (Rmin_right (1 - 0 / 10)) by lra.
    rewrite (Rmax_right 0 1) by lra. lra.
Qed.

(** ** Confidence values *)

Lemma unit_interval_scale x k :
  Spec.unit_interval x -> 0 <= k <= 1 -> Spec.unit_interval (x * k).
Proof. unfold Spec.unit_interval. intros [? ?] [? ?]. split; nra. Qed.

Lemma detect_hotspots_unit cfg frame h :
  h ∈ ThermalDetection.detect_hotspots cfg frame ->
  Spec.unit_interval (ThermalDetection.confidence h).
Proof.
  destruct frame as [fd|]; [|by intros ?%elem_of_nil].
  intros (contour & _ & _ & _ & ->)%elem_of_detect_hotspots.
  pose proof (hotspot_confidence_bounds fd contour).
  unfold Spec.unit_interval. lra.
Qed.

Lemma position_confidence_unit device :
  Spec.unit_interval (RFReceiver._calculate_position_confidence device).
Proof.
  unfold RFReceiver._calculate_position_confidence, Spec.unit_interval.
  destruct (RFReceiver.detections device) as [|d ds] eqn:Hds; [lra|].
  set (unique := size _). set (avg := IZR _ / INR _).
  pose proof (pos_INR unique) as Hu.
  pose proof (py_min_r (INR unique / 4) 1) as Hb1.
  assert (Hb0 : 0 <= Py.min (INR unique / 4) 1) by (apply py_min_glb; lra).
  pose proof (py_max_l 0.1 (Py.min 1 ((avg + 100) / 50))) as Hf0.
  assert (Hf1 : Py.max 0.1 (Py.min 1 ((avg + 100) / 50)) <= 1)
    by (apply py_max_lub; [lra|apply py_min_l]).
  split; nra.
Qed.

Lemma correlate_pair_unit rf_pos threshold hotspot cs c :
  Utils.correlate_pair rf_pos threshold hotspot = Some cs ->
  c ∈ cs ->
  Spec.unit_interval (Utils.confidence c).
Proof.
  unfold Utils.correlate_pair, Py.div.
  set (distance := sqrt _).
  pose proof (sqrt_pos
    ((rf_pos.1 - IZR (ThermalDetection.position hotspot).1) ^ 2
     + (rf_pos.2 - IZR (ThermalDetection.position hotspot).2) ^ 2)) as Hpos.
  fold distance in Hpos.
  destruct (decide (distance <= threshold)) as [Hle|Hgt];
    [|by intros [= <-] ?%elem_of_nil].
  destruct (decide (threshold = 0)) as [Hz|Hnz]; [done|].
  simpl. intros [= <-] ->%list_elem_of_singleton. simpl.
  assert (Hthr : 0 < threshold) by lra.
  assert (Hq : distance / threshold * threshold = distance) by (field; lra).
  unfold Spec.unit_interval. split; nra.
Qed.

Lemma elem_of_mapM_mjoin {A B} (f : A -> option (list B))
    (l : list A) (ks : list (list B)) (y : B) :
  mapM f l = Some ks -> y ∈ mjoin ks ->
  exists x k, x ∈ l /\ f x = Some k /\ y ∈ k.
Proof.
  intros Hmap (k & Hy & Hk)%list_elem_of_join.
  apply mapM_Some_1 in Hmap.
  apply list_elem_of_lookup in Hk as [i Hi].
  destruct (Forall2_lookup_r _ _ _ _ _ Hmap Hi) as (x & Hx & Hfx).
  exists x, k. split; [by eapply list_elem_of_lookup_2|done].
Qed.

Lemma correlate_rf_thermal_unit rf_positions hotspots threshold correlations c :
  Utils.correlate_rf_thermal rf_positions hotspots threshold = Some correlations ->
  c ∈ correlations ->
  Spec.unit_interval (Utils.confidence c).
Proof.
  unfold Utils.correlate_rf_thermal.
  intros (ks & Hks & ->)%fmap_Some Hc.
  destruct (elem_of_mapM_mjoin _ _ _ _ Hks Hc) as ([rf_pos|] & k & _ & Hk & Hck).
  - apply fmap_Some in Hk as (ks' & Hks' & ->).
    destruct (elem_of_mapM_mjoin _ _ _ _ Hks' Hck) as (hotspot & k' & _ & Hk' & Hck').
    by eapply correlate_pair_unit.
  - injection Hk as <-. by apply elem_of_nil in Hck.
Qed.

Lemma elem_of_get_estimated_positions now devices pos_data :
  pos_data ∈ RFReceiver.get_estimated_positions now devices <->
  exists device,
    devices !! RFReceiver.pos_mac_address pos_data = Some device /\
    now - RFReceiver.last_seen device <= 10 /\
    RFReceiver.estimated_position device = Some (RFReceiver.pos_position pos_data) /\
    RFReceiver.pos_confidence pos_data
      = RFReceiver._calculate_position_confidence device.
Proof.
  unfold RFReceiver.get_estimated_positions, RFReceiver.get_detected_devices.
  rewrite list_elem_of_omap. split.
  - intros ([mac device] & Hin & Hsome).
    apply elem_of_map_to_list, map_lookup_filter_Some in Hin as [Hlook Hrecent].
    simpl in *. destruct (RFReceiver.estimated_position device) as [p|] eqn:Hp;
      [|done].
    injection Hsome as <-. simpl. eauto.
  - intros (device & Hlook & Hrecent & Hp & Hconf).
    exists (RFReceiver.pos_mac_address pos_data, device). split.
    + apply elem_of_map_to_list, map_lookup_filter_Some. done.
    + simpl. rewrite Hp, <- Hconf. by destruct pos_data.
Qed.

(** C6.  Every confidence a component produces lies between 0 and 1: the
    confidence of a hotspot [detect_hotspots] reports, the position
    confidence of the RF receiver, the confidence of a correlation
    [correlate_rf_thermal] returns, and the scaled confidences the RF-only
    (0.7) and thermal-only (0.6) handlers work with. *)
Theorem confidence_in_unit_interval :
  (forall cfg frame h,
     h ∈ ThermalDetection.detect_hotspots cfg frame ->
     Spec.unit_interval (ThermalDetection.confidence h)) /\
  (forall device,
     Spec.unit_interval (RFReceiver._calculate_position_confidence device)) /\
  (forall rf_positions hotspots threshold correlations c,
     Utils.correlate_rf_thermal rf_positions hotspots threshold
       = Some correlations ->
     c ∈ correlations ->
     Spec.unit_interval (Utils.confidence c)) /\
  (forall now devices pos_data,
     pos_data ∈ RFReceiver.get_estimated_positions now devices ->
     Spec.unit_interval (RFReceiver.pos_confidence pos_data) /\
     Spec.unit_interval (Main.rf_only_confidence pos_data)) /\
  (forall cfg frame h,
     h ∈ ThermalDetection.detect_hotspots cfg frame ->
     Spec.unit_interval (Main.thermal_only_confidence h)).
Proof.
  split; [apply detect_hotspots_unit|].
  split; [apply position_confidence_unit|].
  split; [apply correlate_rf_thermal_unit|].
  split.
  - intros now devices pos_data
      (device & _ & _ & _ & Hconf)%elem_of_get_estimated_positions.
    assert (Spec.unit_interval (RFReceiver.pos_confidence pos_data))
      by (rewrite Hconf; apply position_confidence_unit).
    split; [done|]. apply unit_interval_scale; [done|lra].
  - intros cfg frame h Hh. apply unit_interval_scale; [|lra].
    by eapply detect_hotspots_unit.
Qed.

Lemma cool_blob_confidence_in_unit_interval :
  Spec.unit_interval
    (ThermalDetection.confidence
       (ThermalDetection.hotspot_of_contour Scenario.cool_frame
          Scenario.cool_blob)).
Proof.
  apply (proj1 confidence_in_unit_interval Scenario.thermal_cfg
           (Some Scenario.cool_frame)).
  apply elem_of_detect_hotspots. exists Scenario.cool_blob.
  split; [left|]. split; [unfold ThermalDetection.size_ok; simpl; lra|].
  split; [simpl; lra|done].
Defined.

(** Scenario C of the design document: an RF position at (50, 50) and a
    hotspot at (55, 50) with threshold 50 correlate with confidence 0.9. *)
Example correlate_scenario_C (hotspot : ThermalDetection.Hotspot) :
  ThermalDetection.position hotspot = (55, 50)%Z ->
  exists c,
    Utils.correlate_rf_thermal [Some (50, 50)] [hotspot] 50 = Some [c] /\
    Utils.rf_position c = (50, 50) /\
    Utils.thermal_position c = (55, 50)%Z /\
    Utils.correlation_distance c = 5 /\
    Utils.confidence c = 0.9.
Proof.
  intros Hpos.
  assert (Hdist : sqrt ((50 - IZR 55) ^ 2 + (50 - IZR 50) ^ 2) = 5).
  { replace ((50 - IZR 55) ^ 2 + (50 - IZR 50) ^ 2) with (5 * 5) by (simpl; lra).
    apply sqrt_square. lra. }
  unfold Utils.correlate_rf_thermal. simpl.
  unfold Utils.correlate_pair, Py.div. rewrite Hpos. simpl fst. simpl snd.
  rewrite Hdist. rewrite decide_True by lra. rewrite decide_False by lra.
  simpl. eexists. split; [reflexivity|]. simpl.
  repeat split; try done. lra.
Qed.

(** ** Expiry of detection records *)

Lemma elem_of_expired_detections now (active : gmap string Main.Detection) id :
  id ∈ Main.expired_detections now active <->
  exists d, active !! id = Some d /\ now - Main.last_updated d > 30.
Proof.
  unfold Main.expired_detections. rewrite list_elem_of_omap. split.
  - intros ([id' d] & Hin%elem_of_map_to_list & Hsome). simpl in *.
    case_decide; [|done]. injection Hsome as ->. eauto.
  - intros (d & Hd & Hold). exists (id, d).
    split; [by apply elem_of_map_to_list|]. simpl. by rewrite decide_True.
Qed.

Lemma lookup_foldl_delete {A} (ids : list string) (m : gmap string A) id :
  foldl (fun m i => delete i m) m ids !! id
  = if decide (id ∈ ids) then None else m !! id.
Proof.
  revert m. induction ids as [|i ids IH]; intros m.
  - by rewrite decide_False by apply not_elem_of_nil.
  - change (foldl (fun m i => delete i m) (delete i m) ids !! id
            = if decide (id ∈ i :: ids) then None else m !! id).
    rewrite IH. destruct (decide (id = i)) as [->|Hne].
    + rewrite lookup_delete_eq.
      rewrite (decide_True (P := i ∈ i :: ids)) by left.
      by case_decide.
    + rewrite lookup_delete_ne by done.
      destruct (decide (id ∈ ids)) as [Hin|Hnin].
      * by rewrite decide_True by (by right).
      * rewrite decide_False; [done|]. by intros [?|?]%elem_of_cons.
Qed.

Lemma lookup_cleanup_old_detections now (active : gmap string Main.Detection) id :
  Main.cleanup_old_detections now active !! id
  = match active !! id with
    | Some d => if decide (now - Main.last_updated d > 30) then None else Some d
    | None => None
    end.
Proof.
  unfold Main.cleanup_old_detections. rewrite lookup_foldl_delete.
  destruct (active !! id) as [d|] eqn:Hd.
  - destruct (decide (now - Main.last_updated d > 30)) as [Hold|Hyoung].
    + rewrite decide_True; [done|]. apply elem_of_expired_detections. eauto.
    + rewrite decide_False; [done|].
      intros (d' & Hd' & Hold)%elem_of_expired_detections.
      by simplify_eq.
  - by case_decide.
Qed.

(** C7.  The sweep removes a record exactly when more than 30 seconds have
    passed since [last_updated]: a record that is 30 seconds old or younger
    stays as it is, an older one goes, whatever its [alert_triggered]. *)
Theorem cleanup_old_detections_spec (now : R)
    (active : gmap string Main.Detection) (device_id : string)
    (d : Main.Detection) :
  active !! device_id = Some d ->
  (Main.cleanup_old_detections now active !! device_id = None <->
   now - Main.last_updated d > 30) /\
  (now - Main.last_updated d <= 30 ->
   Main.cleanup_old_detections now active !! device_id = Some d) /\
  (now - Main.last_updated d > 30 -> Main.alert_triggered d = true ->
   Main.cleanup_old_detections now active !! device_id = None).
Proof.
  intros Hd. rewrite lookup_cleanup_old_detections, Hd.
  case_decide; repeat split; try done; try lra; intros; lra.
Qed.

Lemma cleanup_old_detections_example :
  Main.cleanup_old_detections 40
    {[ Scenario.mac := Scenario.record_D ]} !! Scenario.mac = None /\
  Main.cleanup_old_detections 39
    {[ Scenario.mac := Scenario.record_D ]} !! Scenario.mac
    = Some Scenario.record_D.
Proof.
  split.
  - refine (proj2 (proj1 (cleanup_old_detections_spec 40 _ Scenario.mac
                     Scenario.record_D _)) _).
    + apply lookup_singleton_eq.
    + simpl. lra.
  - refine (proj1 (proj2 (cleanup_old_detections_spec 39 _ Scenario.mac
                     Scenario.record_D _)) _).
    + apply lookup_singleton_eq.
    + simpl. lra.
Defined.

(** The sweep creates nothing. *)
Lemma cleanup_old_detections_absent now (active : gmap string Main.Detection) id :
  active !! id = None -> Main.cleanup_old_detections now active !! id = None.
Proof. intros Hd. by rewrite lookup_cleanup_old_detections, Hd. Qed.

(** ** Devices the RF receiver reports *)

Lemma estimate_device_position_lookup mac
    (devices : gmap string RFReceiver.Device) device :
  devices !! mac = Some device ->
  exists device',
    RFReceiver._estimate_device_position mac devices !! mac = Some device' /\
    RFReceiver.first_seen device' = RFReceiver.first_seen device /\
    RFReceiver.last_seen device' = RFReceiver.last_seen device /\
    RFReceiver.detections device' = RFReceiver.detections device.
Proof.
  intros Hd. unfold RFReceiver._estimate_device_position. rewrite Hd.
  case_decide; [|by eauto].
  destruct (Utils.trilaterate _ _); [|by eauto].
  eexists. by rewrite lookup_insert_eq.
Qed.

(** After an observation is recorded, the device's [last_seen] is the time
    of that observation, the observation closes the window, and the window
    holds the observations of the last 30 seconds. *)
Lemma update_device_tracking_lookup detection
    (devices : gmap string RFReceiver.Device) :
  let ts := RFReceiver.timestamp detection in
  let earlier :=
    from_option RFReceiver.detections []
      (devices !! RFReceiver.mac_address detection) in
  exists device,
    RFReceiver._update_device_tracking detection devices
      !! RFReceiver.mac_address detection = Some device /\
    RFReceiver.last_seen device = ts /\
    RFReceiver.detections device
      = filter (fun d => RFReceiver.timestamp d > ts - 30) earlier ++ [detection].
Proof.
  intros ts earlier. unfold RFReceiver._update_device_tracking.
  match goal with
  | |- context [RFReceiver._estimate_device_position ?mac (<[_ := ?dev]> ?m)] =>
      destruct (estimate_device_position_lookup mac (<[mac := dev]> m) dev)
        as (device' & Hlook & _ & Hseen & Hdets);
      [apply lookup_insert_eq|]
  end.
  exists device'. split; [exact Hlook|]. split; [exact Hseen|].
  rewrite Hdets. simpl. rewrite filter_app.
  rewrite filter_cons_True by (fold ts; lra). rewrite filter_nil.
  f_equal. unfold earlier.
  by destruct (devices !! RFReceiver.mac_address detection).
Qed.

(** C10.  [get_detected_devices] returns exactly the devices last seen at
    most 10 seconds ago, and [get_estimated_positions] reports a position
    only for such a device (its stored estimate), while an update of the
    tracking table keeps the observations of the last 30 seconds in the
    device's window and sets [last_seen] to the time of the newest one: the
    window after the update is the window before it without the
    observations that are 30 seconds or more older than the new one,
    followed by the new one, so every earlier observation less than 30
    seconds older stays, in its place. *)
Theorem get_detected_devices_spec (now : R)
    (devices : gmap string RFReceiver.Device) :
  (forall mac device,
     RFReceiver.get_detected_devices now devices !! mac = Some device <->
     devices !! mac = Some device /\ now - RFReceiver.last_seen device <= 10) /\
  (forall pos_data,
     pos_data ∈ RFReceiver.get_estimated_positions now devices ->
     exists device,
       devices !! RFReceiver.pos_mac_address pos_data = Some device /\
       now - RFReceiver.last_seen device <= 10 /\
       RFReceiver.estimated_position device
         = Some (RFReceiver.pos_position pos_data)) /\
  (forall mac device,
     devices !! mac = Some device ->
     now - RFReceiver.last_seen device > 10 ->
     forall pos_data,
       pos_data ∈ RFReceiver.get_estimated_positions now devices ->
       RFReceiver.pos_mac_address pos_data <> mac) /\
  (forall detection,
     let earlier :=
       from_option RFReceiver.detections []
         (devices !! RFReceiver.mac_address detection) in
     exists device,
       RFReceiver._update_device_tracking detection devices
         !! RFReceiver.mac_address detection = Some device /\
       RFReceiver.last_seen device = RFReceiver.timestamp detection /\
       last (RFReceiver.detections device) = Some detection /\
       (forall d,
          d ∈ RFReceiver.detections device ->
          RFReceiver.timestamp d > RFReceiver.timestamp detection - 30) /\
       RFReceiver.detections device
       = filter (fun d => RFReceiver.timestamp d
                          > RFReceiver.timestamp detection - 30) earlier
         ++ [detection] /\
       (forall d,
          d ∈ earlier ->
          RFReceiver.timestamp d > RFReceiver.timestamp detection - 30 ->
          d ∈ RFReceiver.detections device)).
Proof.
  split; [|split; [|split]].
  - intros mac device. unfold RFReceiver.get_detected_devices.
    by rewrite map_lookup_filter_Some.
  - intros pos_data (device & ? & ? & ? & _)%elem_of_get_estimated_positions.
    eauto.
  - intros mac device Hd Hsilent pos_data
      (device' & Hd' & Hrecent & _)%elem_of_get_estimated_positions Hmac.
    rewrite Hmac in Hd'. simplify_eq. lra.
  - intros detection earlier.
    destruct (update_device_tracking_lookup detection devices)
      as (device & Hlook & Hseen & Hdets).
    exists device. split; [done|]. split; [done|].
    fold earlier in Hdets. rewrite Hdets. split; [apply last_snoc|].
    split; [|split; [done|]].
    + intros d [Hd%list_elem_of_filter| ->%list_elem_of_singleton]%elem_of_app.
      * tauto.
      * lra.
    + intros d Hd Hrecent. apply elem_of_app. left.
      by apply list_elem_of_filter.
Qed.

Lemma silent_device_not_reported :
  RFReceiver.get_detected_devices 20
    {[ Scenario.mac := Scenario.silent_device ]} !! Scenario.mac = None.
Proof.
  destruct (RFReceiver.get_detected_devices 20
              {[ Scenario.mac := Scenario.silent_device ]} !! Scenario.mac)
    as [device|] eqn:Hlook; [|reflexivity].
  apply (proj1 (get_detected_devices_spec 20
                  {[ Scenario.mac := Scenario.silent_device ]})) in Hlook
    as [Hdev Hrecent].
  rewrite lookup_singleton_eq in Hdev. injection Hdev as <-.
  simpl in Hrecent. lra.
Defined.

(** ** Scanner lines *)

(** The docstring's example line, received from scanner 0. *)
Example parse_line_docstring now :
  RFReceiver.parse_line 0 "DEVICE:AA:BB:CC:DD:EE:FF:-45:WiFi" now
  = RFReceiver.Enqueued
      {| RFReceiver.esp32_id := 0;
         RFReceiver.mac_address := "AA:BB:CC:DD:EE:FF";
         RFReceiver.rssi := (-45)%Z;
         RFReceiver.device_type := "WiFi";
         RFReceiver.timestamp := now;
         RFReceiver.position := (0, 0) |}.
Proof. reflexivity. Qed.

Lemma parse_line_accepted esp32_id data_line now :
  Spec.accepted esp32_id data_line ->
  exists field rssi position,
    Py.split ":" data_line !! 7%nat = Some field /\
    Py.int field = Some rssi /\
    RFReceiver.esp32_positions !! esp32_id = Some position /\
    RFReceiver.parse_line esp32_id data_line now
    = RFReceiver.Enqueued
        {| RFReceiver.esp32_id := esp32_id;
           RFReceiver.mac_address :=
             Py.join ":" (Py.slice 1 7 (Py.split ":" data_line));
           RFReceiver.rssi := rssi;
           RFReceiver.device_type :=
             default "Unknown" (Py.split ":" data_line !! 8%nat);
           RFReceiver.timestamp := now;
           RFReceiver.position := position |}.
Proof.
  intros (Htag & field & Hfield & [rssi Hrssi] & Hid).
  destruct (lookup_lt_is_Some_2 _ _ Hid) as [position Hposition].
  exists field, rssi, position. repeat (split; [done|]).
  unfold RFReceiver.parse_line. rewrite Htag.
  apply lookup_lt_Some in Hfield as Hlen.
  rewrite decide_True by lia.
  by rewrite Hfield, Hrssi, Hposition.
Qed.

Lemma parse_line_rejected esp32_id data_line now :
  ~ Spec.accepted esp32_id data_line ->
  RFReceiver.parse_line esp32_id data_line now = RFReceiver.Ignored \/
  RFReceiver.parse_line esp32_id data_line now = RFReceiver.Raised.
Proof.
  intros Hrej. unfold RFReceiver.parse_line.
  destruct (Py.startswith data_line "DEVICE:") eqn:Htag; [|by left].
  case_decide; [|by left].
  destruct (Py.split ":" data_line !! 7%nat) as [field|] eqn:Hfield; [|by right].
  destruct (Py.int field) as [rssi|] eqn:Hrssi; [|by right].
  destruct (RFReceiver.esp32_positions !! esp32_id) as [position|] eqn:Hpos;
    [|by right].
  exfalso. apply Hrej. split; [done|]. exists field.
  split; [done|]. split; [by eexists|]. by eapply lookup_lt_Some.
Qed.

(** C8 (as amended).  The parser puts an observation on the queue exactly
    for the lines that begin with "DEVICE:", split into at least eight
    colon-separated fields and carry an integer in the eighth (from a
    scanner whose position is known); the observation holds fields 2 to 7
    joined by colons as the device identifier, that integer as the signal
    strength and the ninth field (or "Unknown") as the kind.  Every other
    line leaves the queue as it was. *)
Theorem parse_esp32_data_accepts (esp32_id : nat) (data_line : string)
    (now : R) (data_queue : list RFReceiver.Detection_data) :
  let parts := Py.split ":" data_line in
  (Spec.accepted esp32_id data_line ->
   (8 <= length parts)%nat /\
   exists d,
     RFReceiver._parse_esp32_data esp32_id data_line now data_queue
       = data_queue ++ [d] /\
     RFReceiver.esp32_id d = esp32_id /\
     RFReceiver.mac_address d = Py.join ":" (Py.slice 1 7 parts) /\
     (Py.int <$> parts !! 7%nat) = Some (Some (RFReceiver.rssi d)) /\
     RFReceiver.device_type d = default "Unknown" (parts !! 8%nat) /\
     RFReceiver.timestamp d = now /\
     RFReceiver.esp32_positions !! esp32_id = Some (RFReceiver.position d)) /\
  (~ Spec.accepted esp32_id data_line ->
   RFReceiver._parse_esp32_data esp32_id data_line now data_queue = data_queue).
Proof.
  intros parts. split.
  - intros Hacc.
    destruct (parse_line_accepted esp32_id data_line now Hacc)
      as (field & rssi & position & Hfield & Hrssi & Hposition & Hparse).
    split; [by apply lookup_lt_Some in Hfield|].
    eexists. unfold RFReceiver._parse_esp32_data. rewrite Hparse.
    split; [reflexivity|]. subst parts.
    cbn [RFReceiver.esp32_id RFReceiver.mac_address RFReceiver.rssi
         RFReceiver.device_type RFReceiver.timestamp RFReceiver.position].
    rewrite Hfield, Hposition. cbn [fmap option_fmap option_map].
    by rewrite Hrssi.
  - intros Hrej. unfold RFReceiver._parse_esp32_data.
    by destruct (parse_line_rejected esp32_id data_line now Hrej) as [-> | ->].
Qed.

Lemma parse_esp32_data_example :
  exists d,
    RFReceiver._parse_esp32_data 0 "DEVICE:AA:BB:CC:DD:EE:FF:-45:WiFi" 1000 []
      = [d] /\
    RFReceiver.mac_address d = "AA:BB:CC:DD:EE:FF" /\
    RFReceiver.rssi d = (-45)%Z /\
    RFReceiver.device_type d = "WiFi".
Proof.
  destruct (proj1 (parse_esp32_data_accepts 0
                     "DEVICE:AA:BB:CC:DD:EE:FF:-45:WiFi" 1000 []))
    as (_ & d & Hq & _ & Hmac & Hrssi & Hkind & _).
  - split; [reflexivity|]. exists "-45". split; [reflexivity|].
    split; [by eexists|]. simpl. lia.
  - exists d. split; [exact Hq|]. split; [exact Hmac|].
    split; [|exact Hkind].
    change (Some (Some (-45)%Z) = Some (Some (RFReceiver.rssi d))) in Hrssi.
    congruence.
Defined.

(** C8 as stated fails on a tagged line of four fields: it is not put on the
    queue. *)
Lemma parse_four_fields_counterexample :
  Py.startswith "DEVICE:AA:BB:CC" "DEVICE:" = true /\
  length (Py.split ":" "DEVICE:AA:BB:CC") = 4%nat /\
  RFReceiver.parse_line 0 "DEVICE:AA:BB:CC" 1000 = RFReceiver.Raised /\
  RFReceiver._parse_esp32_data 0 "DEVICE:AA:BB:CC" 1000 [] = [].
Proof. repeat split; reflexivity. Qed.

(** ** Emergency stop *)








(** ** One detection tick *)

Lemma int_of_float_nonneg (r : R) (z : Z) :
  0 <= r -> IZR z <= r < IZR z + 1 -> Py.int_of_float r = z.
Proof.
  intros Hr [Hlo Hhi]. unfold Py.int_of_float. rewrite decide_True by done.
  symmetry. apply Int_part_spec. lra.
Qed.

Lemma detect_hotspots_singleton cfg fd contour :
  ThermalDetection.contours fd = [contour] ->
  ThermalDetection.size_ok cfg contour ->
  ThermalDetection.m00 contour <> 0 ->
  ThermalDetection.detect_hotspots cfg (Some fd)
  = [ThermalDetection.hotspot_of_contour fd contour].
Proof.
  intros Hcs Hsize Hm. unfold ThermalDetection.detect_hotspots.
  rewrite Hcs. simpl. by rewrite !decide_True.
Qed.

Lemma get_estimated_positions_singleton now mac device p :
  now - RFReceiver.last_seen device <= 10 ->
  RFReceiver.estimated_position device = Some p ->
  RFReceiver.get_estimated_positions now {[ mac := device ]}
  = [ {| RFReceiver.pos_mac_address := mac;
         RFReceiver.pos_position := p;
         RFReceiver.pos_confidence :=
           RFReceiver._calculate_position_confidence device |} ].
Proof.
  intros Hrecent Hp.
  unfold RFReceiver.get_estimated_positions, RFReceiver.get_detected_devices.
  rewrite map_filter_singleton_True by done.
  rewrite map_to_list_singleton. simpl. by rewrite Hp.
Qed.

Lemma correlate_rf_thermal_single rf_pos hotspot threshold distance :
  sqrt ((rf_pos.1 - IZR (ThermalDetection.position hotspot).1) ^ 2
        + (rf_pos.2 - IZR (ThermalDetection.position hotspot).2) ^ 2)
    = distance ->
  distance <= threshold ->
  threshold <> 0 ->
  Utils.correlate_rf_thermal [Some rf_pos] [hotspot] threshold
  = Some [ {| Utils.rf_position := rf_pos;
              Utils.thermal_position := ThermalDetection.position hotspot;
              Utils.correlation_distance := distance;
              Utils.hotspot_area := ThermalDetection.area hotspot;
              Utils.confidence := 1 - distance / threshold |} ].
Proof.
  intros Hdist Hle Hnz. unfold Utils.correlate_rf_thermal. simpl.
  unfold Utils.correlate_pair, Py.div. rewrite Hdist.
  rewrite decide_True by done. by rewrite decide_False by done.
Qed.

(** The hotspot of the warm blob sits at pixel (16, 12). *)
Lemma warm_hotspot_position :
  ThermalDetection.position
    (ThermalDetection.hotspot_of_contour Scenario.warm_frame Scenario.warm_blob)
  = (16, 12)%Z.
Proof.
  simpl. f_equal; apply int_of_float_nonneg; lra.
Qed.

(** C2 (the code departs from it).  The claim: after every update of the
    detection tick the position window and the confidence window of a record
    have the same length.  The correlated update breaks it.  One tick at
    clock reading 1000, on an empty table of detections, with a device
    estimated at (20, 15) and a hotspot at pixel (16, 12), correlates the
    two with confidence 0.9 and leaves a record with no position and one
    confidence score. *)
Theorem process_detections_breaks_parallel :
  Spec.all_parallel Scenario.empty_system /\
  exists d,
    Main.active_detections
      (Main.process_detections Scenario.cfg Scenario.thermal_cfg 1000
         Scenario.tracked (Some Scenario.warm_frame) Scenario.empty_system)
      !! Scenario.mac = Some d /\
    Main.positions d = [] /\
    Main.confidence_scores d = [0.9] /\
    ~ Spec.windows_parallel d.
Proof.
  split.
  { intros device_id d Hd. simpl in Hd. by rewrite lookup_empty in Hd. }
  unfold Main.process_detections, Scenario.tracked.
  rewrite (get_estimated_positions_singleton 1000 Scenario.mac
             Scenario.tracked_device (20, 15)) by (simpl; done || lra).
  rewrite (detect_hotspots_singleton Scenario.thermal_cfg Scenario.warm_frame
             Scenario.warm_blob)
    by (try done; unfold ThermalDetection.size_ok; simpl; lra).
  set (entry := {| RFReceiver.pos_mac_address := Scenario.mac |}).
  set (hotspot := ThermalDetection.hotspot_of_contour _ _).
  cbn [fmap list_fmap]. cbn [RFReceiver.pos_position entry].
  change (Main.correlation_threshold Scenario.cfg) with 50.
  rewrite (correlate_rf_thermal_single (20, 15) hotspot 50 5); cycle 1.
  { unfold hotspot. rewrite warm_hotspot_position. simpl fst. simpl snd.
    replace ((20 - 16) ^ 2 + (15 - 12) ^ 2) with (5 * 5) by (simpl; lra).
    apply sqrt_square. lra. }
  { simpl. lra. }
  { simpl. lra. }
  set (c := {| Utils.rf_position := (20, 15) |}).
  cbn [foldl].
  rewrite handle_thermal_only_detections_correlated; cycle 1.
  { intros h ->%list_elem_of_singleton. simpl. left. }
  rewrite handle_rf_only_detections_correlated; cycle 1.
  { intros e ->%list_elem_of_singleton. simpl. left. }
  destruct (handle_correlation_windows Scenario.cfg 1000 c [entry] entry
              Scenario.empty_system) as (d & Hd & Hp & Hc & Hu).
  { by rewrite filter_cons_True by reflexivity. }
  { simpl. lra. }
  { simpl. rewrite lookup_empty. simpl. lra. }
  exists d. cbn [Main.active_detections].
  rewrite lookup_cleanup_old_detections.
  change (RFReceiver.pos_mac_address entry) with Scenario.mac in Hd.
  rewrite Hd. rewrite decide_False by (rewrite Hu; lra).
  split; [done|]. split; [done|].
  simpl in Hc. rewrite lookup_empty in Hc. simpl in Hc.
  assert (Hscore : Main.confidence_scores d = [0.9])
    by (rewrite Hc; f_equal; lra).
  split; [done|].
  unfold Spec.windows_parallel. rewrite Hp, Hscore. simpl. lia.
Qed.

(** * Further properties of the code *)

(** ** Trilateration on exact and on degenerate input *)

Lemma trilaterate_three (x1 y1 x2 y2 x3 y3 r1 r2 r3 : R)
    (ps : list (R * R)) (rs : list R) :
  Utils.trilaterate (r1 :: r2 :: r3 :: rs)
    ((x1, y1) :: (x2, y2) :: (x3, y3) :: ps)
  = Utils.trilaterate [r1; r2; r3] [(x1, y1); (x2, y2); (x3, y3)].
Proof.
  unfold Utils.trilaterate.
  by rewrite !bool_decide_eq_false_2 by (simpl; lia).
Qed.

Lemma trilaterate_denominator (x1 y1 x2 y2 x3 y3 : R) :
  2 * (y3 - y2) * (2 * (x2 - x1)) - 2 * (y2 - y1) * (2 * (x3 - x2))
  = 4 * ((x2 - x1) * (y3 - y2) - (y2 - y1) * (x3 - x2)).
Proof. lra. Qed.

(** X1.  Given the exact distances from a point to three scanners that are
    not on one line, [trilaterate] returns that point; further scanners and
    distances in the lists play no part. *)
Theorem trilaterate_reconstructs (px py x1 y1 x2 y2 x3 y3 : R)
    (ps : list (R * R)) (rs : list R) :
  (x2 - x1) * (y3 - y2) - (y2 - y1) * (x3 - x2) <> 0 ->
  let distance_to x y := sqrt ((px - x) ^ 2 + (py - y) ^ 2) in
  Utils.trilaterate
    (distance_to x1 y1 :: distance_to x2 y2 :: distance_to x3 y3 :: rs)
    ((x1, y1) :: (x2, y2) :: (x3, y3) :: ps)
  = Some (px, py).
Proof.
  intros Hcross distance_to. rewrite trilaterate_three.
  unfold Utils.trilaterate.
  rewrite !bool_decide_eq_false_2 by (simpl; lia). simpl orb. cbv iota.
  assert (Hsq : forall x y, distance_to x y ^ 2 = (px - x) ^ 2 + (py - y) ^ 2).
  { intros x y. unfold distance_to. apply pow2_sqrt.
    pose proof (pow2_ge_0 (px - x)). pose proof (pow2_ge_0 (py - y)). lra. }
  rewrite !Hsq.
  pose proof (trilaterate_denominator x1 y1 x2 y2 x3 y3) as Hden.
  rewrite !py_div_Some by lra.
  simpl. f_equal. f_equal; field; lra.
Qed.

Lemma trilaterate_reconstructs_example :
  Utils.trilaterate
    [sqrt ((30 - 0) ^ 2 + (40 - 0) ^ 2); sqrt ((30 - 100) ^ 2 + (40 - 0) ^ 2);
     sqrt ((30 - 0) ^ 2 + (40 - 100) ^ 2); sqrt ((30 - 100) ^ 2 + (40 - 100) ^ 2)]
    [(0, 0); (100, 0); (0, 100); (100, 100)]
  = Some (30, 40).
Proof.
  apply (trilaterate_reconstructs 30 40 0 0 100 0 0 100 [(100, 100)]). lra.
Defined.

(** X2.  On at least three scanners [trilaterate] gives no estimate exactly
    when the first three scanner positions lie on one line, whatever the
    distances are; with fewer than three distances or positions it gives no
    estimate either. *)
Theorem trilaterate_none_iff_collinear :
  (forall (x1 y1 x2 y2 x3 y3 r1 r2 r3 : R) (ps : list (R * R)) (rs : list R),
     Utils.trilaterate (r1 :: r2 :: r3 :: rs)
       ((x1, y1) :: (x2, y2) :: (x3, y3) :: ps) = None <->
     (x2 - x1) * (y3 - y2) = (y2 - y1) * (x3 - x2)) /\
  (forall distances positions,
     (length distances < 3)%nat \/ (length positions < 3)%nat ->
     Utils.trilaterate distances positions = None).
Proof.
  split; [|apply trilaterate_short].
  intros x1 y1 x2 y2 x3 y3 r1 r2 r3 ps rs.
  pose proof (trilaterate_denominator x1 y1 x2 y2 x3 y3) as Hden.
  unfold Utils.trilaterate.
  rewrite !bool_decide_eq_false_2 by (simpl; lia). simpl orb. cbv iota.
  destruct (decide ((x2 - x1) * (y3 - y2) = (y2 - y1) * (x3 - x2))) as [Hz|Hnz].
  - split; [done|]. intros _.
    rewrite (proj2 (py_div_None _ (2 * (y3 - y2) * (2 * (x2 - x1))
                                   - 2 * (y2 - y1) * (2 * (x3 - x2)))));
      [done|lra].
  - rewrite !py_div_Some by lra. simpl. split; [done|]. intros ?. done.
Qed.

Lemma trilaterate_collinear_example :
  Utils.trilaterate [10; 20; 30] [(0, 0); (50, 0); (100, 0)] = None.
Proof.
  apply (proj1 trilaterate_none_iff_collinear 0 0 50 0 100 0 10 20 30 [] []).
  lra.
Defined.

(** ** Correlation of RF positions and hotspots *)

Lemma correlate_pair_positive rf_pos threshold hotspot :
  0 < threshold ->
  Utils.correlate_pair rf_pos threshold hotspot
  = Some (if decide (Spec.pair_distance rf_pos hotspot <= threshold)
          then [Spec.pair_correlation rf_pos threshold hotspot] else []).
Proof.
  intros Hpos. unfold Utils.correlate_pair, Py.div.
  fold (Spec.pair_distance rf_pos hotspot).
  case_decide; [|done]. by rewrite decide_False by lra.
Qed.

Lemma mapM_total {A B} (f : A -> option B) (g : A -> B) (l : list A) :
  (forall x, x ∈ l -> f x = Some (g x)) -> mapM f l = Some (g <$> l).
Proof.
  intros Hf. apply mapM_Some_2. induction l as [|x l IH]; simpl; [constructor|].
  constructor; [apply Hf; left|]. apply IH. intros ? ?. apply Hf. by right.
Qed.

Lemma correlate_rf_thermal_positive rf_positions hotspots threshold :
  0 < threshold ->
  Utils.correlate_rf_thermal rf_positions hotspots threshold
  = Some (mjoin
            ((fun rf =>
                match rf with
                | None => []
                | Some rf_pos =>
                    mjoin ((fun hotspot =>
                              if decide (Spec.pair_distance rf_pos hotspot <= threshold)
                              then [Spec.pair_correlation rf_pos threshold hotspot]
                              else []) <$> hotspots)
                end) <$> rf_positions)).
Proof.
  intros Hpos. unfold Utils.correlate_rf_thermal.
  erewrite mapM_total; [done|].
  intros [rf_pos|] _; [|done]. simpl.
  erewrite mapM_total; [done|].
  intros hotspot _. by apply correlate_pair_positive.
Qed.

Lemma mjoin_fmap_nil {A B} (l : list A) :
  mjoin ((fun _ => @nil B) <$> l) = [].
Proof. induction l; simpl; done. Qed.

Lemma pair_distance_nonneg rf_pos hotspot : 0 <= Spec.pair_distance rf_pos hotspot.
Proof. apply sqrt_pos. Qed.

Lemma pair_distance_zero rf_pos hotspot :
  Spec.pair_distance rf_pos hotspot = 0 <->
  rf_pos = Main.point (ThermalDetection.position hotspot).
Proof.
  unfold Spec.pair_distance, Main.point.
  destruct rf_pos as [x y]. cbn [fst snd].
  set (hx := IZR _). set (hy := IZR _).
  pose proof (pow2_ge_0 (x - hx)). pose proof (pow2_ge_0 (y - hy)).
  split.
  - intros Hz. apply sqrt_eq_0 in Hz; [|lra].
    assert ((x - hx) ^ 2 = 0) as Hx by lra.
    assert ((y - hy) ^ 2 = 0) as Hy by lra.
    simpl in Hx, Hy. f_equal; nra.
  - intros [= -> ->]. rewrite !Rminus_diag.
    replace (0 ^ 2 + 0 ^ 2) with 0 by (simpl; lra). apply sqrt_0.
Qed.

(** X3.  With a positive threshold [correlate_rf_thermal] never raises, and
    its result holds exactly the correlations of the pairs (RF position,
    hotspot) of its inputs that are at most the threshold apart: every such
    pair is in the result, also when a position or a hotspot takes part in
    several pairs, and each carries the confidence 1 - distance / threshold. *)
Theorem correlate_rf_thermal_exhaustive
    (rf_positions : list (option (R * R)))
    (hotspots : list ThermalDetection.Hotspot) (threshold : R) :
  0 < threshold ->
  exists correlations,
    Utils.correlate_rf_thermal rf_positions hotspots threshold
      = Some correlations /\
    forall c,
      c ∈ correlations <->
      exists rf_pos hotspot,
        Some rf_pos ∈ rf_positions /\
        hotspot ∈ hotspots /\
        Spec.pair_distance rf_pos hotspot <= threshold /\
        c = Spec.pair_correlation rf_pos threshold hotspot.
Proof.
  intros Hpos. eexists. split; [by apply correlate_rf_thermal_positive|].
  intros c. rewrite list_elem_of_join. split.
  - intros (k & Hc & Hk). apply list_elem_of_fmap in Hk as ([rf_pos|] & -> & Hrf);
      [|by apply elem_of_nil in Hc].
    apply list_elem_of_join in Hc as (k & Hc & Hk).
    apply list_elem_of_fmap in Hk as (hotspot & -> & Hh).
    case_decide; [|by apply elem_of_nil in Hc].
    apply list_elem_of_singleton in Hc as ->. eauto 10.
  - intros (rf_pos & hotspot & Hrf & Hh & Hle & ->).
    eexists. split; [|apply list_elem_of_fmap; exists (Some rf_pos); done].
    apply list_elem_of_join. eexists.
    split; [|apply list_elem_of_fmap; exists hotspot; done].
    rewrite decide_True by done. left.
Qed.

Lemma correlate_rf_thermal_two_hotspots :
  exists correlations,
    Utils.correlate_rf_thermal [Some (20, 15)]
      [ThermalDetection.hotspot_of_contour Scenario.warm_frame Scenario.warm_blob;
       ThermalDetection.hotspot_of_contour Scenario.cool_frame Scenario.cool_blob]
      50 = Some correlations /\
    length correlations = 2%nat.
Proof.
  destruct (correlate_rf_thermal_exhaustive [Some (20, 15)]
    [ThermalDetection.hotspot_of_contour Scenario.warm_frame Scenario.warm_blob;
     ThermalDetection.hotspot_of_contour Scenario.cool_frame Scenario.cool_blob]
    50) as (correlations & Hsome & _); [lra|].
  exists correlations. split; [exact Hsome|].
  rewrite correlate_rf_thermal_positive in Hsome by lra.
  injection Hsome as <-. simpl.
  assert (Hnear : forall frame blob,
    ThermalDetection.m10 blob / ThermalDetection.m00 blob = 16 ->
    ThermalDetection.m01 blob / ThermalDetection.m00 blob = 12 ->
    Spec.pair_distance (20, 15) (ThermalDetection.hotspot_of_contour frame blob)
      <= 50).
  { intros frame blob Hx Hy. unfold Spec.pair_distance.
    cbn [ThermalDetection.position ThermalDetection.hotspot_of_contour fst snd].
    rewrite Hx, Hy.
    rewrite (int_of_float_nonneg 16 16), (int_of_float_nonneg 12 12) by lra.
    replace ((20 - 16) ^ 2 + (15 - 12) ^ 2) with (5 * 5) by (simpl; lra).
    rewrite sqrt_square; lra. }
  rewrite !decide_True by (apply Hnear; simpl; lra). reflexivity.
Defined.

(** X4.  A threshold that is not positive: below zero nothing correlates;
    at zero the function raises ZeroDivisionError as soon as an RF position
    lies exactly on a hotspot, and returns no correlation otherwise. *)
Theorem correlate_rf_thermal_nonpositive_threshold
    (rf_positions : list (option (R * R)))
    (hotspots : list ThermalDetection.Hotspot) :
  (forall threshold,
     threshold < 0 ->
     Utils.correlate_rf_thermal rf_positions hotspots threshold = Some []) /\
  ((exists rf_pos hotspot,
      Some rf_pos ∈ rf_positions /\ hotspot ∈ hotspots /\
      rf_pos = Main.point (ThermalDetection.position hotspot)) ->
   Utils.correlate_rf_thermal rf_positions hotspots 0 = None) /\
  ((forall rf_pos hotspot,
      Some rf_pos ∈ rf_positions -> hotspot ∈ hotspots ->
      rf_pos <> Main.point (ThermalDetection.position hotspot)) ->
   Utils.correlate_rf_thermal rf_positions hotspots 0 = Some []).
Proof.
  assert (Hnone : forall threshold,
    (forall rf_pos hotspot,
       Some rf_pos ∈ rf_positions -> hotspot ∈ hotspots ->
       ~ Spec.pair_distance rf_pos hotspot <= threshold) ->
    Utils.correlate_rf_thermal rf_positions hotspots threshold = Some []).
  { intros threshold Hfar. unfold Utils.correlate_rf_thermal.
    rewrite (mapM_total _ (fun _ => [])).
    - simpl. by rewrite mjoin_fmap_nil.
    - intros [rf_pos|] Hrf; [|done].
      rewrite (mapM_total _ (fun _ => [])).
      + simpl. by rewrite mjoin_fmap_nil.
      + intros hotspot Hh. unfold Utils.correlate_pair.
        fold (Spec.pair_distance rf_pos hotspot).
        rewrite decide_False; [done|]. by apply Hfar. }
  split; [|split].
  - intros threshold Hneg. apply Hnone. intros rf_pos hotspot _ _.
    pose proof (pair_distance_nonneg rf_pos hotspot). lra.
  - intros (rf_pos & hotspot & Hrf & Hh & Hon).
    apply pair_distance_zero in Hon.
    unfold Utils.correlate_rf_thermal.
    rewrite (mapM_None_2 _ rf_positions); [done|].
    apply Exists_exists. exists (Some rf_pos). split; [done|].
    rewrite (mapM_None_2 _ hotspots); [done|].
    apply Exists_exists. exists hotspot. split; [done|].
    unfold Utils.correlate_pair, Py.div.
    fold (Spec.pair_distance rf_pos hotspot). rewrite Hon.
    rewrite decide_True by lra. by rewrite decide_True.
  - intros Hoff. apply Hnone. intros rf_pos hotspot Hrf Hh Hle.
    apply (Hoff rf_pos hotspot Hrf Hh). apply pair_distance_zero.
    pose proof (pair_distance_nonneg rf_pos hotspot). lra.
Qed.

Lemma correlate_rf_thermal_zero_threshold_raises :
  Utils.correlate_rf_thermal [Some (16, 12)]
    [ThermalDetection.hotspot_of_contour Scenario.warm_frame Scenario.warm_blob]
    0 = None.
Proof.
  apply (proj1 (proj2 (correlate_rf_thermal_nonpositive_threshold _ _))).
  eexists _, _. split; [left|]. split; [left|].
  rewrite warm_hotspot_position. unfold Main.point. simpl. done.
Defined.

(** ** Order and size of the reported hotspots *)

Lemma insert_by_confidence_sorted h l :
  StronglySorted (fun a b => ThermalDetection.confidence a
                             >= ThermalDetection.confidence b) l ->
  StronglySorted (fun a b => ThermalDetection.confidence a
                             >= ThermalDetection.confidence b)
    (ThermalDetection.insert_by_confidence h l).
Proof.
  induction l as [|x l IH]; intros Hsorted; simpl.
  - repeat constructor.
  - apply StronglySorted_cons in Hsorted as [Hx Hl]. case_decide.
    + apply StronglySorted_cons. split; [|by apply IH].
      rewrite insert_by_confidence_perm. by constructor.
    + apply StronglySorted_cons. split; [|by apply StronglySorted_cons].
      assert (ThermalDetection.confidence h > ThermalDetection.confidence x)
        by lra.
      constructor; [simpl; lra|].
      eapply Forall_impl; [exact Hx|]. simpl. intros. lra.
Qed.

Lemma sort_by_confidence_sorted l :
  StronglySorted (fun a b => ThermalDetection.confidence a
                             >= ThermalDetection.confidence b)
    (ThermalDetection.sort_by_confidence l).
Proof.
  unfold ThermalDetection.sort_by_confidence.
  enough (Hgen : forall acc,
    StronglySorted (fun a b => ThermalDetection.confidence a
                               >= ThermalDetection.confidence b) acc ->
    StronglySorted (fun a b => ThermalDetection.confidence a
                               >= ThermalDetection.confidence b)
      (foldl (fun acc h => ThermalDetection.insert_by_confidence h acc) acc l))
    by (apply Hgen; constructor).
  induction l as [|h l IH]; intros acc Hacc; simpl; [done|].
  by apply IH, insert_by_confidence_sorted.
Qed.

Lemma omap_length_le {A B} (f : A -> option B) (l : list A) :
  (length (omap f l) <= length l)%nat.
Proof. induction l as [|x l IH]; csimpl; [done|]. destruct (f x); csimpl; lia. Qed.

(** X5.  The hotspots [detect_hotspots] reports come in order of descending
    confidence, each has an area within the configured size bounds, there
    are at most as many as contours in the frame, and without a frame there
    are none. *)
Theorem detect_hotspots_sorted (cfg : ThermalDetection.Config)
    (frame : option ThermalDetection.Frame_data) :
  StronglySorted (fun a b => ThermalDetection.confidence a
                             >= ThermalDetection.confidence b)
    (ThermalDetection.detect_hotspots cfg frame) /\
  (forall h,
     h ∈ ThermalDetection.detect_hotspots cfg frame ->
     ThermalDetection.hotspot_min_size cfg <= ThermalDetection.area h
       <= ThermalDetection.hotspot_max_size cfg) /\
  (length (ThermalDetection.detect_hotspots cfg frame)
   <= from_option (fun fd => length (ThermalDetection.contours fd)) 0 frame)%nat /\
  ThermalDetection.detect_hotspots cfg None = [].
Proof.
  split; [|split; [|split]]; [| | |done].
  - destruct frame as [fd|]; [apply sort_by_confidence_sorted|constructor].
  - destruct frame as [fd|]; [|by intros h ?%elem_of_nil].
    intros h (contour & _ & Hsize & _ & ->)%elem_of_detect_hotspots.
    exact Hsize.
  - destruct frame as [fd|]; [|done]. simpl.
    rewrite sort_by_confidence_perm. apply omap_length_le.
Qed.

(** ** The frame buffers *)

Lemma capture_enqueue_length fd q :
  (length q <= ThermalDetection.queue_maxsize)%nat ->
  (length (ThermalDetection.capture_enqueue fd q)
   <= ThermalDetection.queue_maxsize)%nat.
Proof.
  unfold ThermalDetection.capture_enqueue, ThermalDetection.queue_maxsize.
  intros Hq. case_decide; rewrite length_app, ?length_drop; simpl; lia.
Qed.

Lemma capture_enqueue_eq fd q :
  (length q <= ThermalDetection.queue_maxsize)%nat ->
  ThermalDetection.capture_enqueue fd q
  = drop (length (q ++ [fd]) - ThermalDetection.queue_maxsize) (q ++ [fd]).
Proof.
  unfold ThermalDetection.capture_enqueue, ThermalDetection.queue_maxsize.
  intros Hq. rewrite length_app. simpl. case_decide.
  - replace (length q + 1 - 10)%nat with 0%nat by lia. done.
  - replace (length q + 1 - 10)%nat with 1%nat by lia.
    rewrite drop_app_le by lia. done.
Qed.

Lemma capture_frames_eq (frames q : list ThermalDetection.Frame_data) :
  (length q <= ThermalDetection.queue_maxsize)%nat ->
  foldl (fun q fd => ThermalDetection.capture_enqueue fd q) q frames
  = drop (length (q ++ frames) - ThermalDetection.queue_maxsize) (q ++ frames).
Proof.
  revert q. induction frames as [|fd frames IH]; intros q Hq.
  - simpl. rewrite app_nil_r.
    replace (length q - ThermalDetection.queue_maxsize)%nat with 0%nat by lia.
    done.
  - simpl. rewrite IH by (by apply capture_enqueue_length).
    rewrite capture_enqueue_eq by done.
    set (k := (length (q ++ [fd]) - ThermalDetection.queue_maxsize)%nat).
    assert (Hk : (k <= length (q ++ [fd]))%nat) by (unfold k; lia).
    rewrite <- drop_app_le by done. rewrite drop_drop.
    rewrite <- (assoc_L (++)). simpl. f_equal.
    rewrite length_app, length_drop, !length_app. simpl.
    rewrite length_app in Hk. simpl in Hk. unfold k.
    rewrite length_app. simpl. lia.
Qed.

(** X6.  The capture loop keeps the frame queue at ten frames at most, and
    after any run of captures on an empty queue the queue holds the last ten
    captured frames, oldest first: a full queue loses its oldest frame to
    the new one. *)
Theorem capture_keeps_last_ten (frames : list ThermalDetection.Frame_data) :
  let frame_queue :=
    foldl (fun q fd => ThermalDetection.capture_enqueue fd q) [] frames in
  frame_queue = drop (length frames - 10) frames /\
  (length frame_queue <= 10)%nat /\
  last frame_queue = last frames.
Proof.
  intros frame_queue. subst frame_queue.
  rewrite capture_frames_eq by (simpl; lia). simpl.
  change ThermalDetection.queue_maxsize with 10%nat.
  split; [done|]. split; [rewrite length_drop; lia|].
  destruct frames as [|fd frames _] using rev_ind; [done|].
  rewrite last_snoc. rewrite length_app. simpl.
  rewrite drop_app_le by lia. by rewrite last_snoc.
Qed.

(** X7.  [get_latest_frame] hands out the oldest frame of the queue and
    takes it off the queue, so [detect_hotspots()] without a frame works on
    the oldest buffered frame: after captures on an empty queue that is the
    tenth newest frame (the first one while fewer than ten were captured),
    and on an empty queue there is no frame and no hotspot. *)
Theorem detect_hotspots_queued_oldest (cfg : ThermalDetection.Config)
    (frames : list ThermalDetection.Frame_data) :
  let frame_queue :=
    foldl (fun q fd => ThermalDetection.capture_enqueue fd q) [] frames in
  ThermalDetection.detect_hotspots_queued cfg frame_queue
  = (ThermalDetection.detect_hotspots cfg (frames !! (length frames - 10)%nat),
     drop (S (length frames - 10)) frames) /\
  ThermalDetection.detect_hotspots_queued cfg [] = ([], []).
Proof.
  intros frame_queue. split; [|done].
  subst frame_queue. rewrite capture_frames_eq by (simpl; lia). simpl.
  change ThermalDetection.queue_maxsize with 10%nat.
  unfold ThermalDetection.detect_hotspots_queued, ThermalDetection.get_latest_frame.
  destruct (drop (length frames - 10) frames) as [|fd rest] eqn:Hdrop.
  - assert (frames = []) as ->.
    { apply (f_equal length) in Hdrop. rewrite length_drop in Hdrop.
      simpl in Hdrop. destruct frames; [done|simpl in *; lia]. }
    done.
  - pose proof (lookup_drop frames (length frames - 10) 0) as Hhead.
    rewrite Hdrop in Hhead. simpl in Hhead. rewrite Nat.add_0_r in Hhead.
    rewrite <- Hhead. simpl. f_equal.
    change (S (length frames - 10)) with (1 + (length frames - 10))%nat.
    rewrite Nat.add_comm. rewrite <- drop_drop. by rewrite Hdrop.
Qed.

Lemma update_recent_frames_eq {Frame} (frames recent : list Frame) :
  (length recent <= ThermalDetection.max_recent_frames)%nat ->
  foldl (fun recent frame => ThermalDetection._update_recent_frames frame recent)
        recent frames
  = drop (length (recent ++ frames) - ThermalDetection.max_recent_frames)
         (recent ++ frames).
Proof.
  revert recent. induction frames as [|frame frames IH]; intros recent Hrecent.
  - simpl. rewrite app_nil_r.
    replace (length recent - ThermalDetection.max_recent_frames)%nat
      with 0%nat by lia.
    done.
  - simpl.
    assert (Hstep : ThermalDetection._update_recent_frames frame recent
                    = drop (length (recent ++ [frame])
                            - ThermalDetection.max_recent_frames)
                           (recent ++ [frame])).
    { unfold ThermalDetection._update_recent_frames.
      unfold ThermalDetection.max_recent_frames in *.
      rewrite length_app. simpl. case_decide.
      - by replace (length recent + 1 - 10)%nat with 1%nat by lia.
      - by replace (length recent + 1 - 10)%nat with 0%nat by lia. }
    rewrite IH.
    + rewrite Hstep.
      set (k := (length (recent ++ [frame])
                 - ThermalDetection.max_recent_frames)%nat).
      assert (Hk : (k <= length (recent ++ [frame]))%nat) by (unfold k; lia).
      rewrite <- drop_app_le by done. rewrite drop_drop.
      rewrite <- (assoc_L (++)). simpl. f_equal.
      rewrite length_app, length_drop, !length_app. simpl.
      rewrite length_app in Hk. simpl in Hk. unfold k.
      rewrite length_app. simpl. lia.
    + rewrite Hstep, length_drop, length_app. simpl.
      unfold ThermalDetection.max_recent_frames in *. lia.
Qed.

(** X8.  [_update_recent_frames] keeps the ten most recent frames: after
    any run of updates from the empty list, [recent_frames] is the list of
    the last ten frames in order, never longer than ten. *)
Theorem update_recent_frames_last_ten {Frame} (frames : list Frame) :
  let recent_frames :=
    foldl (fun recent frame => ThermalDetection._update_recent_frames frame recent)
          [] frames in
  recent_frames = drop (length frames - 10) frames /\
  (length recent_frames <= 10)%nat.
Proof.
  intros recent_frames. subst recent_frames.
  rewrite update_recent_frames_eq by (simpl; lia). simpl.
  change ThermalDetection.max_recent_frames with 10%nat.
  split; [done|]. rewrite length_drop. lia.
Qed.

(** ** Pointer angles and servo commands *)

Lemma int_of_float_nonpos (r : R) : r <= 0 -> (Py.int_of_float r <= 0)%Z.
Proof.
  intros Hr. unfold Py.int_of_float. case_decide.
  - assert (r = 0) as -> by lra.
    rewrite <- (Int_part_spec 0 0); [done|lra].
  - destruct (base_Int_part (- r)) as [_ Hlow].
    assert (-1 < IZR (Int_part (- r))) as Hz by lra.
    apply lt_IZR in Hz. lia.
Qed.

Lemma int_of_float_ge (r : R) (z : Z) :
  (0 <= z)%Z -> IZR z <= r -> (z <= Py.int_of_float r)%Z.
Proof.
  intros Hz Hr. apply IZR_le in Hz as Hz'.
  unfold Py.int_of_float. rewrite decide_True by lra.
  destruct (base_Int_part r) as [_ Hlow].
  assert (IZR z < IZR (Int_part r) + 1) as Hlt by lra.
  rewrite <- plus_IZR in Hlt. apply lt_IZR in Hlt. lia.
Qed.

Lemma int_of_float_le (r : R) (z : Z) :
  0 <= r -> r <= IZR z -> (Py.int_of_float r <= z)%Z.
Proof.
  intros Hr Hz. unfold Py.int_of_float. rewrite decide_True by done.
  destruct (base_Int_part r) as [Hup _].
  apply le_IZR. lra.
Qed.

(** The clamp both angle mappings apply to [int(q * range)]. *)
Lemma clamped_angle_spec (q : R) (range : Z) :
  (0 <= range)%Z ->
  let angle := Z.max 0 (Z.min (Py.int_of_float (q * IZR range)) range) in
  (0 <= angle <= range)%Z /\
  (q <= 0 -> angle = 0%Z) /\
  (1 <= q -> angle = range) /\
  (0 <= q <= 1 -> angle = Py.int_of_float (q * IZR range)).
Proof.
  intros Hrange angle. apply IZR_le in Hrange as Hrange'.
  split; [subst angle; lia|]. split; [|split].
  - intros Hq. pose proof (int_of_float_nonpos (q * IZR range)) as Hle.
    subst angle. assert (q * IZR range <= 0) as Hneg by nra.
    specialize (Hle Hneg). lia.
  - intros Hq. pose proof (int_of_float_ge (q * IZR range) range Hrange) as Hge.
    subst angle. assert (IZR range <= q * IZR range) as Hbig by nra.
    specialize (Hge Hbig). lia.
  - intros [Hq0 Hq1].
    pose proof (int_of_float_ge (q * IZR range) 0) as Hge.
    pose proof (int_of_float_le (q * IZR range) range) as Hle.
    subst angle. assert (0 <= q * IZR range <= IZR range) by nra.
    assert (0 <= Py.int_of_float (q * IZR range) <= range)%Z
      by (split; [apply Hge; [lia|]|apply Hle]; lra).
    lia.
Qed.

(** X9.  The angles [point_laser_at_position] computes: each lies between 0
    and 180; a coordinate at or below 0 gives 0 and one at or beyond the
    image width (height) gives 180, in between it is [int(x / width * 180)];
    a width or height of 0 raises, and then there are no angles. *)
Theorem laser_angles_clamped (position : R * R) (image_width image_height : R) :
  (image_width <> 0 -> image_height <> 0 ->
   exists angle_x angle_y,
     AlertSystem.laser_angles position image_width image_height
       = Some (angle_x, angle_y) /\
     (0 <= angle_x <= 180)%Z /\ (0 <= angle_y <= 180)%Z /\
     (position.1 / image_width <= 0 -> angle_x = 0%Z) /\
     (1 <= position.1 / image_width -> angle_x = 180%Z) /\
     (0 <= position.1 / image_width <= 1 ->
      angle_x = Py.int_of_float (position.1 / image_width * 180)) /\
     (position.2 / image_height <= 0 -> angle_y = 0%Z) /\
     (1 <= position.2 / image_height -> angle_y = 180%Z) /\
     (0 <= position.2 / image_height <= 1 ->
      angle_y = Py.int_of_float (position.2 / image_height * 180))) /\
  (image_width = 0 \/ image_height = 0 ->
   AlertSystem.laser_angles position image_width image_height = None).
Proof.
  unfold AlertSystem.laser_angles, Py.div. split.
  - intros Hw Hh. rewrite !decide_False by done. simpl.
    eexists _, _. split; [reflexivity|].
    pose proof (clamped_angle_spec (position.1 / image_width) 180 ltac:(lia))
      as Hx.
    pose proof (clamped_angle_spec (position.2 / image_height) 180 ltac:(lia))
      as Hy.
    cbv zeta in Hx, Hy. repeat split; tauto.
  - intros [-> | ->].
    + by rewrite (decide_True (P := 0 = 0)).
    + rewrite (decide_True (P := 0 = 0)) by done.
      by destruct (decide (image_width = 0)).
Qed.

Lemma laser_angles_centre :
  AlertSystem.laser_angles (16, 12) 32 24 = Some (90, 90)%Z.
Proof.
  destruct (proj1 (laser_angles_clamped (16, 12) 32 24))
    as (ax & ay & Hsome & _ & _ & _ & _ & Hx & _ & _ & Hy); [lra|lra|].
  rewrite Hsome. simpl in Hx, Hy.
  rewrite Hx, Hy by lra.
  by rewrite !(int_of_float_nonneg _ 90) by lra.
Defined.

(** X10.  [convert_servo_angle] with servo ranges that are not negative
    returns angles between 0 and the range of their axis, 0 for a coordinate
    at or below 0 and the full range for one at or beyond the image size;
    an image width or height of 0 raises. *)
Theorem convert_servo_angle_clamped (x y image_width image_height : R)
    (servo_range_x servo_range_y : Z) :
  (image_width <> 0 -> image_height <> 0 ->
   (0 <= servo_range_x)%Z -> (0 <= servo_range_y)%Z ->
   exists angle_x angle_y,
     Utils.convert_servo_angle x y image_width image_height
       servo_range_x servo_range_y = Some (angle_x, angle_y) /\
     (0 <= angle_x <= servo_range_x)%Z /\ (0 <= angle_y <= servo_range_y)%Z /\
     (x / image_width <= 0 -> angle_x = 0%Z) /\
     (1 <= x / image_width -> angle_x = servo_range_x) /\
     (y / image_height <= 0 -> angle_y = 0%Z) /\
     (1 <= y / image_height -> angle_y = servo_range_y)) /\
  (image_width = 0 \/ image_height = 0 ->
   Utils.convert_servo_angle x y image_width image_height
     servo_range_x servo_range_y = None).
Proof.
  unfold Utils.convert_servo_angle, Py.div. split.
  - intros Hw Hh Hrx Hry. rewrite !decide_False by done. simpl.
    eexists _, _. split; [reflexivity|].
    pose proof (clamped_angle_spec (x / image_width) servo_range_x Hrx) as Hx.
    pose proof (clamped_angle_spec (y / image_height) servo_range_y Hry) as Hy.
    cbv zeta in Hx, Hy. repeat split; tauto.
  - intros [-> | ->].
    + by rewrite (decide_True (P := 0 = 0)).
    + rewrite (decide_True (P := 0 = 0)) by done.
      by destruct (decide (image_width = 0)).
Qed.

Lemma convert_servo_angle_corner :
  Utils.convert_servo_angle 40 (-3) 32 24 180 180 = Some (180, 0)%Z.
Proof.
  destruct (proj1 (convert_servo_angle_clamped 40 (-3) 32 24 180 180))
    as (ax & ay & Hsome & _ & _ & _ & Hx & Hy & _); [lra|lra|lia|lia|].
  rewrite Hsome, Hx, Hy by lra. done.
Defined.

Lemma duty_between (a b p : R) :
  0 <= p <= 1 ->
  Rmin (AlertSystem._angle_to_duty_cycle a) (AlertSystem._angle_to_duty_cycle b)
  <= AlertSystem._angle_to_duty_cycle (a + (b - a) * p)
  <= Rmax (AlertSystem._angle_to_duty_cycle a) (AlertSystem._angle_to_duty_cycle b).
Proof.
  intros [Hp0 Hp1].
  unfold AlertSystem._angle_to_duty_cycle, AlertSystem.servo_min_duty,
    AlertSystem.servo_max_duty, Rmin, Rmax.
  destruct (Rle_dec _ _); split; nra.
Qed.

Lemma duty_endpoints (a b : R) :
  Rmin (AlertSystem._angle_to_duty_cycle a) (AlertSystem._angle_to_duty_cycle b)
  <= AlertSystem._angle_to_duty_cycle b
  <= Rmax (AlertSystem._angle_to_duty_cycle a) (AlertSystem._angle_to_duty_cycle b).
Proof. split; [apply Rmin_r|apply Rmax_r]. Qed.

Lemma INR_10 : INR 10 = 10.
Proof. simpl. lra. Qed.

(** The duty cycles a smooth move sends on one axis. *)
Lemma smooth_run_ready (start_x start_y target_x target_y : R)
    (steps : list nat) (sent_x sent_y : list R) :
  foldr (fun i rest =>
           AlertSystem.then_run
             (AlertSystem.smooth_step start_x start_y target_x target_y i) rest)
        AlertSystem.done_run steps
        {| AlertSystem.servo_x := Some sent_x; AlertSystem.servo_y := Some sent_y |}
  = (true,
     {| AlertSystem.servo_x :=
          Some (sent_x ++
                ((fun i => AlertSystem._angle_to_duty_cycle
                             (start_x + (target_x - start_x) * (INR i / INR 10)))
                   <$> steps));
        AlertSystem.servo_y :=
          Some (sent_y ++
                ((fun i => AlertSystem._angle_to_duty_cycle
                             (start_y + (target_y - start_y) * (INR i / INR 10)))
                   <$> steps)) |}).
Proof.
  revert sent_x sent_y. induction steps as [|i steps IH]; intros sent_x sent_y.
  - simpl. by rewrite !app_nil_r.
  - simpl. unfold AlertSystem.then_run at 1.
    unfold AlertSystem.smooth_step, AlertSystem.then_run at 1. simpl.
    rewrite IH. by rewrite <- !(assoc_L (++)).
Qed.

Lemma move_servo_ready_spec (x_angle y_angle : R) (s : AlertSystem.State)
    (sent_x sent_y : list R) :
  let duty := AlertSystem._angle_to_duty_cycle in
  let large :=
    Rabs (x_angle - AlertSystem.current_x_angle s) > 30
    \/ Rabs (y_angle - AlertSystem.current_y_angle s) > 30 in
  let after :=
    AlertSystem.move_servo x_angle y_angle s
      {| AlertSystem.servo_x := Some sent_x;
         AlertSystem.servo_y := Some sent_y |} in
  after.1 = AlertSystem.set_angles x_angle y_angle s /\
  exists more_x more_y,
    AlertSystem.servo_x after.2 = Some (sent_x ++ more_x) /\
    AlertSystem.servo_y after.2 = Some (sent_y ++ more_y) /\
    (large -> length more_x = 11%nat /\ length more_y = 11%nat) /\
    (~ large -> more_x = [duty x_angle] /\ more_y = [duty y_angle]) /\
    last more_x = Some (duty x_angle) /\
    last more_y = Some (duty y_angle) /\
    (forall d, d ∈ more_x ->
       Rmin (duty (AlertSystem.current_x_angle s)) (duty x_angle) <= d
         <= Rmax (duty (AlertSystem.current_x_angle s)) (duty x_angle)) /\
    (forall d, d ∈ more_y ->
       Rmin (duty (AlertSystem.current_y_angle s)) (duty y_angle) <= d
         <= Rmax (duty (AlertSystem.current_y_angle s)) (duty y_angle)).
Proof.
  intros duty large after. subst after. unfold AlertSystem.move_servo.
  fold large. destruct (decide large) as [Hlarge|Hsmall].
  - unfold AlertSystem._smooth_servo_move. rewrite smooth_run_ready.
    cbn [fst snd]. split; [done|].
    eexists _, _. split; [reflexivity|]. split; [reflexivity|].
    split; [by rewrite !length_fmap, !length_seq|]. split; [done|].
    assert (Hlast : forall a b,
      last ((fun i => AlertSystem._angle_to_duty_cycle
                        (a + (b - a) * (INR i / INR 10))) <$> seq 0 (10 + 1))
      = Some (duty b)).
    { intros a b. change (seq 0 (10 + 1)) with (seq 0 10 ++ [10%nat]).
      rewrite fmap_last, last_snoc. unfold duty. cbn [fmap option_fmap option_map].
      do 2 f_equal. rewrite INR_10. field. }
    assert (Hin : forall a b d,
      d ∈ (fun i => AlertSystem._angle_to_duty_cycle
                      (a + (b - a) * (INR i / INR 10))) <$> seq 0 (10 + 1) ->
      Rmin (duty a) (duty b) <= d <= Rmax (duty a) (duty b)).
    { intros a b d (i & -> & Hi%elem_of_seq)%list_elem_of_fmap.
      apply duty_between. rewrite INR_10.
      pose proof (pos_INR i). assert (INR i <= INR 10) by (apply le_INR; lia).
      rewrite INR_10 in *. split; [|lra].
      apply Rmult_le_pos; lra. }
    rewrite !Hlast. repeat split; try done; apply Hin; done.
  - cbn [fst snd AlertSystem.then_run AlertSystem.ChangeDutyCycle_x
         AlertSystem.ChangeDutyCycle_y AlertSystem.servo_x AlertSystem.servo_y].
    split; [done|].
    exists [duty x_angle], [duty y_angle].
    split; [done|]. split; [done|]. split; [done|]. split; [done|].
    split; [done|]. split; [done|].
    split; intros d ->%list_elem_of_singleton; apply duty_endpoints.
Qed.

Lemma duty_in_limits (a : R) :
  0 <= a <= 180 ->
  AlertSystem.servo_min_duty <= AlertSystem._angle_to_duty_cycle a
    <= AlertSystem.servo_max_duty.
Proof.
  unfold AlertSystem._angle_to_duty_cycle, AlertSystem.servo_min_duty,
    AlertSystem.servo_max_duty. lra.
Qed.

Lemma between_duties_in_limits (a b d : R) :
  0 <= a <= 180 -> 0 <= b <= 180 ->
  Rmin (AlertSystem._angle_to_duty_cycle a) (AlertSystem._angle_to_duty_cycle b)
    <= d
    <= Rmax (AlertSystem._angle_to_duty_cycle a) (AlertSystem._angle_to_duty_cycle b) ->
  AlertSystem.servo_min_duty <= d <= AlertSystem.servo_max_duty.
Proof.
  intros Ha%duty_in_limits Hb%duty_in_limits. revert Ha Hb.
  generalize (AlertSystem._angle_to_duty_cycle a), (AlertSystem._angle_to_duty_cycle b).
  intros u v Hu Hv. unfold Rmin, Rmax. destruct (Rle_dec u v); lra.
Qed.

(** X11.  [move_servo] between angles of the servo range 0..180, with both
    servos created, always ends on the target: the last duty cycle sent on
    each axis is the one of the target angle and the stored angles become
    the target angles.  When an axis has to turn by more than 30 degrees,
    eleven duty cycles are sent per axis, otherwise one; every duty cycle
    sent lies between the duty cycle of the old angle and that of the
    target, so the move never overshoots and stays within the servo's duty
    limits 2.5 and 12.5. *)
Theorem move_servo_reaches_target (x_angle y_angle : R) (s : AlertSystem.State)
    (sent_x sent_y : list R) :
  0 <= x_angle <= 180 -> 0 <= y_angle <= 180 ->
  0 <= AlertSystem.current_x_angle s <= 180 ->
  0 <= AlertSystem.current_y_angle s <= 180 ->
  let duty := AlertSystem._angle_to_duty_cycle in
  let large :=
    Rabs (x_angle - AlertSystem.current_x_angle s) > 30
    \/ Rabs (y_angle - AlertSystem.current_y_angle s) > 30 in
  let after :=
    AlertSystem.move_servo x_angle y_angle s
      {| AlertSystem.servo_x := Some sent_x;
         AlertSystem.servo_y := Some sent_y |} in
  AlertSystem.current_x_angle after.1 = x_angle /\
  AlertSystem.current_y_angle after.1 = y_angle /\
  AlertSystem.alert_queue after.1 = AlertSystem.alert_queue s /\
  exists more_x more_y,
    AlertSystem.servo_x after.2 = Some (sent_x ++ more_x) /\
    AlertSystem.servo_y after.2 = Some (sent_y ++ more_y) /\
    (large -> length more_x = 11%nat /\ length more_y = 11%nat) /\
    (~ large -> more_x = [duty x_angle] /\ more_y = [duty y_angle]) /\
    last more_x = Some (duty x_angle) /\
    last more_y = Some (duty y_angle) /\
    (forall d, d ∈ more_x ->
       Rmin (duty (AlertSystem.current_x_angle s)) (duty x_angle) <= d
         <= Rmax (duty (AlertSystem.current_x_angle s)) (duty x_angle)) /\
    (forall d, d ∈ more_y ->
       Rmin (duty (AlertSystem.current_y_angle s)) (duty y_angle) <= d
         <= Rmax (duty (AlertSystem.current_y_angle s)) (duty y_angle)) /\
    (forall d, d ∈ more_x ++ more_y ->
       AlertSystem.servo_min_duty <= d <= AlertSystem.servo_max_duty).
Proof.
  intros Hx Hy Hcx Hcy duty large after.
  destruct (move_servo_ready_spec x_angle y_angle s sent_x sent_y)
    as (Hstate & more_x & more_y & Hsx & Hsy & Hlarge & Hsmall & Hlx & Hly
        & Hbx & Hby).
  subst after. rewrite Hstate. repeat (split; [done|]).
  exists more_x, more_y. repeat (split; [done|]).
  intros d [Hd|Hd]%elem_of_app.
  - eapply between_duties_in_limits; [exact Hcx|exact Hx|by apply Hbx].
  - eapply between_duties_in_limits; [exact Hcy|exact Hy|by apply Hby].
Qed.

Lemma move_servo_quarter_turn :
  AlertSystem.current_x_angle
    (AlertSystem.move_servo 180 90 Scenario.idle_alerts
       {| AlertSystem.servo_x := Some []; AlertSystem.servo_y := Some [] |}).1
  = 180.
Proof.
  apply (move_servo_reaches_target 180 90 Scenario.idle_alerts [] []);
    simpl; lra.
Defined.

(** X12.  [move_servo] before the servos are created: the first
    [ChangeDutyCycle] raises, nothing is sent and the stored angles stay as
    they were.  With only the y servo missing, a direct move sends the x duty
    cycle and still leaves the stored angles unchanged. *)
Theorem move_servo_without_servos (x_angle y_angle : R) (s : AlertSystem.State) :
  (forall servos,
     AlertSystem.servo_x servos = None ->
     AlertSystem.move_servo x_angle y_angle s servos = (s, servos)) /\
  (forall sent_x,
     ~ (Rabs (x_angle - AlertSystem.current_x_angle s) > 30
        \/ Rabs (y_angle - AlertSystem.current_y_angle s) > 30) ->
     AlertSystem.move_servo x_angle y_angle s
       {| AlertSystem.servo_x := Some sent_x; AlertSystem.servo_y := None |}
     = (s, {| AlertSystem.servo_x :=
                Some (sent_x ++ [AlertSystem._angle_to_duty_cycle x_angle]);
              AlertSystem.servo_y := None |})).
Proof.
  split.
  - intros [sent_x sent_y] Hnone. cbn in Hnone. subst sent_x.
    unfold AlertSystem.move_servo. case_decide; reflexivity.
  - intros sent_x Hsmall. unfold AlertSystem.move_servo.
    by rewrite decide_False by done.
Qed.

Lemma move_servo_without_servos_example :
  AlertSystem.move_servo 0 0 Scenario.idle_alerts
    {| AlertSystem.servo_x := None; AlertSystem.servo_y := None |}
  = (Scenario.idle_alerts,
     {| AlertSystem.servo_x := None; AlertSystem.servo_y := None |}).
Proof.
  by apply (proj1 (move_servo_without_servos 0 0 Scenario.idle_alerts)).
Defined.

(** [_angle_to_duty_cycle] maps 0, 90 and 180 degrees to the minimum, centre
    and maximum duty cycle and grows strictly with the angle. *)
Lemma angle_to_duty_cycle_range :
  AlertSystem._angle_to_duty_cycle 0 = AlertSystem.servo_min_duty /\
  AlertSystem._angle_to_duty_cycle 90 = AlertSystem.servo_center_duty /\
  AlertSystem._angle_to_duty_cycle 180 = AlertSystem.servo_max_duty /\
  (forall a b,
     a < b ->
     AlertSystem._angle_to_duty_cycle a < AlertSystem._angle_to_duty_cycle b) /\
  (forall a,
     0 <= a <= 180 <->
     AlertSystem.servo_min_duty <= AlertSystem._angle_to_duty_cycle a
       <= AlertSystem.servo_max_duty).
Proof.
  unfold AlertSystem._angle_to_duty_cycle, AlertSystem.servo_min_duty,
    AlertSystem.servo_max_duty, AlertSystem.servo_center_duty.
  repeat split; intros; lra.
Qed.

Lemma laser_angles_range (position : R * R) (image_width image_height : R)
    (angles : Z * Z) :
  AlertSystem.laser_angles position image_width image_height = Some angles ->
  0 <= IZR angles.1 <= 180 /\ 0 <= IZR angles.2 <= 180.
Proof.
  unfold AlertSystem.laser_angles.
  destruct (Py.div position.1 image_width) as [qx|]; [|done].
  destruct (Py.div position.2 image_height) as [qy|]; [|done].
  intros [= <-]. cbn [fst snd].
  split; split; apply IZR_le; lia.
Qed.

Lemma move_servo_state (x_angle y_angle : R) (s : AlertSystem.State)
    (servos : AlertSystem.Servos) :
  (AlertSystem.move_servo x_angle y_angle s servos).1
    = AlertSystem.set_angles x_angle y_angle s
  \/ (AlertSystem.move_servo x_angle y_angle s servos).1 = s.
Proof.
  unfold AlertSystem.move_servo. cbv zeta.
  match goal with |- context [if ?b.1 then _ else _] => destruct (b.1) end;
    auto.
Qed.

(** X13.  [point_laser_at_position] keeps the pointer inside the servo
    range: if the stored angles lie between 0 and 180 before the call, they
    do so after it, for every position and image size (also when the division
    or a servo command raises), and the alert queue is not touched.  With
    both servos created, every duty cycle the call sends lies within the
    servo limits 2.5 and 12.5, and for an image size that is not 0 the stored
    angles become the computed ones. *)
Theorem point_laser_within_servo_range (position : R * R)
    (image_width image_height : R) (s : AlertSystem.State)
    (servos : AlertSystem.Servos) :
  0 <= AlertSystem.current_x_angle s <= 180 ->
  0 <= AlertSystem.current_y_angle s <= 180 ->
  let after :=
    AlertSystem.point_laser_at_position position image_width image_height
      s servos in
  0 <= AlertSystem.current_x_angle after.1 <= 180 /\
  0 <= AlertSystem.current_y_angle after.1 <= 180 /\
  AlertSystem.alert_queue after.1 = AlertSystem.alert_queue s /\
  (forall sent_x sent_y,
     servos = {| AlertSystem.servo_x := Some sent_x;
                 AlertSystem.servo_y := Some sent_y |} ->
     (exists more_x more_y,
        AlertSystem.servo_x after.2 = Some (sent_x ++ more_x) /\
        AlertSystem.servo_y after.2 = Some (sent_y ++ more_y) /\
        forall d, d ∈ more_x ++ more_y ->
          AlertSystem.servo_min_duty <= d <= AlertSystem.servo_max_duty) /\
     (forall angles,
        AlertSystem.laser_angles position image_width image_height
          = Some angles ->
        AlertSystem.current_x_angle after.1 = IZR angles.1 /\
        AlertSystem.current_y_angle after.1 = IZR angles.2)).
Proof.
  intros Hcx Hcy after. subst after.
  unfold AlertSystem.point_laser_at_position.
  destruct (AlertSystem.laser_angles position image_width image_height)
    as [angles|] eqn:Hangles.
  - apply laser_angles_range in Hangles as [Hax Hay].
    split; [|split; [|split]].
    + destruct (move_servo_state (IZR angles.1) (IZR angles.2) s servos)
        as [-> | ->]; done.
    + destruct (move_servo_state (IZR angles.1) (IZR angles.2) s servos)
        as [-> | ->]; done.
    + destruct (move_servo_state (IZR angles.1) (IZR angles.2) s servos)
        as [-> | ->]; done.
    + intros sent_x sent_y ->.
      destruct (move_servo_ready_spec (IZR angles.1) (IZR angles.2) s
                  sent_x sent_y)
        as (Hstate & more_x & more_y & Hsx & Hsy & _ & _ & _ & _ & Hbx & Hby).
      split.
      * exists more_x, more_y. split; [done|]. split; [done|].
        intros d [Hd|Hd]%elem_of_app.
        -- eapply between_duties_in_limits; [exact Hcx|exact Hax|by apply Hbx].
        -- eapply between_duties_in_limits; [exact Hcy|exact Hay|by apply Hby].
      * intros ? [= <-]. by rewrite Hstate.
  - cbn [fst snd]. repeat (split; [done|]).
    intros sent_x sent_y ->. split; [|done].
    exists [], []. cbn [AlertSystem.servo_x AlertSystem.servo_y].
    rewrite !app_nil_r. repeat (split; [done|]).
    intros d Hd. by apply elem_of_nil in Hd.
Qed.

Lemma point_laser_at_centre :
  0 <= AlertSystem.current_x_angle
         (AlertSystem.point_laser_at_position (16, 12) 32 24
            Scenario.idle_alerts
            {| AlertSystem.servo_x := Some []; AlertSystem.servo_y := Some [] |}).1
    <= 180.
Proof.
  apply (point_laser_within_servo_range (16, 12) 32 24 Scenario.idle_alerts
           {| AlertSystem.servo_x := Some []; AlertSystem.servo_y := Some [] |});
    simpl; lra.
Defined.

(** ** Alerts raised by the detection tick *)

Section AlertOnEvidence.

#[local] Set Warnings "-inexact-float".

Import PrimFloat.

Local Open Scope float_scope.



End AlertOnEvidence.

(** ** What a detection tick keeps *)

Section TickInvariant.

Context (cfg : Main.Config) (now : R).

Local Abbreviation follows := (Spec.follows cfg now).

Lemma continues_refl d : Spec.continues d d.
Proof. by repeat split. Qed.

Lemma continues_trans d1 d2 d3 :
  Spec.continues d1 d2 -> Spec.continues d2 d3 -> Spec.continues d1 d3.
Proof.
  intros (Hf1 & Ht1 & Ha1) (Hf2 & Ht2 & Ha2). repeat split.
  - by rewrite Hf2.
  - by rewrite Ht2.
  - auto.
Qed.

Lemma queue_extended_nil alerts : Spec.queue_extended [] alerts alerts.
Proof.
  unfold Spec.queue_extended, AlertSystem.set_queue. rewrite app_nil_r.
  by destruct alerts.
Qed.

Lemma queue_extended_app more1 more2 alerts1 alerts2 alerts3 :
  Spec.queue_extended more1 alerts1 alerts2 ->
  Spec.queue_extended more2 alerts2 alerts3 ->
  Spec.queue_extended (more1 ++ more2) alerts1 alerts3.
Proof.
  unfold Spec.queue_extended. intros -> ->. cbn.
  by rewrite (assoc_L (++)).
Qed.

Lemma follows_refl sys : follows sys sys.
Proof.
  split.
  - intros device_id d Hd. exists d. split; [done|apply continues_refl].
  - exists []. split; [apply queue_extended_nil|constructor].
Qed.

Lemma follows_trans sys1 sys2 sys3 :
  follows sys1 sys2 -> follows sys2 sys3 -> follows sys1 sys3.
Proof.
  intros [Hrec1 (more1 & Hq1 & Hall1)] [Hrec2 (more2 & Hq2 & Hall2)]. split.
  - intros device_id d Hd.
    destruct (Hrec1 _ _ Hd) as (d2 & Hd2 & Hc2).
    destruct (Hrec2 _ _ Hd2) as (d3 & Hd3 & Hc3).
    exists d3. split; [done|]. by eapply continues_trans.
  - exists (more1 ++ more2). split.
    + by eapply queue_extended_app.
    + by apply Forall_app.
Qed.

Lemma foldl_follows {A} (f : Main.System -> A -> Main.System) (l : list A) sys :
  (forall sys x, follows sys (f sys x)) -> follows sys (foldl f sys l).
Proof.
  intros Hstep. revert sys. induction l as [|x l IH]; intros sys.
  - apply follows_refl.
  - simpl. eapply follows_trans; [apply Hstep|apply IH].
Qed.

Lemma check_alert_follows device_id d sys :
  (forall d0,
     Main.active_detections sys !! device_id = Some d0 -> Spec.continues d0 d) ->
  follows sys (Main.check_alert cfg now device_id d sys).
Proof.
  intros Hcont. unfold Main.check_alert, Main.trigger_device_alert.
  assert (Hrecords : forall d',
    Spec.continues d d' ->
    forall other d0,
      Main.active_detections sys !! other = Some d0 ->
      exists d1,
        <[device_id := d']> (Main.active_detections sys) !! other = Some d1 /\
        Spec.continues d0 d1).
  { intros d' Hd' other d0 Hd0. destruct (decide (device_id = other)) as [<-|Hne].
    - exists d'. rewrite lookup_insert_eq. split; [done|].
      eapply continues_trans; [by apply Hcont|done].
    - exists d0. rewrite lookup_insert_ne by done.
      split; [done|apply continues_refl]. }
  destruct (Main.should_trigger_alert cfg now d);
    [destruct (last (Main.positions d)) as [latest|]|]; cbn [fst snd].
  - split.
    + apply Hrecords. by repeat split.
    + eexists [_]. split; [reflexivity|].
      constructor; [|constructor]. split; [by eexists|].
      split; [|done]. cbn. case_decide; auto.
  - split; [apply Hrecords, continues_refl|].
    exists []. split; [apply queue_extended_nil|constructor].
  - split; [apply Hrecords, continues_refl|].
    exists []. split; [apply queue_extended_nil|constructor].
Qed.

Lemma record_evidence_follows kind device_id position confidence sys :
  follows sys (Main.record_evidence cfg now kind device_id position confidence sys).
Proof.
  unfold Main.record_evidence. apply check_alert_follows.
  intros d0 ->. by repeat split.
Qed.

Lemma handle_correlation_follows correlation rf_positions sys :
  follows sys (Main.handle_correlation cfg now correlation rf_positions sys).
Proof.
  unfold Main.handle_correlation.
  destruct (head _) as [rf_device|]; [|apply follows_refl].
  case_decide; [|apply follows_refl].
  apply check_alert_follows. intros d0 ->. by repeat split.
Qed.

Lemma handle_rf_only_detections_follows rf_positions correlations sys :
  follows sys (Main.handle_rf_only_detections cfg now rf_positions correlations sys).
Proof.
  unfold Main.handle_rf_only_detections. apply foldl_follows.
  intros sys' pos_data. repeat case_decide; try apply follows_refl.
  apply record_evidence_follows.
Qed.

Lemma handle_thermal_only_detections_follows hotspots correlations sys :
  follows sys
    (Main.handle_thermal_only_detections cfg now hotspots correlations sys).
Proof.
  unfold Main.handle_thermal_only_detections. apply foldl_follows.
  intros sys' hotspot. repeat case_decide; try apply follows_refl.
  apply record_evidence_follows.
Qed.

(** The two ways a tick ends: it returns early or the correlation raises,
    and nothing has changed; or the three handlers have run, in their order,
    and then the sweep. *)
Lemma process_detections_cases (thermal_cfg : ThermalDetection.Config)
    (detected_devices : gmap string RFReceiver.Device)
    (frame : option ThermalDetection.Frame_data) (sys : Main.System) :
  let rf_positions := RFReceiver.get_estimated_positions now detected_devices in
  let thermal_hotspots := ThermalDetection.detect_hotspots thermal_cfg frame in
  let after :=
    Main.process_detections cfg thermal_cfg now detected_devices frame sys in
  after = sys
  \/ exists correlations,
       (rf_positions <> [] \/ thermal_hotspots <> []) /\
       Utils.correlate_rf_thermal
         ((fun pos_data => Some (RFReceiver.pos_position pos_data))
            <$> rf_positions)
         thermal_hotspots (Main.correlation_threshold cfg) = Some correlations /\
       let handled :=
         Main.handle_thermal_only_detections cfg now thermal_hotspots correlations
           (Main.handle_rf_only_detections cfg now rf_positions correlations
              (foldl (fun sys correlation =>
                        Main.handle_correlation cfg now correlation
                          rf_positions sys)
                     sys correlations)) in
       after = {| Main.active_detections :=
                    Main.cleanup_old_detections now
                      (Main.active_detections handled);
                  Main.alert_system := Main.alert_system handled |}.
Proof.
  intros rf_positions thermal_hotspots after. subst after.
  unfold Main.process_detections. fold rf_positions. fold thermal_hotspots.
  destruct rf_positions as [|pos_data rest] eqn:Hrf;
    [destruct thermal_hotspots as [|hotspot hotspots] eqn:Hhot; [by left|]|].
  - destruct (Utils.correlate_rf_thermal _ _ _) as [correlations|] eqn:Hcorr;
      [|by left].
    right. exists correlations. split; [by right|]. by split.
  - destruct (Utils.correlate_rf_thermal _ _ _) as [correlations|] eqn:Hcorr;
      [|by left].
    right. exists correlations. split; [by left|]. by split.
Qed.

(** X15.  What one run of [process_detections] keeps, whatever it is given:
    a record that is still in the table afterwards has the [first_detected]
    and the [detection_type] it had before and, if it was marked as alerted,
    is still marked (the mark is never taken back while the record lives);
    and the alert dispatcher is as it was except that requests were added at
    the end of its queue, each with a target position, of type
    high_confidence or device_detected, with the configured duration and
    the time of the tick: nothing queued before is removed or reordered, and
    the pointer angles, the pins and the flags are not touched. *)
Theorem process_detections_keeps (thermal_cfg : ThermalDetection.Config)
    (detected_devices : gmap string RFReceiver.Device)
    (frame : option ThermalDetection.Frame_data) (sys : Main.System) :
  let after :=
    Main.process_detections cfg thermal_cfg now detected_devices frame sys in
  (forall device_id d d',
     Main.active_detections sys !! device_id = Some d ->
     Main.active_detections after !! device_id = Some d' ->
     Main.first_detected d' = Main.first_detected d /\
     Main.detection_type d' = Main.detection_type d /\
     (Main.alert_triggered d = true -> Main.alert_triggered d' = true)) /\
  exists more,
    Main.alert_system after
    = AlertSystem.set_queue
        (AlertSystem.alert_queue (Main.alert_system sys) ++ more)
        (Main.alert_system sys) /\
    forall alert_data,
      alert_data ∈ more ->
      is_Some (AlertSystem.target_position alert_data) /\
      (AlertSystem.alert_type alert_data = "high_confidence"
       \/ AlertSystem.alert_type alert_data = "device_detected") /\
      AlertSystem.duration alert_data = Main.alert_duration cfg /\
      AlertSystem.timestamp alert_data = now.
Proof.
  intros after.
  assert (Hfollows : exists mid,
    follows sys mid /\
    Main.alert_system after = Main.alert_system mid /\
    forall device_id d',
      Main.active_detections after !! device_id = Some d' ->
      Main.active_detections mid !! device_id = Some d').
  { destruct (process_detections_cases thermal_cfg detected_devices frame sys)
      as [Hsame | (correlations & _ & _ & Hfull)]; fold after in Hsame || fold after in Hfull.
    - exists sys. rewrite Hsame. split; [apply follows_refl|done].
    - cbv zeta in Hfull. rewrite Hfull.
      match type of Hfull with
      | _ = {| Main.active_detections := _;
               Main.alert_system := Main.alert_system ?handled |} =>
          exists handled
      end.
      split; [|split; [reflexivity|]].
      + eapply follows_trans; [|apply handle_thermal_only_detections_follows].
        eapply follows_trans; [|apply handle_rf_only_detections_follows].
        apply foldl_follows. intros. apply handle_correlation_follows.
      + cbn [Main.active_detections]. intros device_id d'.
        rewrite lookup_cleanup_old_detections.
        destruct (_ !! device_id) as [d1|]; [|done].
        by case_decide. }
  destruct Hfollows as (mid & [Hrec (more & Hq & Hall)] & Halerts & Hsub).
  split.
  - intros device_id d d' Hd Hd'. apply Hsub in Hd'.
    destruct (Hrec _ _ Hd) as (d1 & Hd1 & Hcont). by simplify_eq.
  - exists more. split; [by rewrite Halerts|].
    intros alert_data Hin. by apply (proj1 (Forall_forall _ _) Hall).
Qed.

End TickInvariant.

(** ** The correlated update on a wall clock *)

Section CorrelatedUpdates.

Context (cfg : Main.Config) (now : R).

Local Abbreviation beyond_windows := (Spec.beyond_windows now).
Local Abbreviation marks_from := Spec.marks_from.

Lemma handle_correlation_epoch correlation rf_positions sys :
  now > 31 ->
  beyond_windows sys ->
  let after := Main.handle_correlation cfg now correlation rf_positions sys in
  Main.alert_system after = Main.alert_system sys /\
  beyond_windows after /\
  marks_from sys after.
Proof.
  intros Hnow Hwin after. subst after. unfold Main.handle_correlation.
  destruct (head _) as [rf_device|]; [|by split; [|split; [|intros ? ?; eauto]]].
  case_decide; [|by split; [|split; [|intros ? ?; eauto]]].
  set (device_id := RFReceiver.pos_mac_address rf_device).
  set (before := default (Main.new_detection now "rf_thermal_correlation")
                         (Main.active_detections sys !! device_id)).
  assert (Hbefore : now - INR (length (Main.positions before) + 1) > 30).
  { subst before. destruct (Main.active_detections sys !! device_id) as [d|] eqn:Hd.
    - by apply (Hwin device_id).
    - simpl. lra. }
  assert (Hflag : Main.alert_triggered before = true ->
                  exists d, Main.active_detections sys !! device_id = Some d
                            /\ Main.alert_triggered d = true).
  { subst before. destruct (Main.active_detections sys !! device_id) as [d|];
      [by eauto|done]. }
  clearbody before. clearbody device_id.
  rewrite recent_positions_nil
    by (rewrite length_app, Nat.add_comm; simpl length; rewrite Nat.add_comm; done).
  unfold Main.check_alert, Main.trigger_device_alert.
  cbn [Main.positions last].
  unfold Spec.beyond_windows, Spec.marks_from in *.
  destruct (Main.should_trigger_alert _ _ _);
    cbn [fst snd Main.alert_system Main.active_detections];
    (split; [done|]); split; intros other d';
    (destruct (decide (device_id = other)) as [<-|Hne];
     [rewrite lookup_insert_eq; intros [= <-]
     |rewrite lookup_insert_ne by done]);
    try (simpl; lra); try exact Hflag; try apply Hwin; eauto.
Qed.

Lemma handle_correlations_epoch correlations rf_positions sys :
  now > 31 ->
  beyond_windows sys ->
  let after :=
    foldl (fun sys correlation =>
             Main.handle_correlation cfg now correlation rf_positions sys)
          sys correlations in
  Main.alert_system after = Main.alert_system sys /\
  beyond_windows after /\
  marks_from sys after.
Proof.
  intros Hnow. revert sys.
  induction correlations as [|correlation rest IH]; intros sys Hwin.
  - by split; [|split; [|intros ? ?; eauto]].
  - cbn [foldl].
    destruct (handle_correlation_epoch correlation rf_positions sys Hnow Hwin)
      as (Halerts & Hwin' & Hmarks).
    destruct (IH _ Hwin') as (Halerts' & Hwin'' & Hmarks').
    split; [by rewrite Halerts'|]. split; [done|].
    intros device_id d' Hd' Hflag.
    destruct (Hmarks' _ _ Hd' Hflag) as (d1 & Hd1 & Hflag1). eauto.
Qed.

(** X16.  On a clock reading above 31 that is more than 30 beyond the
    length of every position window (every reading of [time.time()] on a
    real clock), the loop over the correlations never queues an alert and
    never marks a record as alerted, however many correlations it is given
    and however confident they are: the comprehension of
    [handle_correlation] empties the position window, and
    [trigger_device_alert] returns at once on an empty window. *)
Theorem handle_correlation_never_alerts (correlations : list Utils.Correlation)
    (rf_positions : list RFReceiver.Position_data) (sys : Main.System) :
  now > 31 ->
  (forall device_id d,
     Main.active_detections sys !! device_id = Some d ->
     now - INR (length (Main.positions d) + 1) > 30) ->
  let after :=
    foldl (fun sys correlation =>
             Main.handle_correlation cfg now correlation rf_positions sys)
          sys correlations in
  Main.alert_system after = Main.alert_system sys /\
  (forall device_id d',
     Main.active_detections after !! device_id = Some d' ->
     Main.alert_triggered d' = true ->
     exists d,
       Main.active_detections sys !! device_id = Some d /\
       Main.alert_triggered d = true).
Proof.
  intros Hnow Hwin after.
  destruct (handle_correlations_epoch correlations rf_positions sys Hnow Hwin)
    as (Halerts & _ & Hmarks).
  split; [exact Halerts|exact Hmarks].
Qed.

End CorrelatedUpdates.

(** The third correlated sample of a device, at clock reading 1000: the
    record then holds three scores of 0.9, is ten seconds old and has not
    alerted, so [should_trigger_alert] is true for it; but its position
    window is empty, no alert is queued and the record is not marked. *)
Lemma handle_correlation_never_alerts_example :
  let sys :=
    {| Main.active_detections := {[ Scenario.mac := Scenario.correlated_twice ]};
       Main.alert_system := Scenario.idle_alerts |} in
  let after :=
    foldl (fun sys correlation =>
             Main.handle_correlation Scenario.cfg 1000 correlation
               [Scenario.reported] sys)
          sys [Scenario.correlation] in
  Main.alert_system after = Scenario.idle_alerts /\
  exists d,
    Main.active_detections after !! Scenario.mac = Some d /\
    Main.positions d = [] /\
    Main.confidence_scores d = [0.9; 0.9; 0.9] /\
    Main.alert_triggered d = false /\
    Main.should_trigger_alert Scenario.cfg 1000 d = true.
Proof.
  intros sys after.
  assert (Hrecord : Main.active_detections sys !! Scenario.mac
                    = Some Scenario.correlated_twice)
    by apply lookup_singleton_eq.
  destruct (handle_correlation_never_alerts Scenario.cfg 1000
              [Scenario.correlation] [Scenario.reported] sys)
    as [Halerts Hmarks].
  { lra. }
  { intros device_id d Hd. cbn [sys Main.active_detections] in Hd.
    apply lookup_singleton_Some in Hd as [_ <-]. simpl. lra. }
  fold after in Halerts, Hmarks. split; [exact Halerts|].
  subst after. cbn [foldl] in *.
  destruct (handle_correlation_windows Scenario.cfg 1000 Scenario.correlation
              [Scenario.reported] Scenario.reported sys)
    as (d & Hd & Hpositions & Hscores & _).
  { by rewrite filter_cons_True by reflexivity. }
  { simpl. lra. }
  { change (RFReceiver.pos_mac_address Scenario.reported) with Scenario.mac.
    rewrite Hrecord. simpl. lra. }
  change (RFReceiver.pos_mac_address Scenario.reported) with Scenario.mac
    in Hd, Hscores.
  rewrite Hrecord in Hscores. cbn in Hscores.
  destruct (proj1 (handle_correlation_follows Scenario.cfg 1000
                     Scenario.correlation [Scenario.reported] sys)
              Scenario.mac Scenario.correlated_twice Hrecord)
    as (d' & Hd' & Hfirst & _ & _).
  rewrite Hd in Hd'. injection Hd' as <-.
  assert (Hflag : Main.alert_triggered d = false).
  { destruct (Main.alert_triggered d) eqn:Hmarked; [|done].
    destruct (Hmarks Scenario.mac d Hd Hmarked) as (d0 & Hd0 & Hmarked0).
    rewrite Hrecord in Hd0. injection Hd0 as <-. done. }
  exists d. split; [exact Hd|]. split; [exact Hpositions|].
  split; [exact Hscores|]. split; [exact Hflag|].
  unfold Main.should_trigger_alert. rewrite Hflag, Hfirst, Hscores.
  rewrite decide_False by (simpl; lra).
  rewrite decide_False by (simpl; lia).
  change [0.9; 0.9; 0.9] with ([] ++ [0.9; 0.9; 0.9]).
  rewrite slice_from_last_three, sum_three.
  apply bool_decide_eq_true. simpl. lra.
Defined.

(** ** The sweep within the tick *)

Lemma cleanup_old_detections_filter (now : R)
    (active : gmap string Main.Detection) :
  Main.cleanup_old_detections now active
  = filter (fun entry : string * Main.Detection =>
              now - Main.last_updated entry.2 <= 30) active.
Proof.
  apply map_eq. intros device_id. rewrite lookup_cleanup_old_detections.
  destruct (active !! device_id) as [d|] eqn:Hd.
  - case_decide.
    + symmetry. apply map_lookup_filter_None. right.
      intros d' Hd'. simplify_eq. simpl. lra.
    + symmetry. apply map_lookup_filter_Some. split; [done|]. simpl. lra.
  - symmetry. apply map_lookup_filter_None. by left.
Qed.

(** X17.  [process_detections] sweeps only when it has seen something.
    With no RF position and no hotspot it returns at once and the table is
    as it was, records older than 30 seconds included.  With an RF position
    or a hotspot, and a correlation threshold above 0, every record left in
    the table after the tick was updated at most 30 seconds before it. *)
Theorem process_detections_sweep (cfg : Main.Config)
    (thermal_cfg : ThermalDetection.Config) (now : R)
    (detected_devices : gmap string RFReceiver.Device)
    (frame : option ThermalDetection.Frame_data) (sys : Main.System) :
  let rf_positions := RFReceiver.get_estimated_positions now detected_devices in
  let thermal_hotspots := ThermalDetection.detect_hotspots thermal_cfg frame in
  let after :=
    Main.process_detections cfg thermal_cfg now detected_devices frame sys in
  (rf_positions = [] -> thermal_hotspots = [] -> after = sys) /\
  (0 < Main.correlation_threshold cfg ->
   rf_positions <> [] \/ thermal_hotspots <> [] ->
   forall device_id d,
     Main.active_detections after !! device_id = Some d ->
     now - Main.last_updated d <= 30).
Proof.
  intros rf_positions thermal_hotspots after. subst after.
  unfold Main.process_detections. fold rf_positions. fold thermal_hotspots.
  split.
  - by intros -> ->.
  - intros Hpos Hseen device_id d.
    rewrite correlate_rf_thermal_positive by done.
    assert (Hswept : forall active : gmap string Main.Detection,
      Main.cleanup_old_detections now active !! device_id = Some d ->
      now - Main.last_updated d <= 30).
    { intros active. rewrite lookup_cleanup_old_detections.
      destruct (active !! device_id) as [d'|]; [|done].
      case_decide; [done|]. intros [= <-]. lra. }
    destruct rf_positions as [|pos_data rest];
      [destruct thermal_hotspots as [|hotspot hotspots]; [by destruct Hseen|]|];
      apply Hswept.
Qed.

Lemma process_detections_idle_keeps_stale_record :
  Main.process_detections Scenario.cfg Scenario.thermal_cfg 1000 ∅ None
    {| Main.active_detections := {[ Scenario.mac := Scenario.record_D ]};
       Main.alert_system := Scenario.idle_alerts |}
  = {| Main.active_detections := {[ Scenario.mac := Scenario.record_D ]};
       Main.alert_system := Scenario.idle_alerts |}.
Proof.
  by apply (proj1 (process_detections_sweep Scenario.cfg Scenario.thermal_cfg
                     1000 ∅ None _)).
Defined.

(** X18.  The sweep is a filter on the age of the records, so sweeping
    twice at one time is sweeping once, a sweep at a later time makes an
    earlier one redundant, and a sweep never adds or changes a record. *)
Theorem cleanup_old_detections_idempotent (now later : R)
    (active : gmap string Main.Detection) :
  Main.cleanup_old_detections now (Main.cleanup_old_detections now active)
  = Main.cleanup_old_detections now active /\
  (now <= later ->
   Main.cleanup_old_detections later (Main.cleanup_old_detections now active)
   = Main.cleanup_old_detections later active) /\
  Main.cleanup_old_detections now active ⊆ active.
Proof.
  assert (Hlater : forall t, now <= t ->
    Main.cleanup_old_detections t (Main.cleanup_old_detections now active)
    = Main.cleanup_old_detections t active).
  { intros t Ht. apply map_eq. intros device_id.
    rewrite !lookup_cleanup_old_detections.
    destruct (active !! device_id) as [d|]; [|done].
    destruct (decide (now - Main.last_updated d > 30)) as [Hold|Hyoung]; [|done].
    by rewrite decide_True by lra. }
  split; [apply Hlater; lra|]. split; [apply Hlater|].
  rewrite cleanup_old_detections_filter. apply map_filter_subseteq.
Qed.

(** ** Windows under the uncorrelated updates *)

Lemma correlate_rf_thermal_no_hotspots rf_positions threshold :
  Utils.correlate_rf_thermal rf_positions [] threshold = Some [].
Proof.
  unfold Utils.correlate_rf_thermal.
  rewrite (mapM_total _ (fun _ => [])); [|by intros [rf_pos|] _].
  cbn [fmap option_fmap option_map]. f_equal. apply mjoin_fmap_nil.
Qed.

Lemma cleanup_old_detections_parallel now sys :
  Spec.all_parallel sys ->
  Spec.all_parallel
    {| Main.active_detections :=
         Main.cleanup_old_detections now (Main.active_detections sys);
       Main.alert_system := Main.alert_system sys |}.
Proof.
  intros Hsys device_id d. cbn [Main.active_detections].
  rewrite lookup_cleanup_old_detections.
  destruct (Main.active_detections sys !! device_id) as [d'|] eqn:Hd; [|done].
  case_decide; [done|]. intros [= <-]. by apply (Hsys device_id).
Qed.

(** X19.  The RF-only update, the thermal-only update and the sweep keep
    the position window and the confidence window of every record at one
    length, if they were so before; and so does a whole run of
    [process_detections] that has no thermal frame to look at, where no
    correlation can arise. *)
Theorem uncorrelated_updates_keep_windows (cfg : Main.Config) (now : R)
    (rf_positions : list RFReceiver.Position_data)
    (thermal_hotspots : list ThermalDetection.Hotspot)
    (correlations : list Utils.Correlation) (sys : Main.System) :
  Spec.all_parallel sys ->
  Spec.all_parallel
    (Main.handle_rf_only_detections cfg now rf_positions correlations sys) /\
  Spec.all_parallel
    (Main.handle_thermal_only_detections cfg now thermal_hotspots correlations
       sys) /\
  Spec.all_parallel
    {| Main.active_detections :=
         Main.cleanup_old_detections now (Main.active_detections sys);
       Main.alert_system := Main.alert_system sys |} /\
  forall thermal_cfg detected_devices,
    Spec.all_parallel
      (Main.process_detections cfg thermal_cfg now detected_devices None sys).
Proof.
  intros Hsys.
  split; [by apply handle_rf_only_detections_parallel|].
  split; [by apply handle_thermal_only_detections_parallel|].
  split; [by apply cleanup_old_detections_parallel|].
  intros thermal_cfg detected_devices. unfold Main.process_detections.
  cbn [ThermalDetection.detect_hotspots].
  rewrite correlate_rf_thermal_no_hotspots.
  destruct (RFReceiver.get_estimated_positions now detected_devices)
    as [|pos_data rest]; [done|].
  cbn [foldl Main.handle_thermal_only_detections].
  apply cleanup_old_detections_parallel.
  by apply handle_rf_only_detections_parallel.
Qed.

Lemma rf_only_update_keeps_windows :
  Spec.all_parallel
    (Main.handle_rf_only_detections Scenario.cfg 10
       [ {| RFReceiver.pos_mac_address := Scenario.mac;
            RFReceiver.pos_position := (55, 50);
            RFReceiver.pos_confidence := 1 |} ] []
       {| Main.active_detections := {[ Scenario.mac := Scenario.record_D ]};
          Main.alert_system := Scenario.idle_alerts |}).
Proof.
  refine (proj1 (uncorrelated_updates_keep_windows Scenario.cfg 10
                   [ {| RFReceiver.pos_mac_address := Scenario.mac;
                        RFReceiver.pos_position := (55, 50);
                        RFReceiver.pos_confidence := 1 |} ] [] []
                   {| Main.active_detections :=
                        {[ Scenario.mac := Scenario.record_D ]};
                      Main.alert_system := Scenario.idle_alerts |} _)).
  intros device_id d Hd. cbn [Main.active_detections] in Hd.
  apply lookup_singleton_Some in Hd as [_ <-]. reflexivity.
Defined.

(** ** Evidence that cannot reach the threshold *)

Lemma foldl_unchanged {A B} (f : A -> B -> A) (l : list B) (a : A) :
  (forall a x, x ∈ l -> f a x = a) -> foldl f a l = a.
Proof.
  revert a. induction l as [|x l IH]; intros a Hf; [done|].
  simpl. rewrite Hf by left. apply IH. intros ? ? ?. apply Hf. by right.
Qed.

(** X20.  An uncorrelated detection is scaled down before it is compared
    with the confidence threshold, by 0.6 for a hotspot and by 0.7 for an RF
    position.  So with a threshold above 0.6 the thermal-only update records
    nothing for the hotspots [detect_hotspots] reports, and with a threshold
    above 0.7 the RF-only update records nothing for the positions
    [get_estimated_positions] reports: the table and the alert system are
    left as they were. *)
Theorem uncorrelated_evidence_below_threshold (cfg : Main.Config)
    (thermal_cfg : ThermalDetection.Config) (now : R)
    (detected_devices : gmap string RFReceiver.Device)
    (frame : option ThermalDetection.Frame_data)
    (correlations : list Utils.Correlation) (sys : Main.System) :
  (Main.confidence_threshold cfg > 0.6 ->
   Main.handle_thermal_only_detections cfg now
     (ThermalDetection.detect_hotspots thermal_cfg frame) correlations sys
   = sys) /\
  (Main.confidence_threshold cfg > 0.7 ->
   Main.handle_rf_only_detections cfg now
     (RFReceiver.get_estimated_positions now detected_devices) correlations sys
   = sys).
Proof.
  split; intros Hthreshold.
  - unfold Main.handle_thermal_only_detections. apply foldl_unchanged.
    intros sys' hotspot Hin. case_decide; [|done].
    apply detect_hotspots_unit in Hin as [_ Hle].
    rewrite decide_False; [done|]. unfold Main.thermal_only_confidence. lra.
  - unfold Main.handle_rf_only_detections. apply foldl_unchanged.
    intros sys' pos_data Hin. case_decide; [|done].
    apply elem_of_get_estimated_positions in Hin as (device & _ & _ & _ & Hconf).
    destruct (position_confidence_unit device) as [_ Hle].
    rewrite decide_False; [done|]. unfold Main.rf_only_confidence.
    rewrite Hconf. lra.
Qed.

Lemma thermal_only_below_threshold_example :
  Main.handle_thermal_only_detections Scenario.cfg 1000
    (ThermalDetection.detect_hotspots Scenario.thermal_cfg
       (Some Scenario.warm_frame)) [] Scenario.empty_system
  = Scenario.empty_system.
Proof.
  apply (proj1 (uncorrelated_evidence_below_threshold Scenario.cfg
                  Scenario.thermal_cfg 1000 ∅ (Some Scenario.warm_frame) []
                  Scenario.empty_system)).
  simpl. lra.
Defined.

(** ** Scanners behind a position estimate *)

Lemma strongest_per_esp32_snoc (l : list RFReceiver.Detection_data)
    (detection : RFReceiver.Detection_data) :
  RFReceiver.strongest_per_esp32 (l ++ [detection])
  = match RFReceiver.strongest_per_esp32 l !! RFReceiver.esp32_id detection with
    | None =>
        <[RFReceiver.esp32_id detection := detection]>
          (RFReceiver.strongest_per_esp32 l)
    | Some held =>
        if decide (RFReceiver.rssi detection > RFReceiver.rssi held)%Z
        then <[RFReceiver.esp32_id detection := detection]>
               (RFReceiver.strongest_per_esp32 l)
        else RFReceiver.strongest_per_esp32 l
    end.
Proof. unfold RFReceiver.strongest_per_esp32. by rewrite foldl_app. Qed.

Lemma strongest_per_esp32_lookup (l : list RFReceiver.Detection_data) (id : nat) :
  match RFReceiver.strongest_per_esp32 l !! id with
  | None => forall d, d ∈ l -> RFReceiver.esp32_id d <> id
  | Some held =>
      held ∈ l /\ RFReceiver.esp32_id held = id /\
      forall d, d ∈ l -> RFReceiver.esp32_id d = id ->
                (RFReceiver.rssi d <= RFReceiver.rssi held)%Z
  end.
Proof.
  induction l as [|x l IH] using rev_ind.
  - unfold RFReceiver.strongest_per_esp32. cbn [foldl]. rewrite lookup_empty.
    by intros d ?%elem_of_nil.
  - rewrite strongest_per_esp32_snoc.
    destruct (decide (RFReceiver.esp32_id x = id)) as [Hid|Hid].
    + rewrite Hid.
      destruct (RFReceiver.strongest_per_esp32 l !! id) as [held|] eqn:Hheld.
      * destruct IH as (Hin & Hheld_id & Hmax). case_decide as Hgt.
        -- rewrite lookup_insert_eq. split; [set_solver|]. split; [done|].
           intros d [Hd| ->%list_elem_of_singleton]%elem_of_app Hd_id; [|lia].
           specialize (Hmax d Hd Hd_id). lia.
        -- rewrite Hheld. split; [set_solver|]. split; [done|].
           intros d [Hd| ->%list_elem_of_singleton]%elem_of_app Hd_id; [|lia].
           by apply Hmax.
      * rewrite lookup_insert_eq. split; [set_solver|]. split; [done|].
        intros d [Hd| ->%list_elem_of_singleton]%elem_of_app Hd_id; [|lia].
        by destruct (IH d Hd).
    + assert (Hsame :
        match RFReceiver.strongest_per_esp32 l !! RFReceiver.esp32_id x with
        | None =>
            <[RFReceiver.esp32_id x := x]> (RFReceiver.strongest_per_esp32 l)
        | Some held =>
            if decide (RFReceiver.rssi x > RFReceiver.rssi held)%Z
            then <[RFReceiver.esp32_id x := x]> (RFReceiver.strongest_per_esp32 l)
            else RFReceiver.strongest_per_esp32 l
        end !! id = RFReceiver.strongest_per_esp32 l !! id).
      { destruct (_ !! RFReceiver.esp32_id x); [case_decide|];
          by rewrite ?lookup_insert_ne. }
      rewrite Hsame.
      destruct (RFReceiver.strongest_per_esp32 l !! id) as [held|].
      * destruct IH as (Hin & Hheld_id & Hmax). split; [set_solver|].
        split; [done|].
        intros d [Hd| ->%list_elem_of_singleton]%elem_of_app Hd_id; [|done].
        by apply Hmax.
      * intros d [Hd| ->%list_elem_of_singleton]%elem_of_app; [|done].
        by apply IH.
Qed.

Lemma strongest_per_esp32_dom (l : list RFReceiver.Detection_data) :
  dom (RFReceiver.strongest_per_esp32 l)
  = (list_to_set (RFReceiver.esp32_id <$> l) : gset nat).
Proof.
  apply set_eq. intros id. rewrite elem_of_dom, elem_of_list_to_set,
    list_elem_of_fmap.
  pose proof (strongest_per_esp32_lookup l id) as Hlook.
  destruct (RFReceiver.strongest_per_esp32 l !! id) as [held|]; split.
  - intros _. destruct Hlook as (Hin & Hid & _). eauto.
  - by eauto.
  - by intros [? ?].
  - intros (d & -> & Hd). by destruct (Hlook d Hd).
Qed.

(** X21.  The first loop of [_estimate_device_position] keeps, for every
    scanner that heard the device, one of its observations with the
    strongest signal, which need not be the most recent one; it holds an
    entry for exactly the scanners that occur in the window, so the number of
    entries is the number of distinct scanners. *)
Theorem strongest_per_esp32_strongest
    (recent_detections : list RFReceiver.Detection_data) :
  let esp32_rssi := RFReceiver.strongest_per_esp32 recent_detections in
  (forall id held,
     esp32_rssi !! id = Some held ->
     held ∈ recent_detections /\ RFReceiver.esp32_id held = id /\
     forall d,
       d ∈ recent_detections -> RFReceiver.esp32_id d = id ->
       (RFReceiver.rssi d <= RFReceiver.rssi held)%Z) /\
  (forall id,
     esp32_rssi !! id = None <->
     forall d, d ∈ recent_detections -> RFReceiver.esp32_id d <> id) /\
  size esp32_rssi
  = size (list_to_set (RFReceiver.esp32_id <$> recent_detections) : gset nat).
Proof.
  intros esp32_rssi. subst esp32_rssi. split; [|split].
  - intros id held Hheld.
    pose proof (strongest_per_esp32_lookup recent_detections id) as Hlook.
    by rewrite Hheld in Hlook.
  - intros id.
    pose proof (strongest_per_esp32_lookup recent_detections id) as Hlook.
    destruct (RFReceiver.strongest_per_esp32 recent_detections !! id)
      as [held|]; split; try done.
    intros Hnone. destruct Hlook as (Hin & Hid & _). by destruct (Hnone held).
  - by rewrite <- strongest_per_esp32_dom, size_dom.
Qed.

(** X22.  [_estimate_device_position] leaves the table as it is for a
    device it does not know and for a device heard by fewer than three
    distinct scanners within its window.  When it does change the table, at
    least three distinct scanners heard the device, and the only change is
    the estimated position of that device. *)
Theorem estimate_needs_three_scanners (mac : string)
    (detected_devices : gmap string RFReceiver.Device) :
  let after := RFReceiver._estimate_device_position mac detected_devices in
  (detected_devices !! mac = None -> after = detected_devices) /\
  (forall device,
     detected_devices !! mac = Some device ->
     let scanners :=
       size (list_to_set (RFReceiver.esp32_id <$> RFReceiver.detections device)
               : gset nat) in
     ((scanners < 3)%nat -> after = detected_devices) /\
     (after = detected_devices
      \/ (3 <= scanners)%nat /\
         exists estimated_pos,
           after
           = <[mac := {| RFReceiver.first_seen := RFReceiver.first_seen device;
                         RFReceiver.last_seen := RFReceiver.last_seen device;
                         RFReceiver.detections := RFReceiver.detections device;
                         RFReceiver.estimated_position := Some estimated_pos |}]>
               detected_devices)).
Proof.
  intros after. subst after. unfold RFReceiver._estimate_device_position. split.
  - by intros ->.
  - intros device ->. cbv zeta.
    rewrite <- strongest_per_esp32_dom, size_dom.
    case_decide as Hsize.
    + split; [lia|].
      destruct (Utils.trilaterate _ _) as [estimated_pos|]; [|by left].
      right. split; [lia|]. by exists estimated_pos.
    + split; [done|by left].
Qed.

(** X23.  [_update_device_tracking] touches only the entry of the observed
    device.  That entry keeps its [first_seen] (a new entry gets the time of
    the observation), and an entry that had a position estimate still has one
    afterwards: a failed or skipped trilateration leaves the old estimate in
    place.  A device observed for the first time has the one observation in
    its window and no estimate. *)
Theorem update_device_tracking_keeps (detection : RFReceiver.Detection_data)
    (detected_devices : gmap string RFReceiver.Device) :
  let mac := RFReceiver.mac_address detection in
  let after := RFReceiver._update_device_tracking detection detected_devices in
  (forall other, other <> mac -> after !! other = detected_devices !! other) /\
  exists device',
    after !! mac = Some device' /\
    RFReceiver.first_seen device'
    = from_option RFReceiver.first_seen (RFReceiver.timestamp detection)
        (detected_devices !! mac) /\
    (forall device,
       detected_devices !! mac = Some device ->
       is_Some (RFReceiver.estimated_position device) ->
       is_Some (RFReceiver.estimated_position device')) /\
    (detected_devices !! mac = None ->
     RFReceiver.detections device' = [detection] /\
     RFReceiver.estimated_position device' = None).
Proof.
  intros mac after. subst after. unfold RFReceiver._update_device_tracking.
  fold mac.
  set (device0 := default _ (detected_devices !! mac)).
  assert (Hfirst : RFReceiver.first_seen device0
                   = from_option RFReceiver.first_seen
                       (RFReceiver.timestamp detection) (detected_devices !! mac))
    by (subst device0; by destruct (detected_devices !! mac)).
  assert (Hestimate : forall device,
    detected_devices !! mac = Some device ->
    RFReceiver.estimated_position device0 = RFReceiver.estimated_position device)
    by (intros device Hd; subst device0; by rewrite Hd).
  assert (Hnew : detected_devices !! mac = None ->
    filter (fun d => RFReceiver.timestamp d
                     > RFReceiver.timestamp detection - 30)
           (RFReceiver.detections device0 ++ [detection]) = [detection]
    /\ RFReceiver.estimated_position device0 = None).
  { intros Hd. subst device0. rewrite Hd.
    cbn [from_option Datatypes.id RFReceiver.detections
         RFReceiver.estimated_position app].
    by rewrite filter_cons_True, filter_nil by lra. }
  clearbody device0.
  unfold RFReceiver._estimate_device_position. rewrite lookup_insert_eq.
  cbn [RFReceiver.detections RFReceiver.first_seen RFReceiver.last_seen].
  case_decide as Hsize; [destruct (Utils.trilaterate _ _) as [estimated_pos|]|].
  - split; [by intros other Hne; rewrite !lookup_insert_ne|].
    eexists. rewrite lookup_insert_eq. split; [done|]. split; [done|].
    split; [by eauto|].
    intros Hd. destruct (Hnew Hd) as [Hwindow _]. exfalso.
    rewrite Hwindow in Hsize.
    rewrite <- size_dom, strongest_per_esp32_dom in Hsize.
    cbn in Hsize. rewrite (right_id_L ∅ (∪)), size_singleton in Hsize. lia.
  - split; [by intros other Hne; rewrite lookup_insert_ne|].
    eexists. rewrite lookup_insert_eq. split; [done|]. split; [done|].
    split; [|done].
    intros device Hd. cbn. by rewrite (Hestimate device Hd).
  - split; [by intros other Hne; rewrite lookup_insert_ne|].
    eexists. rewrite lookup_insert_eq. split; [done|]. split; [done|].
    split; [|done].
    intros device Hd. cbn. by rewrite (Hestimate device Hd).
Qed.

(** ** From a scanner line to a tracked device *)

Lemma read_esp32_data_parse esp32_id raw_line now data_queue :
  RFReceiver._read_esp32_data esp32_id raw_line now data_queue
  = RFReceiver._parse_esp32_data esp32_id (Py.strip raw_line) now data_queue.
Proof.
  unfold RFReceiver._read_esp32_data.
  by destruct (Py.strip raw_line).
Qed.

(** X24.  A line read from a scanner, stripped of surrounding white space:
    when it is one the parser takes, one round of [_process_data] empties
    the queue again and leaves the device in the table, under the identifier
    made of fields 2 to 7, with the observation last in its window and
    [last_seen] at the time of reading, so that [get_detected_devices]
    reports the device for the next 10 seconds.  Any other line, an empty
    one included, puts nothing on the queue and the table stays as it
    was. *)
Theorem received_line_tracks_device (esp32_id : nat) (raw_line : string)
    (now : R) (detected_devices : gmap string RFReceiver.Device) :
  let line := Py.strip raw_line in
  let data_queue := RFReceiver._read_esp32_data esp32_id raw_line now [] in
  let processed := RFReceiver._process_data data_queue detected_devices in
  (Spec.accepted esp32_id line ->
   processed.1 = [] /\
   exists detection device,
     data_queue = [detection] /\
     RFReceiver.mac_address detection
     = Py.join ":" (Py.slice 1 7 (Py.split ":" line)) /\
     processed.2 !! RFReceiver.mac_address detection = Some device /\
     RFReceiver.last_seen device = now /\
     last (RFReceiver.detections device) = Some detection /\
     forall t,
       t - now <= 10 ->
       RFReceiver.get_detected_devices t processed.2
         !! RFReceiver.mac_address detection = Some device) /\
  (~ Spec.accepted esp32_id line ->
   data_queue = [] /\ processed = ([], detected_devices)).
Proof.
  intros line data_queue processed. subst processed data_queue.
  rewrite read_esp32_data_parse. fold line.
  unfold RFReceiver._parse_esp32_data. split.
  - intros Hacc.
    destruct (parse_line_accepted esp32_id line now Hacc)
      as (field & rssi & position & _ & _ & _ & ->).
    cbn [app RFReceiver._process_data fst snd].
    split; [done|].
    match goal with
    | |- context [RFReceiver._update_device_tracking ?d _] =>
        set (detection := d);
        destruct (update_device_tracking_lookup detection detected_devices)
          as (device & Hlook & Hseen & Hwindow)
    end.
    exists detection, device. split; [done|]. split; [done|].
    split; [exact Hlook|]. split; [exact Hseen|].
    split; [rewrite Hwindow; apply last_snoc|].
    intros t Ht. unfold RFReceiver.get_detected_devices.
    apply map_lookup_filter_Some. split; [exact Hlook|].
    cbn [snd]. rewrite Hseen. exact Ht.
  - intros Hrej.
    by destruct (parse_line_rejected esp32_id line now Hrej) as [-> | ->].
Qed.

Lemma received_line_tracks_device_example :
  (RFReceiver._process_data
     (RFReceiver._read_esp32_data 0 "DEVICE:AA:BB:CC:DD:EE:FF:-45:WiFi " 1000 [])
     ∅).1 = [].
Proof.
  apply (proj1 (received_line_tracks_device 0
                  "DEVICE:AA:BB:CC:DD:EE:FF:-45:WiFi " 1000 ∅)).
  split; [reflexivity|]. exists "-45". split; [reflexivity|].
  split; [by eexists|]. simpl. lia.
Defined.

(** ** Reported positions *)

Lemma NoDup_omap_keys {A B} (f : string * A -> option B) (key : B -> string)
    (l : list (string * A)) :
  (forall entry b, f entry = Some b -> key b = entry.1) ->
  NoDup l.*1 -> NoDup (key <$> omap f l).
Proof.
  intros Hkey. induction l as [|entry l IH]; [constructor|].
  intros [Hnew Hrest]%NoDup_cons. cbn [omap list_omap].
  destruct (f entry) as [b|] eqn:Hb; [|by apply IH].
  cbn [fmap list_fmap]. apply NoDup_cons. split; [|by apply IH].
  intros (b' & Hkb & (entry' & Hin & Hb')%list_elem_of_omap)%list_elem_of_fmap.
  apply Hnew. apply list_elem_of_fmap. exists entry'. split; [|done].
  rewrite <- (Hkey _ _ Hb), Hkb. by apply Hkey.
Qed.

(** X25.  [get_estimated_positions] reports every device that has a
    position estimate and was last seen at most 10 seconds ago, with that
    estimate and the confidence [_calculate_position_confidence] gives it;
    no identifier is reported twice, and there are at most as many entries
    as devices in the table. *)
Theorem get_estimated_positions_complete (now : R)
    (detected_devices : gmap string RFReceiver.Device) :
  (forall mac device p,
     detected_devices !! mac = Some device ->
     now - RFReceiver.last_seen device <= 10 ->
     RFReceiver.estimated_position device = Some p ->
     {| RFReceiver.pos_mac_address := mac;
        RFReceiver.pos_position := p;
        RFReceiver.pos_confidence :=
          RFReceiver._calculate_position_confidence device |}
       ∈ RFReceiver.get_estimated_positions now detected_devices) /\
  NoDup (RFReceiver.pos_mac_address
           <$> RFReceiver.get_estimated_positions now detected_devices) /\
  (length (RFReceiver.get_estimated_positions now detected_devices)
   <= size detected_devices)%nat.
Proof.
  split; [|split].
  - intros mac device p Hd Hrecent Hp. apply elem_of_get_estimated_positions.
    exists device. by repeat split.
  - unfold RFReceiver.get_estimated_positions. apply NoDup_omap_keys.
    + intros [mac device] b. cbn [fst snd].
      destruct (RFReceiver.estimated_position device); [|done].
      by intros [= <-].
    + apply NoDup_fst_map_to_list.
  - unfold RFReceiver.get_estimated_positions.
    etrans; [apply omap_length_le|].
    rewrite length_map_to_list. unfold RFReceiver.get_detected_devices.
    apply map_size_filter.
Qed.

(** ** Executing an alert *)

Lemma GPIO_outputs_set_up (writes : list (nat * AlertSystem.Level))
    (gpio : AlertSystem.GPIO) :
  (forall w, w ∈ writes -> is_Some (gpio !! w.1)) ->
  AlertSystem.GPIO_outputs writes gpio
  = (true, foldl (fun g w => <[w.1 := w.2]> g) gpio writes).
Proof.
  revert gpio. induction writes as [|[pin level] rest IH]; intros gpio Hup;
    [done|].
  cbn [AlertSystem.GPIO_outputs foldl fst snd].
  destruct (Hup (pin, level)) as [held Hheld]; [left|].
  unfold AlertSystem.GPIO_output. cbn [fst] in Hheld. rewrite Hheld.
  apply IH. intros w Hw. destruct (decide (w.1 = pin)) as [->|Hne].
  - rewrite lookup_insert_eq. by eexists.
  - rewrite lookup_insert_ne by done. apply Hup. by right.
Qed.

Lemma writes_end_low (gpio : AlertSystem.GPIO)
    (writes : list (nat * AlertSystem.Level)) (a b c pin : nat) :
  pin = a \/ pin = b \/ pin = c ->
  foldl (fun g w => <[w.1 := w.2]> g) gpio
        (writes ++ [(a, AlertSystem.LOW); (b, AlertSystem.LOW);
                    (c, AlertSystem.LOW)]) !! pin
  = Some AlertSystem.LOW.
Proof.
  intros Hpin. rewrite foldl_app. cbn [foldl fst snd].
  destruct (decide (pin = c)) as [->|Hc]; [by rewrite lookup_insert_eq|].
  rewrite lookup_insert_ne by done.
  destruct (decide (pin = b)) as [->|Hb]; [by rewrite lookup_insert_eq|].
  rewrite lookup_insert_ne by done.
  destruct (decide (pin = a)) as [->|Ha]; [by rewrite lookup_insert_eq|].
  by destruct Hpin as [?|[?|?]].
Qed.

Lemma writes_other_pin (gpio : AlertSystem.GPIO)
    (writes : list (nat * AlertSystem.Level)) (pin : nat) :
  (forall w, w ∈ writes -> w.1 <> pin) ->
  foldl (fun g w => <[w.1 := w.2]> g) gpio writes !! pin = gpio !! pin.
Proof.
  revert gpio. induction writes as [|w rest IH]; intros gpio Hother; [done|].
  cbn [foldl]. rewrite IH by (intros ? ?; apply Hother; by right).
  apply lookup_insert_ne, Hother. left.
Qed.

(** A cycle that is run at least once begins as the cycle begins and ends
    as it ends. *)
Lemma repeated_cycle_shape {A} (h1 h2 : A) (middle ending : list A) (n : nat) :
  exists between,
    mjoin (replicate (S n) (h1 :: h2 :: middle ++ ending))
    = h1 :: h2 :: between ++ ending.
Proof.
  induction n as [|n [between IH]].
  - exists middle. cbn. by rewrite app_nil_r.
  - exists (between ++ ending ++ h1 :: h2 :: middle).
    rewrite replicate_S_end, join_app, IH. cbn [mjoin list_join].
    rewrite app_nil_r. cbn [app]. do 2 f_equal.
    by rewrite <- !(assoc_L (++)).
Qed.

(** When an alert pattern writes at all, and what it writes first and
    last. *)
Lemma alert_pattern_shape (alert_type : string) (cycles : nat)
    (s : AlertSystem.State) :
  let ran :=
    alert_type = "test_alert"
    \/ (alert_type = "device_detected" \/ alert_type = "high_confidence")
       /\ AlertSystem.running s = true /\ (0 < cycles)%nat in
  (~ ran -> AlertSystem.alert_pattern alert_type cycles s = []) /\
  (ran ->
   exists between a b c,
     AlertSystem.alert_pattern alert_type cycles s
     = (AlertSystem.laser_pin s, AlertSystem.HIGH)
         :: (AlertSystem.led_pin s, AlertSystem.HIGH)
         :: between ++ [(a, AlertSystem.LOW); (b, AlertSystem.LOW);
                        (c, AlertSystem.LOW)] /\
     forall pin,
       pin = AlertSystem.laser_pin s \/ pin = AlertSystem.buzzer_pin s
       \/ pin = AlertSystem.led_pin s ->
       pin = a \/ pin = b \/ pin = c).
Proof.
  intros ran. subst ran. unfold AlertSystem.alert_pattern.
  destruct (decide (alert_type = "device_detected")) as [->|Hdd].
  - unfold AlertSystem._device_detected_alert.
    destruct (AlertSystem.running s) eqn:Hrun;
      [destruct cycles as [|n]|]; split; try done;
      try (by intros [?|(_ & ? & ?)]; [done|done || lia]).
    + intros Hnot. exfalso. apply Hnot. right. split; [by left|]. split; [done|lia].
    + intros _.
      destruct (repeated_cycle_shape
                  (AlertSystem.laser_pin s, AlertSystem.HIGH)
                  (AlertSystem.led_pin s, AlertSystem.HIGH)
                  [(AlertSystem.buzzer_pin s, AlertSystem.HIGH)]
                  [(AlertSystem.buzzer_pin s, AlertSystem.LOW);
                   (AlertSystem.laser_pin s, AlertSystem.LOW);
                   (AlertSystem.led_pin s, AlertSystem.LOW)] n)
        as [between Hshape].
      exists between, (AlertSystem.buzzer_pin s), (AlertSystem.laser_pin s),
        (AlertSystem.led_pin s).
      split; [exact Hshape|]. tauto.
  - destruct (decide (alert_type = "high_confidence")) as [->|Hhc].
    + unfold AlertSystem._high_confidence_alert.
      destruct (AlertSystem.running s) eqn:Hrun;
        [destruct cycles as [|n]|]; split; try done;
        try (by intros [?|(_ & ? & ?)]; [done|done || lia]).
      * intros Hnot. exfalso. apply Hnot. right.
        split; [by right|]. split; [done|lia].
      * intros _.
        destruct (repeated_cycle_shape
                    (AlertSystem.laser_pin s, AlertSystem.HIGH)
                    (AlertSystem.led_pin s, AlertSystem.HIGH)
                    [(AlertSystem.buzzer_pin s, AlertSystem.HIGH)]
                    [(AlertSystem.laser_pin s, AlertSystem.LOW);
                     (AlertSystem.led_pin s, AlertSystem.LOW);
                     (AlertSystem.buzzer_pin s, AlertSystem.LOW)] 4)
          as [flashes Hflashes].
        change (_ :: _ :: [_] ++ [_; _; _])
          with (AlertSystem.high_confidence_flash s) in Hflashes.
        rewrite Hflashes.
        destruct (repeated_cycle_shape
                    (AlertSystem.laser_pin s, AlertSystem.HIGH)
                    (AlertSystem.led_pin s, AlertSystem.HIGH)
                    flashes
                    [(AlertSystem.laser_pin s, AlertSystem.LOW);
                     (AlertSystem.led_pin s, AlertSystem.LOW);
                     (AlertSystem.buzzer_pin s, AlertSystem.LOW)] n)
          as [between Hshape].
        exists between, (AlertSystem.laser_pin s), (AlertSystem.led_pin s),
          (AlertSystem.buzzer_pin s).
        split; [exact Hshape|]. tauto.
    + destruct (decide (alert_type = "test_alert")) as [->|Hta]; split.
      * intros Hnot. exfalso. apply Hnot. by left.
      * intros _.
        exists [(AlertSystem.buzzer_pin s, AlertSystem.HIGH)],
          (AlertSystem.laser_pin s), (AlertSystem.led_pin s),
          (AlertSystem.buzzer_pin s).
        split; [reflexivity|]. tauto.
      * done.
      * intros [?|([?|?] & _)]; done.
Qed.

Lemma alert_pattern_pins (alert_type : string) (cycles : nat)
    (s : AlertSystem.State) (w : nat * AlertSystem.Level) :
  w ∈ AlertSystem.alert_pattern alert_type cycles s ->
  w.1 = AlertSystem.laser_pin s \/ w.1 = AlertSystem.buzzer_pin s
  \/ w.1 = AlertSystem.led_pin s.
Proof.
  assert (Hflash : w ∈ AlertSystem.high_confidence_flash s ->
    w.1 = AlertSystem.laser_pin s \/ w.1 = AlertSystem.buzzer_pin s
    \/ w.1 = AlertSystem.led_pin s).
  { unfold AlertSystem.high_confidence_flash.
    rewrite !elem_of_cons, elem_of_nil. intros [->|[->|[->|[->|[->|[->|[]]]]]]];
      cbn; tauto. }
  unfold AlertSystem.alert_pattern, AlertSystem._device_detected_alert,
    AlertSystem._high_confidence_alert.
  case_decide; [|case_decide; [|case_decide]].
  - destruct (AlertSystem.running s); [|by intros ?%elem_of_nil].
    intros (cycle & Hw & ->%elem_of_replicate_inv)%list_elem_of_join.
    revert Hw. unfold AlertSystem.device_detected_cycle.
    rewrite !elem_of_cons, elem_of_nil. intros [->|[->|[->|[->|[->|[->|[]]]]]]];
      cbn; tauto.
  - destruct (AlertSystem.running s); [|by intros ?%elem_of_nil].
    intros (cycle & Hw & ->%elem_of_replicate_inv)%list_elem_of_join.
    apply list_elem_of_join in Hw as (flash & Hw & ->%elem_of_replicate_inv).
    by apply Hflash.
  - exact Hflash.
  - by intros ?%elem_of_nil.
Qed.

Lemma point_laser_state position image_width image_height s servos :
  (AlertSystem.point_laser_at_position position image_width image_height
     s servos).1 = s
  \/ exists x_angle y_angle,
       (AlertSystem.point_laser_at_position position image_width image_height
          s servos).1 = AlertSystem.set_angles x_angle y_angle s.
Proof.
  unfold AlertSystem.point_laser_at_position.
  destruct (AlertSystem.laser_angles _ _ _) as [angles|]; [|by left].
  destruct (move_servo_state (IZR angles.1) (IZR angles.2) s servos)
    as [-> | ->]; [right; by eauto|by left].
Qed.

(** The dispatcher state when the pattern of [_execute_alert] starts. *)
Lemma execute_alert_pointed (target_pos : option (R * R))
    (s : AlertSystem.State) (servos : AlertSystem.Servos) :
  let pointed :=
    match target_pos with
    | Some position =>
        AlertSystem.point_laser_at_position position 32 24
          (AlertSystem.set_active true target_pos s) servos
    | None => (AlertSystem.set_active true target_pos s, servos)
    end in
  AlertSystem.laser_pin pointed.1 = AlertSystem.laser_pin s /\
  AlertSystem.buzzer_pin pointed.1 = AlertSystem.buzzer_pin s /\
  AlertSystem.led_pin pointed.1 = AlertSystem.led_pin s /\
  AlertSystem.running pointed.1 = AlertSystem.running s /\
  AlertSystem.alert_queue pointed.1 = AlertSystem.alert_queue s /\
  AlertSystem.current_target pointed.1 = target_pos.
Proof.
  destruct target_pos as [position|]; cbv zeta; [|done].
  destruct (point_laser_state position 32 24
              (AlertSystem.set_active true (Some position) s) servos)
    as [-> | (x_angle & y_angle & ->)]; done.
Qed.

(** X26.  [_execute_alert] with the three output pins set up: whatever the
    request, it ends with [alert_active] false and no current target and
    does not touch the queue.  When the pattern runs at all (a test alert,
    or a device_detected or high_confidence alert that gets at least one
    cycle while the dispatcher is running), the laser, the buzzer and the LED
    are all low at the end, however long the pattern ran; otherwise no
    output is written.  No other channel is ever written. *)
Theorem execute_alert_switches_off (alert_data : AlertSystem.Alert_data)
    (cycles : nat) (s : AlertSystem.State) (servos : AlertSystem.Servos)
    (gpio : AlertSystem.GPIO) :
  is_Some (gpio !! AlertSystem.laser_pin s) ->
  is_Some (gpio !! AlertSystem.buzzer_pin s) ->
  is_Some (gpio !! AlertSystem.led_pin s) ->
  let after := AlertSystem._execute_alert alert_data cycles s servos gpio in
  let ran :=
    AlertSystem.alert_type alert_data = "test_alert"
    \/ (AlertSystem.alert_type alert_data = "device_detected"
        \/ AlertSystem.alert_type alert_data = "high_confidence")
       /\ AlertSystem.running s = true /\ (0 < cycles)%nat in
  AlertSystem.alert_active after.1.1 = false /\
  AlertSystem.current_target after.1.1 = None /\
  AlertSystem.alert_queue after.1.1 = AlertSystem.alert_queue s /\
  (ran ->
   after.2 !! AlertSystem.laser_pin s = Some AlertSystem.LOW /\
   after.2 !! AlertSystem.buzzer_pin s = Some AlertSystem.LOW /\
   after.2 !! AlertSystem.led_pin s = Some AlertSystem.LOW) /\
  (~ ran -> after.2 = gpio) /\
  (forall pin,
     pin <> AlertSystem.laser_pin s -> pin <> AlertSystem.buzzer_pin s ->
     pin <> AlertSystem.led_pin s ->
     after.2 !! pin = gpio !! pin).
Proof.
  intros Hlaser Hbuzzer Hled after ran. subst after.
  unfold AlertSystem._execute_alert. cbv zeta.
  destruct (execute_alert_pointed (AlertSystem.target_position alert_data)
              s servos) as (Hl & Hb & Hd & Hrun & Hqueue & _).
  cbv zeta in Hl, Hb, Hd, Hrun, Hqueue.
  set (pointed := match AlertSystem.target_position alert_data with
                  | Some position => _
                  | None => _
                  end) in *.
  set (writes := AlertSystem.alert_pattern _ cycles pointed.1).
  assert (Hpins : forall w, w ∈ writes ->
    w.1 = AlertSystem.laser_pin s \/ w.1 = AlertSystem.buzzer_pin s
    \/ w.1 = AlertSystem.led_pin s).
  { intros w Hw%alert_pattern_pins. by rewrite Hl, Hb, Hd in Hw. }
  rewrite GPIO_outputs_set_up
    by (intros w [->|[->| ->]]%Hpins; done).
  cbn [fst snd AlertSystem.set_active AlertSystem.alert_active
       AlertSystem.current_target AlertSystem.alert_queue].
  split; [done|]. split; [done|]. split; [done|].
  destruct (alert_pattern_shape (AlertSystem.alert_type alert_data) cycles
              pointed.1) as [Hidle Hran].
  rewrite Hrun in Hidle, Hran. fold ran in Hidle, Hran. fold writes in Hidle, Hran.
  split; [|split].
  - intros Hr. destruct (Hran Hr) as (between & a & b & c & Hshape & Hcover).
    rewrite Hl, Hb, Hd in Hcover. rewrite Hshape.
    rewrite !app_comm_cons. split; [|split]; apply writes_end_low, Hcover; tauto.
  - intros Hr. by rewrite (Hidle Hr).
  - intros pin Hnl Hnb Hnd. apply writes_other_pin.
    intros w [->|[->| ->]]%Hpins; done.
Qed.

Lemma execute_alert_switches_off_example :
  (AlertSystem._execute_alert
     {| AlertSystem.target_position := Some (16, 12);
        AlertSystem.alert_type := "high_confidence";
        AlertSystem.duration := 5;
        AlertSystem.timestamp := 1000 |}
     2 Scenario.idle_alerts
     {| AlertSystem.servo_x := Some []; AlertSystem.servo_y := Some [] |}
     Scenario.outputs_high).2 !! 11%nat = Some AlertSystem.LOW.
Proof.
  refine (proj1 (proj1 (proj2 (proj2 (proj2
    (execute_alert_switches_off
       {| AlertSystem.target_position := Some (16, 12);
          AlertSystem.alert_type := "high_confidence";
          AlertSystem.duration := 5;
          AlertSystem.timestamp := 1000 |}
       2 Scenario.idle_alerts
       {| AlertSystem.servo_x := Some []; AlertSystem.servo_y := Some [] |}
       Scenario.outputs_high _ _ _)))) _)).
  - by eexists.
  - by eexists.
  - by eexists.
  - right. split; [by right|]. split; [reflexivity|lia].
Defined.

(** X27.  [_execute_alert] when the laser pin is set up and the LED pin is
    not: a pattern that runs switches the laser on, the write to the LED
    raises, and the handler only resets [alert_active].  The laser is left
    on, no other output is written, and [current_target] still names the
    target of the request. *)
Theorem execute_alert_led_fault (alert_data : AlertSystem.Alert_data)
    (cycles : nat) (s : AlertSystem.State) (servos : AlertSystem.Servos)
    (gpio : AlertSystem.GPIO) :
  is_Some (gpio !! AlertSystem.laser_pin s) ->
  gpio !! AlertSystem.led_pin s = None ->
  AlertSystem.alert_type alert_data = "test_alert"
  \/ (AlertSystem.alert_type alert_data = "device_detected"
      \/ AlertSystem.alert_type alert_data = "high_confidence")
     /\ AlertSystem.running s = true /\ (0 < cycles)%nat ->
  let after := AlertSystem._execute_alert alert_data cycles s servos gpio in
  after.2 = <[AlertSystem.laser_pin s := AlertSystem.HIGH]> gpio /\
  after.2 !! AlertSystem.laser_pin s = Some AlertSystem.HIGH /\
  AlertSystem.alert_active after.1.1 = false /\
  AlertSystem.current_target after.1.1 = AlertSystem.target_position alert_data /\
  AlertSystem.alert_queue after.1.1 = AlertSystem.alert_queue s.
Proof.
  intros [held Hlaser] Hled Hran after. subst after.
  unfold AlertSystem._execute_alert. cbv zeta.
  destruct (execute_alert_pointed (AlertSystem.target_position alert_data)
              s servos) as (Hl & Hb & Hd & Hrun & Hqueue & Htarget).
  cbv zeta in Hl, Hb, Hd, Hrun, Hqueue, Htarget.
  set (pointed := match AlertSystem.target_position alert_data with
                  | Some position => _
                  | None => _
                  end) in *.
  destruct (alert_pattern_shape (AlertSystem.alert_type alert_data) cycles
              pointed.1) as [_ Hshape].
  rewrite Hrun in Hshape.
  destruct (Hshape Hran) as (between & a & b & c & -> & _).
  assert (AlertSystem.led_pin s <> AlertSystem.laser_pin s) as Hne
    by (intros Heq; rewrite Heq, Hlaser in Hled; done).
  assert (Hout : forall rest,
    AlertSystem.GPIO_outputs
      ((AlertSystem.laser_pin s, AlertSystem.HIGH)
         :: (AlertSystem.led_pin s, AlertSystem.HIGH) :: rest) gpio
    = (false, <[AlertSystem.laser_pin s := AlertSystem.HIGH]> gpio)).
  { intros rest. cbn [AlertSystem.GPIO_outputs]. unfold AlertSystem.GPIO_output.
    by rewrite Hlaser, lookup_insert_ne, Hled. }
  rewrite Hl, Hd, Hout.
  cbn [fst snd AlertSystem.set_active AlertSystem.alert_active
       AlertSystem.current_target AlertSystem.alert_queue].
  split; [done|]. split; [by rewrite lookup_insert_eq|]. by repeat split.
Qed.

Lemma execute_alert_led_fault_example :
  (AlertSystem._execute_alert
     {| AlertSystem.target_position := None;
        AlertSystem.alert_type := "test_alert";
        AlertSystem.duration := 5;
        AlertSystem.timestamp := 1000 |}
     0 Scenario.idle_alerts
     {| AlertSystem.servo_x := None; AlertSystem.servo_y := None |}
     {[ 11%nat := AlertSystem.LOW ]}).2 !! 11%nat = Some AlertSystem.HIGH.
Proof.
  refine (proj1 (proj2
    (execute_alert_led_fault
       {| AlertSystem.target_position := None;
          AlertSystem.alert_type := "test_alert";
          AlertSystem.duration := 5;
          AlertSystem.timestamp := 1000 |}
       0 Scenario.idle_alerts
       {| AlertSystem.servo_x := None; AlertSystem.servo_y := None |}
       {[ 11%nat := AlertSystem.LOW ]} _ _ _))).
  - by eexists.
  - reflexivity.
  - by left.
Defined.

Lemma point_laser_ready (position : R * R) (s : AlertSystem.State)
    (sent_x sent_y : list R) :
  exists angles,
    AlertSystem.laser_angles position 32 24 = Some angles /\
    (AlertSystem.point_laser_at_position position 32 24 s
       {| AlertSystem.servo_x := Some sent_x;
          AlertSystem.servo_y := Some sent_y |}).1
    = AlertSystem.set_angles (IZR angles.1) (IZR angles.2) s.
Proof.
  unfold AlertSystem.point_laser_at_position.
  destruct (AlertSystem.laser_angles position 32 24) as [angles|] eqn:Hangles.
  - exists angles. split; [done|].
    apply (move_servo_ready_spec (IZR angles.1) (IZR angles.2) s sent_x sent_y).
  - exfalso. revert Hangles. unfold AlertSystem.laser_angles, Py.div.
    rewrite !decide_False by lra. done.
Qed.

(** X28.  Requests are served oldest first.  On a running dispatcher with
    the output pins set up, one round of [_process_alerts] after a call of
    [trigger_alert] executes the request at the head of the queue, which is
    the new one only if nothing was waiting, and leaves the others in their
    order with the new request last; it ends with [alert_active] false and
    no current target, and with both servos created the pointer stands at
    the angles computed for the target of the request that was served.  A
    dispatcher that is not running, or has nothing queued, does nothing. *)
Theorem process_alerts_serves_oldest (target : option (R * R))
    (kind : string) (duration now : R) (cycles : nat)
    (s : AlertSystem.State) (sent_x sent_y : list R) (gpio : AlertSystem.GPIO) :
  is_Some (gpio !! AlertSystem.laser_pin s) ->
  is_Some (gpio !! AlertSystem.buzzer_pin s) ->
  is_Some (gpio !! AlertSystem.led_pin s) ->
  let servos := {| AlertSystem.servo_x := Some sent_x;
                   AlertSystem.servo_y := Some sent_y |} in
  let request := {| AlertSystem.target_position := target;
                    AlertSystem.alert_type := kind;
                    AlertSystem.duration := duration;
                    AlertSystem.timestamp := now |} in
  let queued := AlertSystem.trigger_alert target kind duration now s in
  let after := AlertSystem._process_alerts cycles queued servos gpio in
  (AlertSystem.running s = false -> after = (queued, servos, gpio)) /\
  (AlertSystem.running s = true ->
   exists served,
     head (AlertSystem.alert_queue s ++ [request]) = Some served /\
     AlertSystem.alert_queue after.1.1
     = tail (AlertSystem.alert_queue s ++ [request]) /\
     AlertSystem.alert_active after.1.1 = false /\
     AlertSystem.current_target after.1.1 = None /\
     forall position,
       AlertSystem.target_position served = Some position ->
       exists angles,
         AlertSystem.laser_angles position 32 24 = Some angles /\
         AlertSystem.current_x_angle after.1.1 = IZR angles.1 /\
         AlertSystem.current_y_angle after.1.1 = IZR angles.2) /\
  (AlertSystem.alert_queue s = [] ->
   AlertSystem._process_alerts cycles s servos gpio = (s, servos, gpio)).
Proof.
  intros Hlaser Hbuzzer Hled servos request queued after.
  split; [|split].
  - intros Hrun. subst after queued. unfold AlertSystem._process_alerts.
    cbn [AlertSystem.trigger_alert AlertSystem.set_queue AlertSystem.running].
    by rewrite Hrun.
  - intros Hrun. subst after queued. unfold AlertSystem._process_alerts.
    cbn [AlertSystem.trigger_alert AlertSystem.set_queue AlertSystem.running
         AlertSystem.alert_queue].
    rewrite Hrun. fold request.
    destruct (AlertSystem.alert_queue s ++ [request]) as [|served rest] eqn:Hq;
      [by destruct (AlertSystem.alert_queue s)|].
    exists served. split; [done|]. cbn [tail].
    match goal with
    | |- context [AlertSystem._execute_alert served cycles ?s' _ _] =>
        set (popped := s')
    end.
    unfold AlertSystem._execute_alert. cbv zeta.
    destruct (execute_alert_pointed (AlertSystem.target_position served)
                popped servos) as (Hl & Hb & Hd & Hrun' & Hqueue & _).
    cbv zeta in Hl, Hb, Hd, Hrun', Hqueue.
    assert (Hangles : forall position,
      AlertSystem.target_position served = Some position ->
      exists angles,
        AlertSystem.laser_angles position 32 24 = Some angles /\
        AlertSystem.current_x_angle
          (match AlertSystem.target_position served with
           | Some position =>
               AlertSystem.point_laser_at_position position 32 24
                 (AlertSystem.set_active true
                    (AlertSystem.target_position served) popped) servos
           | None =>
               (AlertSystem.set_active true
                  (AlertSystem.target_position served) popped, servos)
           end).1 = IZR angles.1 /\
        AlertSystem.current_y_angle
          (match AlertSystem.target_position served with
           | Some position =>
               AlertSystem.point_laser_at_position position 32 24
                 (AlertSystem.set_active true
                    (AlertSystem.target_position served) popped) servos
           | None =>
               (AlertSystem.set_active true
                  (AlertSystem.target_position served) popped, servos)
           end).1 = IZR angles.2).
    { intros position ->. subst servos.
      destruct (point_laser_ready position
                  (AlertSystem.set_active true (Some position) popped)
                  sent_x sent_y) as (angles & Hsome & ->).
      exists angles. by split. }
    set (pointed := match AlertSystem.target_position served with
                    | Some position => _
                    | None => _
                    end) in *.
    set (writes := AlertSystem.alert_pattern _ cycles pointed.1).
    assert (Hpins : forall w, w ∈ writes ->
      w.1 = AlertSystem.laser_pin s \/ w.1 = AlertSystem.buzzer_pin s
      \/ w.1 = AlertSystem.led_pin s).
    { intros w Hw%alert_pattern_pins. by rewrite Hl, Hb, Hd in Hw. }
    rewrite GPIO_outputs_set_up
      by (intros w [->|[->| ->]]%Hpins; done).
    cbn [fst snd AlertSystem.set_active AlertSystem.alert_active
         AlertSystem.current_target AlertSystem.alert_queue
         AlertSystem.current_x_angle AlertSystem.current_y_angle].
    split; [exact Hqueue|]. split; [done|]. split; [done|]. exact Hangles.
  - intros Hempty. unfold AlertSystem._process_alerts. rewrite Hempty.
    by destruct (AlertSystem.running s).
Qed.

Lemma process_alerts_serves_oldest_example :
  AlertSystem.alert_queue
    (AlertSystem._process_alerts 1
       (AlertSystem.trigger_alert (Some (20, 8)) "high_confidence" 5 1001
          (AlertSystem.trigger_alert (Some (16, 12)) "device_detected" 5 1000
             Scenario.idle_alerts))
       {| AlertSystem.servo_x := Some []; AlertSystem.servo_y := Some [] |}
       Scenario.outputs_high).1.1
  = [ {| AlertSystem.target_position := Some (20, 8);
         AlertSystem.alert_type := "high_confidence";
         AlertSystem.duration := 5;
         AlertSystem.timestamp := 1001 |} ].
Proof.
  destruct (proj1 (proj2
    (process_alerts_serves_oldest (Some (20, 8)) "high_confidence" 5 1001 1
       (AlertSystem.trigger_alert (Some (16, 12)) "device_detected" 5 1000
          Scenario.idle_alerts)
       [] [] Scenario.outputs_high ltac:(by eexists) ltac:(by eexists)
       ltac:(by eexists))) eq_refl) as (served & _ & Hrest & _).
  exact Hrest.
Defined.

(** ** Identifiers of thermal-only detections *)

Lemma pretty_N_go_chars (c : ascii) (x : N) (s : string) :
  (forall d, pretty_N_char d <> c) ->
  ~ In c (String.list_ascii_of_string s) ->
  ~ In c (String.list_ascii_of_string (pretty_N_go x s)).
Proof.
  intros Hdigit. revert s.
  induction (N.lt_wf_0 x) as [x _ IH]; intros s Hs.
  assert (x = 0 \/ 0 < x)%N as [->|Hpos] by lia.
  - by rewrite pretty_N_go_0.
  - rewrite pretty_N_go_step by done. apply IH; [by apply N.div_lt|].
    cbn [String.list_ascii_of_string]. intros [Hc|Hc]; [by apply (Hdigit _ Hc)|done].
Qed.

Lemma pretty_Z_chars (c : ascii) (z : Z) :
  (forall d, pretty_N_char d <> c) -> c <> "-"%char ->
  ~ In c (String.list_ascii_of_string (pretty z)).
Proof.
  intros Hdigit Hdash.
  assert (Hpos : forall p : positive,
    ~ In c (String.list_ascii_of_string (pretty p))).
  { intros p. unfold pretty, pretty_positive, pretty, pretty_N.
    rewrite decide_False by done.
    apply pretty_N_go_chars; [done|]. by intros []. }
  destruct z as [|p|p]; unfold pretty, pretty_Z.
  - cbn. intros [Hc|[]]. by apply (Hdigit 0%N).
  - apply Hpos.
  - cbn [String.app String.list_ascii_of_string]. intros [Hc|Hc]; [done|].
    by apply (Hpos p).
Qed.

Lemma string_app_separator_inj (c : ascii) (a a' b b' : string) :
  ~ In c (String.list_ascii_of_string a) -> ~ In c (String.list_ascii_of_string a') ->
  a +:+ String c b = a' +:+ String c b' -> a = a' /\ b = b'.
Proof.
  revert a'. induction a as [|x a IH]; intros [|x' a'] Ha Ha'; cbn.
  - by intros [= ->].
  - intros [= <- _]. destruct Ha'. by left.
  - intros [= -> _]. destruct Ha. by left.
  - intros [= -> Hrest].
    destruct (IH a') as [-> ->]; [|by intros ?; apply Ha'; right|done|done].
    by intros ?; apply Ha; right.
Qed.

Lemma In_string_app_separator (c : ascii) (a b : string) :
  In c (String.list_ascii_of_string (a +:+ String c b)).
Proof. induction a as [|x a IH]; cbn; [by left|by right]. Qed.

Lemma underscore_not_digit (d : N) : pretty_N_char d <> "_"%char.
Proof. unfold pretty_N_char. by repeat case_match. Qed.

Lemma colon_not_digit (d : N) : pretty_N_char d <> ":"%char.
Proof. unfold pretty_N_char. by repeat case_match. Qed.

(** X29.  The pseudo identifier of a thermal-only detection names its
    pixel: two hotspots get the same identifier exactly when they are at the
    same pixel.  And it is never the identifier of an RF device: the device
    identifier the parser builds from a scanner line contains a colon, the
    thermal one does not, so the two kinds of record never share an entry of
    [active_detections]. *)
Theorem thermal_device_id_distinct :
  (forall p p' : Z * Z,
     Main.thermal_device_id p = Main.thermal_device_id p' <-> p = p') /\
  (forall esp32_id data_line now detection (p : Z * Z),
     RFReceiver.parse_line esp32_id data_line now
       = RFReceiver.Enqueued detection ->
     RFReceiver.mac_address detection <> Main.thermal_device_id p).
Proof.
  split.
  - intros [x y] [x' y']. split; [|by intros ->].
    unfold Main.thermal_device_id. cbn [fst snd].
    intros Hid%(inj (String.app "thermal_")).
    apply (string_app_separator_inj "_") in Hid as [Hx Hy];
      [|by apply pretty_Z_chars; [apply underscore_not_digit|]..].
    by rewrite (inj pretty _ _ Hx), (inj pretty _ _ Hy).
  - intros esp32_id data_line now detection p. unfold RFReceiver.parse_line.
    destruct (Py.startswith data_line "DEVICE:"); [|done].
    case_decide; [|done].
    destruct (Py.split ":" data_line !! 7%nat) as [field|] eqn:Hfield; [|done].
    destruct (Py.int field); [|done].
    destruct (RFReceiver.esp32_positions !! esp32_id); [|done].
    intros [= <-]. cbn [RFReceiver.mac_address].
    apply lookup_lt_Some in Hfield.
    destruct (Py.split ":" data_line)
      as [|f0 [|f1 [|f2 [|f3 [|f4 [|f5 [|f6 [|f7 rest]]]]]]]];
      cbn [length] in Hfield; try lia.
    intros Hclash.
    assert (Hcolon : In ":"%char
      (String.list_ascii_of_string (Py.join ":" (Py.slice 1 7
         (f0 :: f1 :: f2 :: f3 :: f4 :: f5 :: f6 :: f7 :: rest)))))
      by apply (In_string_app_separator ":" f1).
    rewrite Hclash in Hcolon. revert Hcolon.
    unfold Main.thermal_device_id.
    change ("thermal_" +:+ pretty p.1 +:+ "_" +:+ pretty p.2)
      with ("thermal" +:+ String "_" (pretty p.1 +:+ "_" +:+ pretty p.2)).
    intros Hcolon.
    assert (Hsplit : forall a b,
      In ":"%char (String.list_ascii_of_string (a +:+ b)) ->
      In ":"%char (String.list_ascii_of_string a)
      \/ In ":"%char (String.list_ascii_of_string b)).
    { intros a b. induction a as [|x a IH]; cbn; [by right|].
      intros [?|?]; [by left; left|]. destruct IH; [done|by left; right|by right]. }
    apply Hsplit in Hcolon as [Hcolon|Hcolon].
    + cbn in Hcolon. by repeat destruct Hcolon as [Hcolon|Hcolon].
    + cbn [String.list_ascii_of_string] in Hcolon. destruct Hcolon as [?|Hcolon]; [done|].
      apply Hsplit in Hcolon as [Hcolon|Hcolon].
      * by apply (pretty_Z_chars ":" p.1 colon_not_digit) in Hcolon.
      * cbn [String.app String.list_ascii_of_string] in Hcolon.
        destruct Hcolon as [?|Hcolon]; [done|].
        by apply (pretty_Z_chars ":" p.2 colon_not_digit) in Hcolon.
Qed.

(** ** Scanners behind RF-only evidence *)

(** X30.  What the RF-only update asks of a device before it records
    evidence for it.  The confidence of a reported position, scaled by 0.7,
    reaches a positive confidence threshold only if the threshold is at most
    0.7, the device's window is not empty, the number of distinct scanners in
    the window is at least 4 * threshold / 0.7, and (for a threshold above
    0.07) the mean signal strength is at least 50 * threshold / 0.7 - 100
    dBm.  At the threshold 0.7 this means all four scanners and a mean of
    -50 dBm or more. *)
Theorem rf_only_evidence_needs_scanners (cfg : Main.Config) (now : R)
    (detected_devices : gmap string RFReceiver.Device)
    (pos_data : RFReceiver.Position_data) :
  0 < Main.confidence_threshold cfg ->
  pos_data ∈ RFReceiver.get_estimated_positions now detected_devices ->
  Main.rf_only_confidence pos_data >= Main.confidence_threshold cfg ->
  exists device,
    detected_devices !! RFReceiver.pos_mac_address pos_data = Some device /\
    RFReceiver.detections device <> [] /\
    Main.confidence_threshold cfg <= 0.7 /\
    let unique_esp32s :=
      size (list_to_set (RFReceiver.esp32_id <$> RFReceiver.detections device)
              : gset nat) in
    let avg_rssi :=
      IZR (foldl Z.add 0%Z (RFReceiver.rssi <$> RFReceiver.detections device))
      / INR (length (RFReceiver.detections device)) in
    INR unique_esp32s * 0.7 >= 4 * Main.confidence_threshold cfg /\
    (Main.confidence_threshold cfg > 0.07 ->
     (avg_rssi + 100) * 0.7 >= 50 * Main.confidence_threshold cfg).
Proof.
  intros Hpos (device & Hd & _ & _ & Hconf)%elem_of_get_estimated_positions.
  unfold Main.rf_only_confidence. rewrite Hconf. intros Hreach.
  exists device. split; [done|].
  pose proof (position_confidence_unit device) as [_ Hle].
  revert Hreach Hle. unfold RFReceiver._calculate_position_confidence.
  destruct (RFReceiver.detections device) as [|d ds] eqn:Hds; [lra|].
  rewrite <- Hds.
  set (unique := size _). set (avg := IZR _ / INR _).
  intros Hreach Hle. split; [by rewrite Hds|]. split; [lra|].
  cbv zeta.
  pose proof (py_min_l (INR unique / 4) 1) as Hbase_l.
  pose proof (py_min_r (INR unique / 4) 1) as Hbase_r.
  pose proof (pos_INR unique) as Hunique.
  assert (0 <= Py.min (INR unique / 4) 1) as Hbase_0.
  { apply py_min_glb; lra. }
  pose proof (py_min_l 1 ((avg + 100) / 50)) as Hinner_l.
  pose proof (py_min_r 1 ((avg + 100) / 50)) as Hinner_r.
  set (base := Py.min (INR unique / 4) 1) in *.
  set (inner := Py.min 1 ((avg + 100) / 50)) in *.
  assert (Hfactor : Py.max 0.1 inner = 0.1 \/ Py.max 0.1 inner = inner).
  { unfold Py.max. case_decide; auto. }
  assert (Hfactor_1 : Py.max 0.1 inner <= 1).
  { destruct Hfactor as [-> | ->]; lra. }
  assert (Hfactor_0 : 0.1 <= Py.max 0.1 inner) by apply py_max_l.
  set (factor := Py.max 0.1 inner) in *.
  split.
  - nra.
  - intros Hthreshold.
    destruct Hfactor as [Hf|Hf]; rewrite Hf in *; nra.
Qed.

Lemma rf_only_evidence_four_scanners :
  exists device,
    ({[ Scenario.mac :=
          {| RFReceiver.first_seen := 1;
             RFReceiver.last_seen := 1;
             RFReceiver.detections :=
               [Scenario.heard_by 0 (0, 0) (-50) 1;
                Scenario.heard_by 1 (100, 0) (-50) 1;
                Scenario.heard_by 2 (0, 100) (-50) 1;
                Scenario.heard_by 3 (100, 100) (-50) 1];
             RFReceiver.estimated_position := Some (50, 50) |} ]}
       : gmap string RFReceiver.Device) !! Scenario.mac = Some device /\
    RFReceiver.detections device <> [].
Proof.
  set (device :=
         {| RFReceiver.first_seen := 1;
            RFReceiver.last_seen := 1;
            RFReceiver.detections :=
              [Scenario.heard_by 0 (0, 0) (-50) 1;
               Scenario.heard_by 1 (100, 0) (-50) 1;
               Scenario.heard_by 2 (0, 100) (-50) 1;
               Scenario.heard_by 3 (100, 100) (-50) 1];
            RFReceiver.estimated_position := Some (50, 50) |}).
  assert (Hfull : RFReceiver._calculate_position_confidence device = 1).
  { unfold RFReceiver._calculate_position_confidence.
    cbn [device RFReceiver.detections].
    replace (size _) with 4%nat by (symmetry; vm_compute; reflexivity).
    cbn [fmap list_fmap foldl length RFReceiver.rssi Scenario.heard_by].
    change (0 + -50 + -50 + -50 + -50)%Z with (-200)%Z.
    replace (INR 4) with 4 by (simpl; lra).
    replace (4 / 4) with 1 by lra.
    replace ((-200 / 4 + 100) / 50) with 1 by lra.
    unfold Py.min, Py.max. rdecide. }
  destruct (rf_only_evidence_needs_scanners Scenario.cfg 1
              {[ Scenario.mac := device ]}
              {| RFReceiver.pos_mac_address := Scenario.mac;
                 RFReceiver.pos_position := (50, 50);
                 RFReceiver.pos_confidence :=
                   RFReceiver._calculate_position_confidence device |})
    as (device' & Hd & Hwindow & _).
  - simpl. lra.
  - rewrite (get_estimated_positions_singleton 1 Scenario.mac device (50, 50));
      [left| simpl; lra | reflexivity].
  - unfold Main.rf_only_confidence. cbn [RFReceiver.pos_confidence].
    rewrite Hfull. simpl. lra.
  - exists device'. by split.
Defined.
